(** * ChatRoom: the room-broadcast server and the client connection manager

    A shallow embedding of

    - the WebSocket server [server/websocket-server.js] (class
      [ChatServer]): the room registry [rooms], the session table [clients]
      and the message router;
    - the browser's [WebSocketService] ([js/websocket-service.js]): the
      close and reconnect logic, sending, the heartbeat and the dispatch;
    - the browser's [ChatService] ([js/chat-service.js]): the join guard of
      [connect] and the listeners for what the server sends;
    - the browser's [StorageService] ([js/storage.js]) and the utility
      functions of [js/utils.js].

    Conventions of the embedding.

    - A field of a parsed JSON envelope is a [jsval]: absent ([VUndefined]),
      [null], a boolean, an integral number, a string, or an object or array
      ([VObj]).  Of an object the model keeps what the program can observe:
      which object it is, and what its conversion to a string gives.
      Fractional numbers as field values are outside the model.
    - A JavaScript string is a sequence of UTF-16 code units.  The model has
      the strings all of whose code units are below 256 (U+0000 to U+00FF),
      as Stdlib strings; white space and letter case are JavaScript's on
      that range.
    - A connection object [ws] is a natural number (its identity); the
      [readyState] of every connection, the clock [Date.now()] and the result
      of [generateId()] are read from an environment [env] that is fixed for
      the duration of one (synchronous) handler activation.
    - [ws.send(JSON.stringify (message))] on connection [ws] is recorded as
      the packet [(ws, message)]; a call of a handler gives the server state
      it leaves, the packets it has sent, in order, and whether it ended by
      throwing.
    - Of [console.log] the server side records only whether evaluating its
      argument throws: a template literal converts each substitution to a
      string, which throws a [TypeError] for some objects. *)

From Stdlib Require Import ZArith Ascii String.
From stdpp Require Import gmap strings list fin_maps pretty.

(** ** JavaScript values *)

(** [VObj identity text] is an object or an array.  [===] and the keys of a
    [Map] or a [Set] compare objects by identity: two objects are the same
    only if they are one object, however alike they look.  [text] is what
    the conversion of the object to a string gives: [Some] of the text
    ("[object Object]" for [{}], "a,b" for [["a","b"]]), or [None] when the
    conversion throws a [TypeError], as it does for every parsed object
    that has a property [toString], such as [{"toString": null}] (the
    property is no function, and [Object.prototype.valueOf] returns the
    object itself). *)
Inductive jsval : Type :=
  | VUndefined
  | VNull
  | VBool (b : bool)
  | VNum (n : Z)
  | VStr (s : string)
  | VObj (identity : nat) (text : option string).

#[global] Instance jsval_eq_dec : EqDecision jsval.
Proof. solve_decision. Defined.

Definition jsval_encode (v : jsval)
    : unit + unit + bool + Z + string + nat * option string :=
  match v with
  | VUndefined => inl (inl (inl (inl (inl tt))))
  | VNull => inl (inl (inl (inl (inr tt))))
  | VBool b => inl (inl (inl (inr b)))
  | VNum n => inl (inl (inr n))
  | VStr s => inl (inr s)
  | VObj i t => inr (i, t)
  end.

Definition jsval_decode (x : unit + unit + bool + Z + string + nat * option string)
    : jsval :=
  match x with
  | inl (inl (inl (inl (inl _)))) => VUndefined
  | inl (inl (inl (inl (inr _)))) => VNull
  | inl (inl (inl (inr b))) => VBool b
  | inl (inl (inr n)) => VNum n
  | inl (inr s) => VStr s
  | inr (i, t) => VObj i t
  end.

#[global] Instance jsval_countable : Countable jsval.
Proof.
  apply (inj_countable' jsval_encode jsval_decode).
  by intros [].
Defined.

(** ToBoolean: what [!v] and [v || w] test.  Every object is truthy. *)
Definition truthy (v : jsval) : bool :=
  match v with
  | VUndefined | VNull => false
  | VBool b => b
  | VNum n => negb (n =? 0)%Z
  | VStr s => negb (String.eqb s "")
  | VObj _ _ => true
  end.

(** [v || w] *)
Definition js_or (v w : jsval) : jsval := if truthy v then v else w.

(** ToString, what a substitution [${v}] of a template literal applies to
    its value: the text, or [None] when it throws a [TypeError].  A number
    is printed in plain decimal, as JavaScript prints integers below
    10^21. *)
Definition ToString (v : jsval) : option string :=
  match v with
  | VUndefined => Some "undefined"
  | VNull => Some "null"
  | VBool true => Some "true"
  | VBool false => Some "false"
  | VNum n => Some (pretty n)
  | VStr s => Some s
  | VObj _ text => text
  end.

(** Whether [${v}] gives a text. *)
Definition converts (v : jsval) : bool :=
  match ToString v with Some _ => true | None => false end.

(** ** Strings: [trim] and [toUpperCase] *)

(** The white space and line terminators of JavaScript below U+0100: TAB,
    LF, VT, FF, CR, SPACE and the no-break space U+00A0.  [trim] strips
    them and the class [\s] of a regular expression matches them. *)
Definition is_white_space (c : ascii) : bool :=
  let n := nat_of_ascii c in
  ((9 <=? n)%nat && (n <=? 13)%nat) || (n =? 32)%nat || (n =? 160)%nat.

Fixpoint trimStart (s : string) : string :=
  match s with
  | EmptyString => EmptyString
  | String c r => if is_white_space c then trimStart r else s
  end.

Fixpoint trimEnd (s : string) : string :=
  match s with
  | EmptyString => EmptyString
  | String c r =>
      match trimEnd r with
      | EmptyString => if is_white_space c then EmptyString else String c EmptyString
      | r' => String c r'
      end
  end.

Definition trim (s : string) : string := trimEnd (trimStart s).

(** The upper-case form of one character below U+0100: [a]-[z] and the
    letters U+00E0 to U+00FE (but not the division sign U+00F7) move down
    by 32, the sharp s U+00DF becomes the two letters "SS", everything else
    is unchanged.  The upper-case forms of the micro sign U+00B5 and of
    U+00FF are U+039C and U+0178, which lie outside the range; the two
    characters stand for them here: like them they are no letter [A]-[Z]
    and no digit, which is all the program asks of an upper-cased
    character. *)
Definition char_toUpperCase (c : ascii) : string :=
  let n := nat_of_ascii c in
  if ((97 <=? n)%nat && (n <=? 122)%nat)
     || ((224 <=? n)%nat && (n <=? 254)%nat && negb (n =? 247)%nat)
  then String (ascii_of_nat (n - 32)) EmptyString
  else if (n =? 223)%nat then "SS"
  else String c EmptyString.

Fixpoint toUpperCase (s : string) : string :=
  match s with
  | EmptyString => EmptyString
  | String c r => String.append (char_toUpperCase c) (toUpperCase r)
  end.

(** ** Validators of the browser side ([js/utils.js]) *)

Definition is_upper (c : ascii) : bool :=
  let n := nat_of_ascii c in ((65 <=? n)%nat && (n <=? 90)%nat)%bool.
Definition is_lower (c : ascii) : bool :=
  let n := nat_of_ascii c in ((97 <=? n)%nat && (n <=? 122)%nat)%bool.
Definition is_digit (c : ascii) : bool :=
  let n := nat_of_ascii c in ((48 <=? n)%nat && (n <=? 57)%nat)%bool.

Fixpoint string_forall (p : ascii → bool) (s : string) : bool :=
  match s with
  | EmptyString => true
  | String c r => p c && string_forall p r
  end.

(** [/^[A-Z0-9]{6}$/.test(s)] *)
Definition regex_room_code (s : string) : bool :=
  (String.length s =? 6)%nat && string_forall (λ c, is_upper c || is_digit c) s.

(** [/^[a-zA-Z0-9\s\-_]+$/.test(s)] *)
Definition regex_username (s : string) : bool :=
  negb (String.length s =? 0)%nat &&
  string_forall (λ c, is_lower c || is_upper c || is_digit c || is_white_space c
                      || Ascii.eqb c "-" || Ascii.eqb c "_") s.

(** [validateRoomCode(code)]: [typeof code !== 'string'] rejects every value
    that is not a string. *)
Definition validateRoomCode (code : jsval) : bool :=
  match code with
  | VStr s =>
      if negb (truthy code) then false
      else regex_room_code (toUpperCase s)
  | _ => false
  end.

Definition validateUsername (username : jsval) : bool :=
  match username with
  | VStr s =>
      if negb (truthy username) then false
      else
        let trimmed := trim s in
        if ((String.length trimmed <? 1)%nat || (20 <? String.length trimmed)%nat)%bool
        then false
        else regex_username trimmed
  | _ => false
  end.

(** ** The server: [ChatServer] *)

(** A connection object is identified by a number. *)
Abbreviation conn := nat (only parsing).

(** [ws.readyState] *)
Inductive ready_state : Type := CONNECTING | OPEN | CLOSING | CLOSED.

#[global] Instance ready_state_eq_dec : EqDecision ready_state.
Proof. solve_decision. Defined.

(** What a handler activation reads from outside the server object. *)
Record env : Type := Env {
  Date_now : Z;                      (* Date.now() *)
  generateId : string;               (* this.generateId() *)
  readyState : conn → ready_state    (* ws.readyState *)
}.

(** The parsed envelope of an inbound message, field by field. *)
Record message : Type := Message {
  m_type : jsval;
  m_roomCode : jsval;
  m_username : jsval;
  m_content : jsval;
  m_id : jsval;
  m_isTyping : jsval
}.

(** What [JSON.parse(data.toString())] yields when it does not throw:
    [null], every property access on which throws a [TypeError], or a value
    whose fields can be read (a field that is missing reads as
    [VUndefined]). *)
Inductive json : Type :=
  | JsonNull
  | Json (m : message).

(** The messages the server writes. *)
Inductive outmsg : Type :=
  | connected (msg : string)
  | room_joined (roomCode username : jsval)
  | user_joined (username : jsval) (timestamp : Z)
  | user_left (username : jsval) (timestamp : Z)
  | user_list (users : list jsval)
  | chat_message (id username : jsval) (content : string) (timestamp : Z)
  | typing (username isTyping : jsval) (timestamp : Z)
  | pong (timestamp : Z)
  | error (msg : string) (timestamp : Z).

#[global] Instance outmsg_eq_dec : EqDecision outmsg.
Proof. solve_decision. Defined.

Abbreviation packet := (conn * outmsg)%type (only parsing).

(** The value of the [clients] map. *)
Record client : Type := Client {
  username : jsval;
  roomCode : jsval;
  lastSeen : Z
}.

(** [this.rooms] maps a room code to a [Set] of connections; a [Set] keeps
    insertion order, which [forEach] follows, so it is a duplicate-free
    list.  [this.clients] maps a connection to its record; [clients_keys]
    is the order of its keys, the order in which [clients.forEach] visits
    them: a key is appended when it is set for the first time and taken out
    when it is deleted.  A [Map] compares keys with SameValueZero: by value
    for the primitive values, by identity for objects.  [objects] counts the
    objects the server has taken as room codes: the next one is object
    number [objects]. *)
Record server : Type := Server {
  rooms : gmap jsval (list conn);
  clients : gmap conn client;
  clients_keys : list conn;
  objects : nat
}.

(** [new ChatServer()] *)
Definition new_server : server :=
  {| rooms := ∅; clients := ∅; clients_keys := []; objects := 0 |}.

Definition with_rooms (σ : server) (r : gmap jsval (list conn)) : server :=
  {| rooms := r; clients := clients σ; clients_keys := clients_keys σ;
     objects := objects σ |}.

(** [Set.prototype.add] and [Set.prototype.delete] *)
Definition set_add (ws : conn) (room : list conn) : list conn :=
  if decide (ws ∈ room) then room else room ++ [ws].

Definition set_delete (ws : conn) (room : list conn) : list conn :=
  filter (λ c, c ≠ ws) room.

(** [this.clients.set(ws, record)] and [this.clients.delete(ws)] *)
Definition clients_set (σ : server) (ws : conn) (record : client) : server :=
  {| rooms := rooms σ; clients := <[ws := record]> (clients σ);
     clients_keys := set_add ws (clients_keys σ); objects := objects σ |}.

Definition clients_delete (σ : server) (ws : conn) : server :=
  {| rooms := rooms σ; clients := delete ws (clients σ);
     clients_keys := set_delete ws (clients_keys σ); objects := objects σ |}.

(** A value of an inbound envelope as the server holds it.  The objects of
    an envelope are new: [JSON.parse] has just made them.  The only object
    whose identity the server ever reads is a room code, as a key of
    [rooms]; it is object number [objects]. *)
Definition own (σ : server) (v : jsval) : jsval :=
  match v with
  | VObj _ text => VObj (objects σ) text
  | _ => v
  end.

Definition count_object (v : jsval) (n : nat) : nat :=
  match v with
  | VObj _ _ => S n
  | _ => n
  end.

(** [console.log] of a template literal with the substitutions [vs]:
    whether it returns ([true]) or throws a [TypeError] ([false]). *)
Definition logs (vs : list jsval) : bool := forallb converts vs.

(** How a call of a handler ends: the state it leaves, the packets it has
    sent, and whether it returned or threw a [TypeError].  A handler that
    throws keeps what it has done before: the state and the packets are
    those at the [throw]. *)
Record result : Type := Result {
  state : server;
  sent : list packet;
  thrown : bool
}.

Definition returns (σ : server) (out : list packet) : result :=
  {| state := σ; sent := out; thrown := false |}.

Definition throws (σ : server) (out : list packet) : result :=
  {| state := σ; sent := out; thrown := true |}.

Section Handlers.
Variable E : env.

Definition send (ws : conn) (msg : outmsg) : list packet :=
  if decide (readyState E ws = OPEN) then [(ws, msg)] else [].

Definition sendError (ws : conn) (errorMessage : string) : list packet :=
  send ws (error errorMessage (Date_now E)).

Definition broadcastToRoom (σ : server) (code : jsval) (msg : outmsg)
    (excludeClient : option conn) : list packet :=
  match rooms σ !! code with
  | None => []
  | Some room =>
      flat_map (λ c,
        if decide (Some c ≠ excludeClient ∧ readyState E c = OPEN)
        then send c msg else []) room
  end.

Definition getRoomUsers (σ : server) (code : jsval) : list jsval :=
  match rooms σ !! code with
  | None => []
  | Some room => omap (λ c, username <$> clients σ !! c) room
  end.

(** [leaveCurrentRoom(ws)].  When the room is left empty it is deleted
    first and the deletion logged after, with the room code in a template
    literal. *)
Definition leaveCurrentRoom (σ : server) (ws : conn) : result :=
  match clients σ !! ws with
  | None => returns σ []
  | Some cl =>
      match rooms σ !! roomCode cl with
      | None => returns σ []
      | Some room =>
          let room' := set_delete ws room in
          let σ1 := with_rooms σ (<[roomCode cl := room']> (rooms σ)) in
          if (length room' =? 0)%nat then
            let σ2 := with_rooms σ1 (delete (roomCode cl) (rooms σ1)) in
            if logs [roomCode cl] then returns σ2 [] else throws σ2 []
          else
            returns σ1
              (broadcastToRoom σ1 (roomCode cl)
                 (user_left (username cl) (Date_now E)) None
               ++ broadcastToRoom σ1 (roomCode cl)
                    (user_list (getRoomUsers σ1 (roomCode cl))) None)
      end
  end.

(** [handleJoinRoom(ws, message)].  A [throw] of [leaveCurrentRoom] ends the
    call; the join is logged, with the name and the room code in a template
    literal, after the session has been inserted and registered and before
    anything is sent. *)
Definition handleJoinRoom (σ : server) (ws : conn) (m : message) : result :=
  if negb (truthy (m_roomCode m)) || negb (truthy (m_username m)) then
    returns σ (sendError ws "Room code and username are required")
  else
    let roomCode := own σ (m_roomCode m) in
    let username := m_username m in
    let left := leaveCurrentRoom σ ws in
    if thrown left then left
    else
      let σ1 := state left in
      let σ2 :=
        match rooms σ1 !! roomCode with
        | Some _ => σ1
        | None => with_rooms σ1 (<[roomCode := []]> (rooms σ1))
        end in
      let σ3 :=
        with_rooms σ2
          (<[roomCode := set_add ws (default [] (rooms σ2 !! roomCode))]> (rooms σ2)) in
      let σ4 :=
        {| rooms := rooms σ3;
           clients := <[ws := {| username := username;
                                 roomCode := roomCode;
                                 lastSeen := Date_now E |}]> (clients σ3);
           clients_keys := set_add ws (clients_keys σ3);
           objects := count_object (m_roomCode m) (objects σ3) |} in
      if logs [username; roomCode] then
        let roomUsers := getRoomUsers σ4 roomCode in
        returns σ4
          (sent left
           ++ send ws (room_joined roomCode username)
           ++ broadcastToRoom σ4 roomCode
                (user_joined username (Date_now E)) (Some ws)
           ++ send ws (user_list roomUsers)
           ++ broadcastToRoom σ4 roomCode (user_list roomUsers) None)
      else throws σ4 (sent left).

(** [handleChatMessage(ws, message)]: [content.trim] is no function unless
    the content is a string; the message is logged, with the room code and
    the name on record in a template literal, before it is broadcast. *)
Definition handleChatMessage (σ : server) (ws : conn) (m : message) : result :=
  match clients σ !! ws with
  | None => returns σ (sendError ws "Not in a room")
  | Some cl =>
      if negb (truthy (m_content m)) then
        returns σ (sendError ws "Message content is required")
      else
        match m_content m with
        | VStr content =>
            if String.eqb (trim content) "" then
              returns σ (sendError ws "Message content is required")
            else
              let chatMessage :=
                chat_message (js_or (m_id m) (VStr (generateId E)))
                  (username cl) (trim content) (Date_now E) in
              if logs [roomCode cl; username cl; VStr content] then
                returns σ (broadcastToRoom σ (roomCode cl) chatMessage None)
              else throws σ []
        | _ => throws σ []          (* content.trim is not a function *)
        end
  end.

Definition handleTyping (σ : server) (ws : conn) (m : message) : result :=
  match clients σ !! ws with
  | None => returns σ []
  | Some cl =>
      let typingMessage :=
        typing (username cl) (m_isTyping m) (Date_now E) in
      returns σ (broadcastToRoom σ (roomCode cl) typingMessage (Some ws))
  end.

(** [handlePing(ws, message)]: the assignment to [client.lastSeen] changes
    the record in place. *)
Definition handlePing (σ : server) (ws : conn) (m : message) : result :=
  let out := send ws (pong (Date_now E)) in
  match clients σ !! ws with
  | Some cl =>
      returns
        {| rooms := rooms σ;
           clients := <[ws := {| username := username cl;
                                 roomCode := roomCode cl;
                                 lastSeen := Date_now E |}]> (clients σ);
           clients_keys := clients_keys σ;
           objects := objects σ |} out
  | None => returns σ out
  end.

(** [handleDisconnection(ws)]: for a session with a record the
    disconnection is logged first, with the name and the room code in a
    template literal. *)
Definition handleDisconnection (σ : server) (ws : conn) : result :=
  match clients σ !! ws with
  | Some cl =>
      if logs [username cl; roomCode cl] then
        let left := leaveCurrentRoom σ ws in
        if thrown left then left
        else returns (clients_delete (state left) ws) (sent left)
      else throws σ []
  | None => returns (clients_delete σ ws) []
  end.

Definition handleMessage (σ : server) (ws : conn) (msg : json) : result :=
  match msg with
  | JsonNull => throws σ []          (* message.type on null *)
  | Json m =>
      (* switch (message.type), cases compared with === *)
      if decide (m_type m = VStr "join_room") then handleJoinRoom σ ws m
      else if decide (m_type m = VStr "chat_message") then handleChatMessage σ ws m
      else if decide (m_type m = VStr "typing") then handleTyping σ ws m
      else if decide (m_type m = VStr "ping") then handlePing σ ws m
      else returns σ []          (* console.log('Unknown message type:', ..) *)
  end.

(** The three callbacks [handleConnection] registers, and its welcome. *)
Definition handleConnection (σ : server) (ws : conn) : server * list packet :=
  (σ, send ws (connected "Connected to ChatRoom server")).

(** [ws.on('message', data => ..)]: [data] is given by what [JSON.parse]
    makes of it, [None] when it throws.  Whatever is thrown inside the
    [try] is caught; what the handler had done by then stays done, and the
    error notice is sent after it. *)
Definition on_message (σ : server) (ws : conn) (data : option json)
    : server * list packet :=
  match data with
  | None => (σ, sendError ws "Invalid message format")
  | Some msg =>
      let r := handleMessage σ ws msg in
      if thrown r
      then (state r, sent r ++ sendError ws "Invalid message format")
      else (state r, sent r)
  end.

(** [ws.on('close', ..)]: nothing catches what [handleDisconnection]
    throws. *)
Definition on_close (σ : server) (ws : conn) : server * list packet :=
  let r := handleDisconnection σ ws in (state r, sent r).

Definition on_error (σ : server) (ws : conn) : server * list packet := (σ, []).

(** The body of the interval of [startCleanupTimer]: [clients.forEach]
    visits the records in the order of their keys; a record that has been
    idle for more than the timeout is logged, with the name in a template
    literal, and then [terminate()] is called on its connection.  The
    result is the connections terminated, in order, and whether the scan
    ended by throwing.  [terminate] changes nothing in the server object;
    the connection's [close] event follows. *)
Definition cleanup_timeout : Z := 5 * 60 * 1000.

Fixpoint cleanup_scan (table : gmap conn client) (keys : list conn)
    : list conn * bool :=
  match keys with
  | [] => ([], false)
  | ws :: keys' =>
      match table !! ws with
      | Some cl =>
          if (cleanup_timeout <? Date_now E - lastSeen cl)%Z then
            if logs [username cl] then
              let r := cleanup_scan table keys' in (ws :: r.1, r.2)
            else ([], true)
          else cleanup_scan table keys'
      | None => cleanup_scan table keys'
      end
  end.

Definition cleanup (σ : server) : list conn :=
  (cleanup_scan (clients σ) (clients_keys σ)).1.

Definition cleanup_throws (σ : server) : bool :=
  (cleanup_scan (clients σ) (clients_keys σ)).2.

End Handlers.

(** ** Runs of the server *)

(** The events of the event loop that reach the server object. *)
Inductive event : Type :=
  | Connection (ws : conn)
  | MessageEvent (ws : conn) (data : option json)
  | CloseEvent (ws : conn)
  | ErrorEvent (ws : conn)
  | CleanupTick.

Definition step (E : env) (σ : server) (ev : event) : server * list packet :=
  match ev with
  | Connection ws => handleConnection E σ ws
  | MessageEvent ws data => on_message E σ ws data
  | CloseEvent ws => on_close E σ ws
  | ErrorEvent ws => on_error σ ws
  | CleanupTick => (σ, [])
  end.

(** Whether the activation ends with an exception that nothing in the
    server catches.  What becomes of the process then is decided outside
    the server object; [step] gives the state and the packets at the
    [throw]. *)
Definition uncaught (E : env) (σ : server) (ev : event) : bool :=
  match ev with
  | CloseEvent ws => thrown (handleDisconnection E σ ws)
  | CleanupTick => cleanup_throws E σ
  | _ => false
  end.

(** The state after a sequence of events, each with the environment it ran in. *)
Fixpoint run (σ : server) (tr : list (env * event)) : server :=
  match tr with
  | [] => σ
  | (E, ev) :: tr' => run (step E σ ev).1 tr'
  end.

Definition reachable (σ : server) : Prop := ∃ tr, σ = run new_server tr.

(** ** The registry invariant *)

(** Rooms are non-empty duplicate-free sets and every member of a room has
    a record that names the room.  A record names a room its connection is
    in, or, after a leave that threw, a room that is gone, under a code
    whose conversion to a string throws.  The keys are those of [clients],
    each once, and the objects on record are older than the next one. *)
Record registry_inv (σ : server) : Prop := RegistryInv {
  inv_rooms : ∀ code room,
    rooms σ !! code = Some room → room ≠ [] ∧ NoDup room;
  inv_member : ∀ code room ws,
    rooms σ !! code = Some room → ws ∈ room →
    ∃ cl, clients σ !! ws = Some cl ∧ roomCode cl = code;
  inv_client : ∀ ws cl,
    clients σ !! ws = Some cl →
    (∃ room, rooms σ !! roomCode cl = Some room ∧ ws ∈ room)
    ∨ (rooms σ !! roomCode cl = None ∧ converts (roomCode cl) = false);
  inv_keys : NoDup (clients_keys σ)
             ∧ ∀ ws, ws ∈ clients_keys σ ↔ is_Some (clients σ !! ws);
  inv_objects : ∀ ws cl i text,
    clients σ !! ws = Some cl → roomCode cl = VObj i text → (i < objects σ)%nat
}.

(** The state in the middle of a join or a disconnection: [ws] has been taken
    out of its room and its record is stale. *)
Record detached (ws : conn) (σ : server) : Prop := Detached {
  det_rooms : ∀ code room,
    rooms σ !! code = Some room → room ≠ [] ∧ NoDup room;
  det_member : ∀ code room w,
    rooms σ !! code = Some room → w ∈ room →
    w ≠ ws ∧ ∃ cl, clients σ !! w = Some cl ∧ roomCode cl = code;
  det_client : ∀ w cl,
    w ≠ ws → clients σ !! w = Some cl →
    (∃ room, rooms σ !! roomCode cl = Some room ∧ w ∈ room)
    ∨ (rooms σ !! roomCode cl = None ∧ converts (roomCode cl) = false);
  det_keys : NoDup (clients_keys σ)
             ∧ ∀ w, w ∈ clients_keys σ ↔ is_Some (clients σ !! w);
  det_objects : ∀ w cl i text,
    clients σ !! w = Some cl → roomCode cl = VObj i text → (i < objects σ)%nat
}.

(** The guard of [handleJoinRoom]: both fields are truthy. *)
Definition accepted (m : message) : bool :=
  truthy (m_roomCode m) && truthy (m_username m).

(** [ws.readyState === WebSocket.OPEN] in environment [E]. *)
Definition is_open (E : env) (c : conn) : Prop := readyState E c = OPEN.

#[global] Instance is_open_dec (E : env) (c : conn) : Decision (is_open E c).
Proof. unfold is_open. apply _. Defined.

(** The envelope [m] with its [username] field replaced. *)
Definition with_username (m : message) (u : jsval) : message :=
  {| m_type := m_type m; m_roomCode := m_roomCode m; m_username := u;
     m_content := m_content m; m_id := m_id m; m_isTyping := m_isTyping m |}.

(** The [username] field of an outbound chat or typing message. *)
Definition broadcast_username (o : outmsg) : option jsval :=
  match o with
  | chat_message _ u _ _ => Some u
  | typing u _ _ => Some u
  | _ => None
  end.

(** Events that leave the registration of [ws] alone: everything except an
    accepted [join_room] of [ws] and the close of [ws] itself. *)
Definition keeps_registration (ws : conn) (ev : event) : Prop :=
  match ev with
  | MessageEvent w (Some (Json m)) =>
      w = ws → m_type m = VStr "join_room" → accepted m = false
  | CloseEvent w => w ≠ ws
  | _ => True
  end.

(** An inbound [join_room] envelope as the browser builds it. *)
Definition join_room (code username : jsval) : message :=
  {| m_type := VStr "join_room"; m_roomCode := code; m_username := username;
     m_content := VUndefined; m_id := VUndefined; m_isTyping := VUndefined |}.

(** The number of entries of a member list that are the name [u]. *)
Definition occurrences (u : jsval) (users : list jsval) : nat :=
  length (filter (λ v, v = u) users).

(** An environment in which every transport is open. *)
Definition all_open (now : Z) (id : string) : env :=
  {| Date_now := now; generateId := id; readyState := λ _, OPEN |}.

(** Whether [message.type] is one of the cases of [handleMessage]. *)
Definition known_type (t : jsval) : bool :=
  bool_decide (t = VStr "join_room") || bool_decide (t = VStr "chat_message")
  || bool_decide (t = VStr "typing") || bool_decide (t = VStr "ping").

(** Whether a packet is an [error] notice. *)
Definition is_error (o : outmsg) : bool :=
  match o with error _ _ => true | _ => false end.

(** An inbound message the router cannot use: [JSON.parse] throws, or the
    parsed value is [null], or its [type] is none of the known ones. *)
Definition malformed (data : option json) : Prop :=
  match data with
  | None => True
  | Some JsonNull => True
  | Some (Json m) => known_type (m_type m) = false
  end.

(** ** A small scenario: Alice and Bob in room AB12CD *)

Definition sample_env : env := all_open 1699999999000 "lq3k8f2a".

Definition sample_trace : list (env * event) :=
  [(sample_env, MessageEvent 1 (Some (Json (join_room (VStr "AB12CD") (VStr "Alice")))));
   (sample_env, MessageEvent 2 (Some (Json (join_room (VStr "AB12CD") (VStr "Bob")))))].

Definition alice : client :=
  {| username := VStr "Alice"; roomCode := VStr "AB12CD";
     lastSeen := 1699999999000 |}.

Definition sample_chat : message :=
  {| m_type := VStr "chat_message"; m_roomCode := VStr "AB12CD";
     m_username := VStr "Alice"; m_content := VStr "  hello ";
     m_id := VStr "c1"; m_isTyping := VUndefined |}.

Definition sample_typing : message :=
  {| m_type := VStr "typing"; m_roomCode := VStr "AB12CD";
     m_username := VStr "Alice"; m_content := VUndefined;
     m_id := VUndefined; m_isTyping := VBool true |}.

(** ** The browser side *)

(** [ChatService.connect(roomCode, username)], as far as the join request
    is concerned: the pair is validated first
    ([throw new Error('Invalid room code or username')] otherwise, which
    ends the call before any transport is opened); the room code is
    upper-cased and the name trimmed, and [WebSocketService.connect] sends
    them in a [join_room] envelope once the transport is open.  The result is
    that envelope, the only join request the call can send, or [None] when
    validation ends the call. *)
Module ChatService.

Definition join_request (roomCode username : jsval) : option message :=
  if negb (validateRoomCode roomCode) || negb (validateUsername username)
  then None
  else
    match roomCode, username with
    | VStr code, VStr name =>
        let currentRoom := VStr (toUpperCase code) in
        let currentUser := VStr (trim name) in
        Some (join_room currentRoom currentUser)
    | _, _ => None
    end.

End ChatService.

(** [WebSocketService]: the close and reconnect logic.  A call returns the
    new state of the service object and the effects it had on the browser,
    in order.  [console.log] is recorded with the fixed part of its text. *)
Module WebSocketService.

(** The bodies given to [setTimeout] and [setInterval]. *)
Inductive callback : Type :=
  | reconnect_timer       (* the arrow function of attemptReconnect *)
  | heartbeat_tick        (* the interval of startHeartbeat *)
  | heartbeat_expired.    (* the timeout set by a heartbeat tick *)

Inductive effect : Type :=
  | console_log (text : string)
  | clearInterval (handle : nat)
  | clearTimeout (handle : nat)
  | setTimeout (cb : callback) (delay : Z)
  | setInterval (cb : callback) (delay : Z)
  | notifyConnectionListeners (isConnected : bool)
  | new_WebSocket
  | socket_send (msg : message)
  | socket_close.

#[global] Instance callback_eq_dec : EqDecision callback.
Proof. solve_decision. Defined.

Record service : Type := Service {
  isConnected : bool;
  reconnectAttempts : Z;
  maxReconnectAttempts : Z;
  reconnectDelay : Z;
  heartbeatInterval : option nat;    (* null, or the handle of the interval *)
  heartbeatTimeout : option nat      (* null, or the handle of the timeout *)
}.

(** [new WebSocketService()] *)
Definition constructor : service :=
  {| isConnected := false;
     reconnectAttempts := 0;
     maxReconnectAttempts := 5;
     reconnectDelay := 1000;
     heartbeatInterval := None;
     heartbeatTimeout := None |}.

(** [this.config.heartbeatInterval] *)
Definition config_heartbeatInterval : Z := 30000.

Definition stopHeartbeat (s : service) : service * list effect :=
  let e1 := match heartbeatInterval s with
            | Some h => [clearInterval h] | None => [] end in
  let e2 := match heartbeatTimeout s with
            | Some h => [clearTimeout h] | None => [] end in
  ({| isConnected := isConnected s;
      reconnectAttempts := reconnectAttempts s;
      maxReconnectAttempts := maxReconnectAttempts s;
      reconnectDelay := reconnectDelay s;
      heartbeatInterval := None;
      heartbeatTimeout := None |}, e1 ++ e2).

(** [handle] is what [setInterval] returns. *)
Definition startHeartbeat (handle : nat) (s : service) : service * list effect :=
  let r := stopHeartbeat s in
  ({| isConnected := isConnected r.1;
      reconnectAttempts := reconnectAttempts r.1;
      maxReconnectAttempts := maxReconnectAttempts r.1;
      reconnectDelay := reconnectDelay r.1;
      heartbeatInterval := Some handle;
      heartbeatTimeout := heartbeatTimeout r.1 |},
   r.2 ++ [setInterval heartbeat_tick config_heartbeatInterval]).

Definition handleOpen (handle : nat) (s : service) : service * list effect :=
  let s1 := {| isConnected := true;
               reconnectAttempts := 0;
               maxReconnectAttempts := maxReconnectAttempts s;
               reconnectDelay := reconnectDelay s;
               heartbeatInterval := heartbeatInterval s;
               heartbeatTimeout := heartbeatTimeout s |} in
  let r := startHeartbeat handle s1 in
  (r.1, [console_log "WebSocket connected"] ++ r.2
        ++ [notifyConnectionListeners true]).

(** [Math.pow(2, k)] for the exponents that occur, [k ≥ 0]. *)
Definition Math_pow2 (k : Z) : Z := 2 ^ k.

Definition attemptReconnect (s : service) : service * list effect :=
  let s1 := {| isConnected := isConnected s;
               reconnectAttempts := reconnectAttempts s + 1;
               maxReconnectAttempts := maxReconnectAttempts s;
               reconnectDelay := reconnectDelay s;
               heartbeatInterval := heartbeatInterval s;
               heartbeatTimeout := heartbeatTimeout s |} in
  let delay := (reconnectDelay s1 * Math_pow2 (reconnectAttempts s1 - 1))%Z in
  (s1, [console_log "Attempting to reconnect"; setTimeout reconnect_timer delay]).

(** The body of the timer of [attemptReconnect], run when it fires. *)
Definition reconnect_timer_fired (s : service) : service * list effect :=
  if (reconnectAttempts s <=? maxReconnectAttempts s)%Z
  then (s, [console_log "Reconnection attempt..."])
  else (s, []).

(** [handleClose(event)], with [code = event.code]. *)
Definition handleClose (code : Z) (s : service) : service * list effect :=
  let s1 := {| isConnected := false;
               reconnectAttempts := reconnectAttempts s;
               maxReconnectAttempts := maxReconnectAttempts s;
               reconnectDelay := reconnectDelay s;
               heartbeatInterval := heartbeatInterval s;
               heartbeatTimeout := heartbeatTimeout s |} in
  let r := stopHeartbeat s1 in
  let out := [console_log "WebSocket disconnected:"] ++ r.2
             ++ [notifyConnectionListeners false] in
  if negb (code =? 1000)%Z
     && (reconnectAttempts r.1 <? maxReconnectAttempts r.1)%Z
  then let r' := attemptReconnect r.1 in (r'.1, out ++ r'.2)
  else (r.1, out).

(** The delays of the reconnect timers among the effects of a call. *)
Definition scheduled_reconnect (out : list effect) : list Z :=
  omap (λ e, match e with
             | setTimeout reconnect_timer d => Some d
             | _ => None
             end) out.

(** Whether an effect opens a transport or writes to one. *)
Definition uses_network (e : effect) : bool :=
  match e with
  | new_WebSocket | socket_send _ => true
  | _ => false
  end.

(** The events that reach the service object once [connect] has
    registered its listeners, and the runs they make. *)
Inductive event : Type :=
  | open_event (handle : nat)      (* 'open'; the handle setInterval returns *)
  | close_event (code : Z)         (* 'close' with event.code *)
  | reconnect_timer_event.         (* the timer of attemptReconnect fires *)

Definition step (s : service) (ev : event) : service * list effect :=
  match ev with
  | open_event handle => handleOpen handle s
  | close_event code => handleClose code s
  | reconnect_timer_event => reconnect_timer_fired s
  end.

Fixpoint run (s : service) (tr : list event) : service :=
  match tr with
  | [] => s
  | ev :: tr' => run (step s ev).1 tr'
  end.

(** All the effects of a run, in order. *)
Fixpoint effects (s : service) (tr : list event) : list effect :=
  match tr with
  | [] => []
  | ev :: tr' => (step s ev).2 ++ effects (step s ev).1 tr'
  end.

End WebSocketService.

(** ** More about runs of the server *)

(** Whether an event is a [join_room] message of [ws] that the server
    accepts. *)
Definition is_accepted_join (ws : conn) (ev : event) : bool :=
  match ev with
  | MessageEvent w (Some (Json m)) =>
      bool_decide (w = ws) && bool_decide (m_type m = VStr "join_room")
      && accepted m
  | _ => false
  end.

(** ** More of the utility functions *)

(** [s.charAt(i)]: the character at [i] as a string, the empty string when
    [i] is out of range. *)
Definition charAt (s : string) (i : nat) : string :=
  match String.get i s with
  | Some c => String c EmptyString
  | None => EmptyString
  end.

(** [generateRoomCode(length)].  [draw i] is the value of
    [Math.floor(Math.random() * characters.length)] in round [i] of the
    loop; [Math.random()] is below 1, so every draw is below 36. *)
Definition room_code_characters : string := "ABCDEFGHIJKLMNOPQRSTUVWXYZ0123456789".

Fixpoint generateRoomCode_loop (draw : nat → nat) (rounds i : nat)
    (result : string) : string :=
  match rounds with
  | O => result
  | S rounds' =>
      generateRoomCode_loop draw rounds' (S i)
        (String.append result (charAt room_code_characters (draw i)))
  end.

Definition generateRoomCode (length : nat) (draw : nat → nat) : string :=
  generateRoomCode_loop draw length 0 EmptyString.

(** The formatting of the room code field while the user types:
    [value.toUpperCase().replace(/[^A-Z0-9]/g, '')]. *)
Fixpoint string_filter (p : ascii → bool) (s : string) : string :=
  match s with
  | EmptyString => EmptyString
  | String c r => if p c then String c (string_filter p r) else string_filter p r
  end.

Definition format_room_code_input (value : string) : string :=
  string_filter (λ c, is_upper c || is_digit c) (toUpperCase value).

(** [s.replace(/c/g, by)] for a pattern of one literal character. *)
Fixpoint replace_all (c : ascii) (by_ : string) (s : string) : string :=
  match s with
  | EmptyString => EmptyString
  | String x r =>
      String.append (if Ascii.eqb x c then by_ else String x EmptyString)
                    (replace_all c by_ r)
  end.

(** The double quote character. *)
Definition double_quote : ascii := ascii_of_nat 34.

(** [escapeHTML(str)] on a string. *)
Definition escapeHTML (str : string) : string :=
  if String.eqb str "" then ""
  else
    replace_all "'" "&#39;"
      (replace_all double_quote "&quot;"
         (replace_all ">" "&gt;"
            (replace_all "<" "&lt;"
               (replace_all "&" "&amp;" str)))).

(** What one character becomes when it is escaped on its own. *)
Definition escape_char (c : ascii) : string :=
  if Ascii.eqb c "&" then "&amp;"
  else if Ascii.eqb c "<" then "&lt;"
  else if Ascii.eqb c ">" then "&gt;"
  else if Ascii.eqb c double_quote then "&quot;"
  else if Ascii.eqb c "'" then "&#39;"
  else String c EmptyString.

Fixpoint string_flat_map (f : ascii → string) (s : string) : string :=
  match s with
  | EmptyString => EmptyString
  | String c r => String.append (f c) (string_flat_map f r)
  end.

(** [getUserColor(username)].  [ToInt32] is what [<<] applies to its left
    operand and to its result; the subtraction and the addition around it
    are in double precision, exact as long as the values stay below 2^53. *)
Definition ToInt32 (z : Z) : Z := ((z + 2 ^ 31) mod 2 ^ 32 - 2 ^ 31)%Z.

Definition shift_left_5 (z : Z) : Z := ToInt32 (ToInt32 z * 2 ^ 5).

Definition user_colors : list string :=
  ["#FF6B6B"; "#4ECDC4"; "#45B7D1"; "#96CEB4"; "#FFEAA7";
   "#DDA0DD"; "#98D8C8"; "#F7DC6F"; "#BB8FCE"; "#85C1E9"].

Fixpoint getUserColor_hash (hash : Z) (username : string) : Z :=
  match username with
  | EmptyString => hash
  | String c r =>
      getUserColor_hash
        (Z.of_nat (nat_of_ascii c) + (shift_left_5 hash - hash))%Z r
  end.

(** [None] is [undefined], what indexing outside the array gives. *)
Definition getUserColor (username : string) : option string :=
  user_colors !! Z.to_nat (Z.abs (getUserColor_hash 0 username) mod 10)%Z.

(** The characters that are markup in HTML text and attribute values. *)
Definition is_html_special (c : ascii) : bool :=
  Ascii.eqb c "<" || Ascii.eqb c ">" || Ascii.eqb c double_quote || Ascii.eqb c "'".

(** Letters and digits, of either case. *)
Definition is_alphanumeric (c : ascii) : bool :=
  is_upper c || is_lower c || is_digit c.

(** The sharp s U+00DF, the one character below U+0100 whose upper-case
    form has two characters. *)
Definition is_sharp_s (c : ascii) : bool := (nat_of_ascii c =? 223)%nat.

(** The no-break space U+00A0. *)
Definition no_break_space : ascii := ascii_of_nat 160.

(** The characters [validateUsername] lets through. *)
Definition is_username_char (c : ascii) : bool :=
  is_lower c || is_upper c || is_digit c || is_white_space c
  || Ascii.eqb c "-" || Ascii.eqb c "_".

(** ** The browser's [StorageService]

    [localStorage] is modelled by the values under the keys the service
    uses, as [JSON.parse] gives them back; a key that is not set is [None].
    The contents are those the service itself writes.  [ok] says whether
    [localStorage.setItem] succeeds; when it throws (the quota is
    exceeded), [setItem] catches, returns [false] and nothing is stored. *)
(** How a call of the storage service completes: normally with a result,
    or by throwing a [TypeError].  The one [throw] point there is,
    [allHistory[roomCode].push] in [saveMessage] on a value that is no
    array, comes before anything is written, so a call that throws leaves
    the store as it was. *)
Inductive completion (A : Type) : Type :=
  | Normal (a : A)
  | TypeError.
Arguments Normal {A} a.
Arguments TypeError {A}.

Module StorageService.

(** An entry of the list of recent rooms; the argument of [addRecentRoom]
    ([code] is a string, as in its only call). *)
Record recent_room : Type := RecentRoom {
  code : string;
  name : jsval;
  lastJoined : Z;
  username : jsval
}.

Record room_data : Type := RoomData {
  rd_code : string;
  rd_name : jsval;
  rd_username : jsval
}.

(** A chat message, as [saveMessage] takes and stores it. *)
Record entry : Type := Entry {
  e_id : jsval;
  e_author : jsval;
  e_content : jsval;
  e_timestamp : jsval;
  e_type : jsval
}.

Record storage : Type := Storage {
  settings : option (gmap string jsval);
  recent_rooms : option (list recent_room);
  chat_history : option (gmap string (list entry))
}.

Definition empty_storage : storage :=
  {| settings := None; recent_rooms := None; chat_history := None |}.

Definition defaultSettings : gmap string jsval :=
  <["darkMode" := VBool false]>
    (<["soundNotifications" := VBool true]>
       (<["username" := VStr ""]> (<["lastRoomCode" := VStr ""]> ∅))).

(** [getSettings()]: [None] is [null]. *)
Definition getSettings (st : storage) : option (gmap string jsval) := settings st.

Definition setSettings (ok : bool) (v : gmap string jsval) (st : storage)
    : bool * storage :=
  (ok, if ok then {| settings := Some v; recent_rooms := recent_rooms st;
                     chat_history := chat_history st |}
       else st).

Definition initializeDefaults (ok : bool) (st : storage) : storage :=
  match getSettings st with
  | None => (setSettings ok defaultSettings st).2
  | Some _ => st
  end.

(** [new StorageService()] on a given [localStorage]. *)
Definition constructor (ok : bool) (st : storage) : storage :=
  initializeDefaults ok st.

Definition getRecentRooms (st : storage) : list recent_room :=
  default [] (recent_rooms st).

Definition setRecentRooms (ok : bool) (v : list recent_room) (st : storage)
    : bool * storage :=
  (ok, if ok then {| settings := settings st; recent_rooms := Some v;
                     chat_history := chat_history st |}
       else st).

(** [findIndex] followed by [splice(existingIndex, 1)]: the first entry
    that satisfies [p] is taken out. *)
Fixpoint remove_first {A} (p : A → bool) (l : list A) : list A :=
  match l with
  | [] => []
  | x :: r => if p x then r else x :: remove_first p r
  end.

Definition addRecentRoom (now : Z) (ok : bool) (roomData : room_data)
    (st : storage) : bool * storage :=
  let recentRooms := getRecentRooms st in
  let recentRooms1 :=
    remove_first (λ room, String.eqb (code room) (rd_code roomData)) recentRooms in
  let recentRooms2 :=
    {| code := rd_code roomData;
       name := js_or (rd_name roomData)
                     (VStr (String.append "Room " (rd_code roomData)));
       lastJoined := now;
       username := rd_username roomData |} :: recentRooms1 in
  let recentRooms3 :=
    if 10 <? length recentRooms2 then take 10 recentRooms2 else recentRooms2 in
  setRecentRooms ok recentRooms3 st.

Definition removeRecentRoom (ok : bool) (roomCode : string) (st : storage)
    : bool * storage :=
  let filteredRooms :=
    filter (λ room, code room ≠ roomCode) (getRecentRooms st) in
  setRecentRooms ok filteredRooms st.

(** The names every object inherits from [Object.prototype]: reading one
    of them from the parsed history object gives a function or an object,
    not a message list. *)
Definition Object_prototype_names : list string :=
  ["constructor"; "hasOwnProperty"; "isPrototypeOf"; "propertyIsEnumerable";
   "toLocaleString"; "toString"; "valueOf"; "__proto__";
   "__defineGetter__"; "__defineSetter__"; "__lookupGetter__"; "__lookupSetter__"].

Definition inherited (key : string) : bool :=
  bool_decide (key ∈ Object_prototype_names).

Definition getAllHistory (st : storage) : gmap string (list entry) :=
  default ∅ (chat_history st).

Definition setAllHistory (ok : bool) (v : gmap string (list entry)) (st : storage)
    : bool * storage :=
  (ok, if ok then {| settings := settings st; recent_rooms := recent_rooms st;
                     chat_history := Some v |}
       else st).

(** [getChatHistory(roomCode)]: [None] when [allHistory[roomCode]] is an
    inherited member, which is truthy and is returned as it is. *)
Definition getChatHistory (roomCode : string) (st : storage)
    : option (list entry) :=
  match getAllHistory st !! roomCode with
  | Some messages => Some messages
  | None => if inherited roomCode then None else Some []
  end.

(** [array.slice(-100)] *)
Definition slice_last_100 {A} (l : list A) : list A := drop (length l - 100) l.

(** [saveMessage(roomCode, message)]; on an inherited name
    [allHistory[roomCode].push] is not a function. *)
Definition saveMessage (now : Z) (generated_id : string) (ok : bool)
    (roomCode : string) (message : entry) (st : storage)
    : completion (bool * storage) :=
  let allHistory := getAllHistory st in
  let stored :=
    {| e_id := js_or (e_id message) (VStr generated_id);
       e_author := e_author message;
       e_content := e_content message;
       e_timestamp := js_or (e_timestamp message) (VNum now);
       e_type := js_or (e_type message) (VStr "user") |} in
  let push messages :=
    let messages1 := messages ++ [stored] in
    let messages2 :=
      if 100 <? length messages1 then slice_last_100 messages1 else messages1 in
    Normal (setAllHistory ok (<[roomCode := messages2]> allHistory) st) in
  match allHistory !! roomCode with
  | Some messages => push messages
  | None => if inherited roomCode then TypeError else push []
  end.

Definition clearChatHistory (ok : bool) (roomCode : string) (st : storage)
    : bool * storage :=
  setAllHistory ok (delete roomCode (getAllHistory st)) st.

(** Calls of the service, and the storage after a sequence of them, starting
    with the constructor on an empty [localStorage]. *)
Inductive call : Type :=
  | call_addRecentRoom (now : Z) (ok : bool) (roomData : room_data)
  | call_removeRecentRoom (ok : bool) (roomCode : string)
  | call_saveMessage (now : Z) (generated_id : string) (ok : bool)
      (roomCode : string) (message : entry)
  | call_clearChatHistory (ok : bool) (roomCode : string).

Definition apply (st : storage) (c : call) : storage :=
  match c with
  | call_addRecentRoom now ok roomData => (addRecentRoom now ok roomData st).2
  | call_removeRecentRoom ok roomCode => (removeRecentRoom ok roomCode st).2
  | call_saveMessage now generated_id ok roomCode message =>
      match saveMessage now generated_id ok roomCode message st with
      | Normal r => r.2
      | TypeError => st
      end
  | call_clearChatHistory ok roomCode => (clearChatHistory ok roomCode st).2
  end.

Definition run (st : storage) (calls : list call) : storage :=
  foldl apply st calls.

End StorageService.

(** ** [WebSocketService]: the socket, sending, the heartbeat, dispatch

    The rest of the class, on top of the service state above.  The socket
    object is identified by a number; [None] is [this.socket === null].
    What the service receives is what the server sends, an [outmsg], or a
    text [JSON.parse] throws on. *)
Module WebSocketTransport.

Record state : Type := State {
  service : WebSocketService.service;
  socket : option nat
}.

Inductive action : Type :=
  | service_effect (e : WebSocketService.effect)
  | console_warn (text : string)
  | console_error (text : string)
  | socket_write (sock : nat) (data : message)   (* socket.send(JSON.stringify(data)) *)
  | socket_close_normal (sock : nat)             (* socket.close(1000, 'User disconnected') *)
  | socket_close_plain (sock : nat)              (* socket.close() *)
  | removeEventListeners (sock : nat)
  | notifyMessageListeners (data : outmsg)
  | notifyUserListeners (data : outmsg)
  | notifyTypingListeners (data : outmsg)
  | showToast (text kind : string).

(** [new WebSocketService()] *)
Definition constructor : state :=
  {| service := WebSocketService.constructor; socket := None |}.

(** [this.config.heartbeatTimeout] *)
Definition config_heartbeatTimeout : Z := 5000.

Section Browser.
(** [socket.readyState] of the sockets, [Date.now()] and [generateId()]. *)
Variable readyState : nat → ready_state.
Variable now : Z.
Variable generated_id : string.

Definition socket_open (s : state) : option nat :=
  match socket s with
  | Some k => if decide (readyState k = OPEN) then Some k else None
  | None => None
  end.

Definition sendMessage (data : message) (s : state) : bool * list action :=
  match socket_open s with
  | None => (false, [console_warn "WebSocket not connected, cannot send message"])
  | Some k => (true, [socket_write k data])
  end.

Definition sendChatMessage (content roomCode username : jsval) (s : state)
    : bool * list action :=
  sendMessage {| m_type := VStr "chat_message"; m_roomCode := roomCode;
                 m_username := username; m_content := content;
                 m_id := VStr generated_id; m_isTyping := VUndefined |} s.

Definition sendTypingIndicator (isTyping roomCode username : jsval) (s : state)
    : bool * list action :=
  sendMessage {| m_type := VStr "typing"; m_roomCode := roomCode;
                 m_username := username; m_content := VUndefined;
                 m_id := VUndefined; m_isTyping := isTyping |} s.

Definition ping_message : message :=
  {| m_type := VStr "ping"; m_roomCode := VUndefined; m_username := VUndefined;
     m_content := VUndefined; m_id := VUndefined; m_isTyping := VUndefined |}.

Definition disconnect (s : state) : state * list action :=
  let r :=
    match socket s with
    | Some k =>
        let h := WebSocketService.stopHeartbeat (service s) in
        ({| service := h.1; socket := None |},
         (service_effect <$> h.2)
         ++ [removeEventListeners k]
         ++ (if decide (readyState k = OPEN) then [socket_close_normal k] else []))
    | None => (s, [])
    end in
  ({| service :=
        {| WebSocketService.isConnected := false;
           WebSocketService.reconnectAttempts := 0;
           WebSocketService.maxReconnectAttempts :=
             WebSocketService.maxReconnectAttempts (service r.1);
           WebSocketService.reconnectDelay :=
             WebSocketService.reconnectDelay (service r.1);
           WebSocketService.heartbeatInterval :=
             WebSocketService.heartbeatInterval (service r.1);
           WebSocketService.heartbeatTimeout :=
             WebSocketService.heartbeatTimeout (service r.1) |};
      socket := socket r.1 |},
   r.2 ++ [service_effect (WebSocketService.notifyConnectionListeners false)]).

(** The body of the interval of [startHeartbeat]; [handle] is what its
    [setTimeout] returns. *)
Definition heartbeat_tick (handle : nat) (s : state) : state * list action :=
  match socket_open s with
  | None => (s, [])
  | Some k =>
      ({| service :=
            {| WebSocketService.isConnected :=
                 WebSocketService.isConnected (service s);
               WebSocketService.reconnectAttempts :=
                 WebSocketService.reconnectAttempts (service s);
               WebSocketService.maxReconnectAttempts :=
                 WebSocketService.maxReconnectAttempts (service s);
               WebSocketService.reconnectDelay :=
                 WebSocketService.reconnectDelay (service s);
               WebSocketService.heartbeatInterval :=
                 WebSocketService.heartbeatInterval (service s);
               WebSocketService.heartbeatTimeout := Some handle |};
          socket := socket s |},
       (sendMessage ping_message s).2
       ++ [service_effect
             (WebSocketService.setTimeout WebSocketService.heartbeat_expired
                config_heartbeatTimeout)])
  end.

(** The body of that timeout: a warning, then [this.socket.close()], which
    throws when [this.socket] is [null].  The state is not changed; the
    result is the actions and whether the body threw. *)
Definition heartbeat_expired (s : state) : list action * bool :=
  match socket s with
  | Some k =>
      ([console_warn "Heartbeat timeout, closing connection"; socket_close_plain k],
       false)
  | None => ([console_warn "Heartbeat timeout, closing connection"], true)
  end.

Definition handlePong (s : state) : state * list action :=
  match WebSocketService.heartbeatTimeout (service s) with
  | Some h =>
      ({| service :=
            {| WebSocketService.isConnected :=
                 WebSocketService.isConnected (service s);
               WebSocketService.reconnectAttempts :=
                 WebSocketService.reconnectAttempts (service s);
               WebSocketService.maxReconnectAttempts :=
                 WebSocketService.maxReconnectAttempts (service s);
               WebSocketService.reconnectDelay :=
                 WebSocketService.reconnectDelay (service s);
               WebSocketService.heartbeatInterval :=
                 WebSocketService.heartbeatInterval (service s);
               WebSocketService.heartbeatTimeout := None |};
          socket := socket s |},
       [service_effect (WebSocketService.clearTimeout h)])
  | None => (s, [])
  end.

(** [handleMessage(event)]: [data] is what [JSON.parse(event.data)] gives,
    [None] when it throws. *)
Definition handleMessage (data : option outmsg) (s : state) : state * list action :=
  match data with
  | None => (s, [console_error "Error parsing WebSocket message:"])
  | Some d =>
      match d with
      | chat_message _ _ _ _ => (s, [notifyMessageListeners d])
      | user_joined _ _ | user_left _ _ | user_list _ => (s, [notifyUserListeners d])
      | typing _ _ _ => (s, [notifyTypingListeners d])
      | room_joined _ _ =>
          (s, [service_effect (WebSocketService.console_log "Successfully joined room:")])
      | error text _ =>
          (s, [console_error "Server error:";
               showToast (if String.eqb text "" then "Server error" else text) "error"])
      | pong _ => handlePong s
      | connected _ =>
          (s, [service_effect (WebSocketService.console_log "Unknown message type:")])
      end
  end.

Definition getConnectionStatus (s : state) : bool :=
  WebSocketService.isConnected (service s)
  && match socket_open s with Some _ => true | None => false end.

End Browser.

(** Whether an action writes to a socket or closes one. *)
Definition touches_socket (a : action) : bool :=
  match a with
  | socket_write _ _ | socket_close_normal _ | socket_close_plain _ => true
  | service_effect e => WebSocketService.uses_network e
  | _ => false
  end.

End WebSocketTransport.

(** ** [ChatService]: what the browser does with what it receives

    The three listeners [ChatService] registers with [WebSocketService],
    with [addMessage] and [addSystemMessage], on the state of the chat
    service and the store.  A call gives the new state, the new store, the
    notices to the user interface in order, and whether it threw. *)
Module ChatServiceView.

(** A message in [this.messages]. *)
Record shown : Type := Shown {
  entry : StorageService.entry;
  isOwn : bool
}.

Record chat : Type := Chat {
  currentRoom : option string;     (* null, or the room code *)
  currentUser : jsval;             (* null, or the name *)
  messages : list shown;
  onlineUsers : list jsval;        (* a Set, in insertion order *)
  typingUsers : list jsval         (* a Set, in insertion order *)
}.

Inductive notice : Type :=
  | message_listeners (m : shown)
  | user_listeners (userList : list jsval)
  | typing_listeners (typing : list jsval)
  | playNotificationSound.

Record outcome : Type := Outcome {
  view : chat;
  store : StorageService.storage;
  notices : list notice;
  threw : bool
}.

(** [Set.prototype.add], [Set.prototype.delete] on names. *)
Definition Set_add (v : jsval) (s : list jsval) : list jsval :=
  if decide (v ∈ s) then s else s ++ [v].

Definition Set_delete (v : jsval) (s : list jsval) : list jsval :=
  filter (λ x, x ≠ v) s.

(** The property name [currentRoom] is used as. *)
Definition room_key (c : chat) : string :=
  match currentRoom c with
  | Some code => code
  | None => "null"
  end.

Section Browser.
Variable now : Z.                  (* Date.now() *)
Variable generated_id : string.    (* generateId() *)
Variable ok : bool.                (* localStorage.setItem succeeds *)

Definition with_messages (c : chat) (l : list shown) : chat :=
  {| currentRoom := currentRoom c; currentUser := currentUser c;
     messages := l; onlineUsers := onlineUsers c; typingUsers := typingUsers c |}.

Definition with_onlineUsers (c : chat) (l : list jsval) : chat :=
  {| currentRoom := currentRoom c; currentUser := currentUser c;
     messages := messages c; onlineUsers := l; typingUsers := typingUsers c |}.

Definition with_typingUsers (c : chat) (l : list jsval) : chat :=
  {| currentRoom := currentRoom c; currentUser := currentUser c;
     messages := messages c; onlineUsers := onlineUsers c; typingUsers := l |}.

(** [addMessage(message)]; [storage.getSettings().soundNotifications]
    throws when there are no settings. *)
Definition addMessage (message : shown) (c : chat) (st : StorageService.storage)
    : outcome :=
  let c1 := with_messages c (messages c ++ [message]) in
  let told := [message_listeners message] in
  if isOwn message then
    {| view := c1; store := st; notices := told; threw := false |}
  else
    match StorageService.getSettings st with
    | None => {| view := c1; store := st; notices := told; threw := true |}
    | Some settings =>
        {| view := c1; store := st;
           notices :=
             told ++
             (if truthy (default VUndefined (settings !! "soundNotifications"))
              then [playNotificationSound] else []);
           threw := false |}
    end.

(** [addMessage(message)] followed by
    [storage.saveMessage(this.currentRoom, message)]. *)
Definition add_and_save (message : shown) (c : chat) (st : StorageService.storage)
    : outcome :=
  let r := addMessage message c st in
  if threw r then r
  else
    match StorageService.saveMessage now generated_id ok (room_key c)
            (entry message) (store r) with
    | Normal saved =>
        {| view := view r; store := saved.2; notices := notices r; threw := false |}
    | TypeError =>
        {| view := view r; store := store r; notices := notices r; threw := true |}
    end.

Definition addSystemMessage (content : string) (c : chat)
    (st : StorageService.storage) : outcome :=
  add_and_save
    {| entry := {| StorageService.e_id := VStr generated_id;
                   StorageService.e_author := VStr "System";
                   StorageService.e_content := VStr content;
                   StorageService.e_timestamp := VNum now;
                   StorageService.e_type := VStr "system" |};
       isOwn := false |} c st.

(** [handleWebSocketMessage(data)] for the [chat_message] it is given. *)
Definition handleWebSocketMessage (id username : jsval) (content : string)
    (timestamp : Z) (c : chat) (st : StorageService.storage) : outcome :=
  if decide (username = currentUser c) then
    {| view := c; store := st; notices := []; threw := false |}
  else
    add_and_save
      {| entry := {| StorageService.e_id := js_or id (VStr generated_id);
                     StorageService.e_author := username;
                     StorageService.e_content := VStr content;
                     StorageService.e_timestamp := VNum timestamp;
                     StorageService.e_type := VStr "user" |};
         isOwn := false |} c st.

(** [handleWebSocketUserChange(data)].  The text of the system message is
    a template literal with the name, evaluated after the name has been
    added to or taken out of the online users; the user listeners are told
    the list at the end unless something threw on the way. *)
Definition handleWebSocketUserChange (data : outmsg) (c : chat)
    (st : StorageService.storage) : outcome :=
  let r :=
    match data with
    | user_joined username _ =>
        if decide (username ≠ currentUser c) then
          let c1 := with_onlineUsers c (Set_add username (onlineUsers c)) in
          match ToString username with
          | Some name => addSystemMessage (String.append name " joined the room") c1 st
          | None => {| view := c1; store := st; notices := []; threw := true |}
          end
        else {| view := c; store := st; notices := []; threw := false |}
    | user_left username _ =>
        if decide (username ≠ currentUser c) then
          let c1 := with_onlineUsers c (Set_delete username (onlineUsers c)) in
          match ToString username with
          | Some name => addSystemMessage (String.append name " left the room") c1 st
          | None => {| view := c1; store := st; notices := []; threw := true |}
          end
        else {| view := c; store := st; notices := []; threw := false |}
    | user_list users =>
        {| view := with_onlineUsers c (foldl (λ s u, Set_add u s) [] users);
           store := st; notices := []; threw := false |}
    | _ => {| view := c; store := st; notices := []; threw := false |}
    end in
  if threw r then r
  else {| view := view r; store := store r;
          notices := notices r ++ [user_listeners (onlineUsers (view r))];
          threw := false |}.

(** [handleWebSocketTyping(data)] for the [typing] event it is given. *)
Definition handleWebSocketTyping (username isTyping : jsval) (c : chat)
    : chat * list notice :=
  if decide (username = currentUser c) then (c, [])
  else
    let c1 :=
      with_typingUsers c
        (if truthy isTyping then Set_add username (typingUsers c)
         else Set_delete username (typingUsers c)) in
    (c1, [typing_listeners (typingUsers c1)]).

End Browser.

End ChatServiceView.

(** * Properties of the server *)

Lemma set_delete_elem (ws w : conn) (room : list conn) :
  w ∈ set_delete ws room ↔ w ∈ room ∧ w ≠ ws.
Proof. unfold set_delete. rewrite list_elem_of_filter. tauto. Qed.

Lemma set_delete_NoDup (ws : conn) (room : list conn) :
  NoDup room → NoDup (set_delete ws room).
Proof. apply NoDup_filter. Qed.

Lemma set_delete_notin (ws : conn) (room : list conn) :
  ws ∉ room → set_delete ws room = room.
Proof.
  intros Hn. unfold set_delete. induction room as [|c room IH]; [done|].
  rewrite filter_cons. apply not_elem_of_cons in Hn as [Hne Hn].
  rewrite decide_True by done. by rewrite IH.
Qed.

Lemma set_add_elem (ws w : conn) (room : list conn) :
  w ∈ set_add ws room ↔ w ∈ room ∨ w = ws.
Proof.
  unfold set_add. case_decide as Hin.
  - split; [by left | intros [?| ->]; done].
  - rewrite elem_of_app, list_elem_of_singleton. tauto.
Qed.

Lemma set_add_NoDup (ws : conn) (room : list conn) :
  NoDup room → NoDup (set_add ws room).
Proof.
  intros Hnd. unfold set_add. case_decide as Hin; [done|].
  apply NoDup_app. split_and!; [done| |apply NoDup_singleton].
  intros x Hx Hx'. apply list_elem_of_singleton in Hx' as ->. done.
Qed.

Lemma set_add_nonempty (ws : conn) (room : list conn) : set_add ws room ≠ [].
Proof.
  unfold set_add. case_decide as Hin.
  - intros ->. by apply elem_of_nil in Hin.
  - by destruct room.
Qed.

Lemma length_zero_nil {A} (l : list A) : (length l =? 0)%nat = true ↔ l = [].
Proof. destruct l; simpl; split; try done. Qed.

Lemma logs_1 (v : jsval) : logs [v] = converts v.
Proof. unfold logs. simpl. apply andb_true_r. Qed.

Lemma logs_2 (v w : jsval) : logs [v; w] = converts v && converts w.
Proof. unfold logs. simpl. by rewrite andb_true_r. Qed.

Lemma converts_false (v : jsval) :
  converts v = false → ∃ i, v = VObj i None.
Proof.
  destruct v as [| |[]| | |i [t|]]; try done. intros _. by exists i.
Qed.

(** The code a join files the session under is a primitive value or a new
    object. *)
Lemma own_fresh (σ : server) (v : jsval) (i : nat) (text : option string) :
  own σ v = VObj i text → i = objects σ.
Proof. destruct v; simpl; try done. by intros [= <- _]. Qed.

Lemma count_object_own (σ : server) (v : jsval) (i : nat) (text : option string) :
  own σ v = VObj i text → (i < count_object v (objects σ))%nat.
Proof. destruct v; simpl; try done. intros [= <- _]. lia. Qed.

Lemma count_object_le (v : jsval) (n : nat) : (n ≤ count_object v n)%nat.
Proof. destruct v; simpl; lia. Qed.

Lemma truthy_own (σ : server) (v : jsval) : truthy (own σ v) = truthy v.
Proof. by destruct v. Qed.

Lemma converts_own (σ : server) (v : jsval) : converts (own σ v) = converts v.
Proof. by destruct v. Qed.

Section Invariant.
Variable E : env.

Lemma leaveCurrentRoom_unjoined σ ws :
  clients σ !! ws = None → leaveCurrentRoom E σ ws = returns σ [].
Proof. intros Hws. unfold leaveCurrentRoom. by rewrite Hws. Qed.

Lemma leaveCurrentRoom_stale σ ws cl :
  clients σ !! ws = Some cl → rooms σ !! roomCode cl = None →
  leaveCurrentRoom E σ ws = returns σ [].
Proof. intros Hws Hroom. unfold leaveCurrentRoom. by rewrite Hws, Hroom. Qed.

(** A leave changes nothing but [rooms]. *)
Lemma leaveCurrentRoom_clients σ ws :
  clients (state (leaveCurrentRoom E σ ws)) = clients σ ∧
  clients_keys (state (leaveCurrentRoom E σ ws)) = clients_keys σ ∧
  objects (state (leaveCurrentRoom E σ ws)) = objects σ.
Proof.
  unfold leaveCurrentRoom.
  destruct (clients σ !! ws) as [cl|]; [|done].
  destruct (rooms σ !! roomCode cl) as [room|]; [|done].
  destruct (length (set_delete ws room) =? 0)%nat; [|done].
  by destruct (logs [roomCode cl]).
Qed.

(** The rooms after [leaveCurrentRoom], for a connection that is in the
    room on its record. *)
Lemma leaveCurrentRoom_rooms σ ws cl room :
  clients σ !! ws = Some cl →
  rooms σ !! roomCode cl = Some room →
  rooms (state (leaveCurrentRoom E σ ws)) =
    if decide (set_delete ws room = [])
    then delete (roomCode cl) (rooms σ)
    else <[roomCode cl := set_delete ws room]> (rooms σ).
Proof.
  intros Hc Hr. unfold leaveCurrentRoom. rewrite Hc, Hr.
  destruct (length (set_delete ws room) =? 0)%nat eqn:Hlen.
  - apply length_zero_nil in Hlen. rewrite decide_True by done.
    destruct (logs [roomCode cl]); simpl; by rewrite delete_insert_eq.
  - rewrite decide_False; [done|].
    intros Hnil. apply length_zero_nil in Hnil. congruence.
Qed.

(** A leave throws exactly when it empties a room whose code has no
    text. *)
Lemma leaveCurrentRoom_thrown σ ws :
  thrown (leaveCurrentRoom E σ ws) = true ↔
  ∃ cl room, clients σ !! ws = Some cl ∧ rooms σ !! roomCode cl = Some room
             ∧ set_delete ws room = [] ∧ converts (roomCode cl) = false.
Proof.
  unfold leaveCurrentRoom.
  destruct (clients σ !! ws) as [cl|] eqn:Hws.
  2: { split; [done|]. by intros (? & ? & ? & _). }
  destruct (rooms σ !! roomCode cl) as [room|] eqn:Hroom.
  2: { split; [done|]. intros (cl' & ? & Hcl' & Hroom' & _). by simplify_eq. }
  destruct (length (set_delete ws room) =? 0)%nat eqn:Hlen.
  - apply length_zero_nil in Hlen. rewrite logs_1.
    destruct (converts (roomCode cl)) eqn:Hconv; simpl.
    + split; [done|]. intros (cl' & ? & Hcl' & _ & _ & Hconv').
      simplify_eq; congruence.
    + split; [|done]. intros _. by exists cl, room.
  - simpl. split; [done|]. intros (cl' & room' & Hcl' & Hroom' & Hnil & _).
    simplify_eq. by rewrite Hnil in Hlen.
Qed.

Lemma leaveCurrentRoom_detached σ ws :
  registry_inv σ → detached ws (state (leaveCurrentRoom E σ ws)).
Proof.
  intros [Hrooms Hmem Hcl Hkeys Hobj].
  assert (∀ code r, rooms σ !! code = Some r → ws ∈ r →
                    ∃ cl, clients σ !! ws = Some cl ∧ code = roomCode cl) as Hmine.
  { intros code r Hlk Hin. destruct (Hmem _ _ _ Hlk Hin) as (cl & ? & ?). eauto. }
  destruct (clients σ !! ws) as [cl|] eqn:Hws;
    [destruct (rooms σ !! roomCode cl) as [room|] eqn:Hroom|].
  - destruct (leaveCurrentRoom_clients σ ws) as (Hc & Hk & Ho).
    split; rewrite ?Hc, ?Hk, ?Ho; try done;
      rewrite (leaveCurrentRoom_rooms _ _ _ _ Hws Hroom).
    + intros code r Hlk. case_decide as Hnil.
      * apply lookup_delete_Some in Hlk as [_ Hlk]. eauto.
      * apply lookup_insert_Some in Hlk as [[_ <-]|[_ Hlk]]; [|eauto].
        split; [done|]. apply set_delete_NoDup. by apply (Hrooms _ _ Hroom).
    + intros code r w Hlk Hw.
      assert (rooms σ !! code = Some r ∧ code ≠ roomCode cl
              ∨ code = roomCode cl ∧ r = set_delete ws room) as Hcase.
      { case_decide.
        - apply lookup_delete_Some in Hlk as [? ?]. left. done.
        - apply lookup_insert_Some in Hlk as [[<- <-]|[? ?]]; [by right|by left]. }
      destruct Hcase as [[Hlk' Hne]|[-> ->]].
      * split; [|eauto]. intros ->.
        destruct (Hmine _ _ Hlk' Hw) as (cl' & Hcl' & Hcode). congruence.
      * apply set_delete_elem in Hw as [Hw Hne]. split; [done|]. eauto.
    + intros w clw Hne Hw.
      destruct (Hcl _ _ Hw) as [(r & Hr & Hwr)|[Hnone Hconv]].
      * left. destruct (decide (roomCode clw = roomCode cl)) as [Heq|Hneq].
        -- rewrite Heq in Hr. assert (r = room) as -> by congruence.
           assert (w ∈ set_delete ws room) as Hw' by by apply set_delete_elem.
           rewrite decide_False;
             [|by intros Hnil; rewrite Hnil in Hw'; apply elem_of_nil in Hw'].
           exists (set_delete ws room). rewrite Heq, lookup_insert_eq. done.
        -- exists r. split; [|done]. case_decide.
           ++ by rewrite lookup_delete_ne.
           ++ by rewrite lookup_insert_ne.
      * right. split; [|done].
        assert (roomCode clw ≠ roomCode cl) as Hneq by congruence.
        case_decide; [by rewrite lookup_delete_ne|by rewrite lookup_insert_ne].
  - rewrite (leaveCurrentRoom_stale _ _ _ Hws Hroom). simpl.
    split; [done| |by eauto|done|by eauto].
    intros code r w Hlk Hw. split; [|eauto].
    intros ->. destruct (Hmine _ _ Hlk Hw) as (cl' & Hcl' & ->).
    simplify_eq; congruence.
  - rewrite leaveCurrentRoom_unjoined by done. simpl.
    split; [done| |by eauto|done|by eauto].
    intros code r w Hlk Hw. split; [|eauto].
    intros ->. by destruct (Hmine _ _ Hlk Hw) as (cl' & Hcl' & _).
Qed.

(** After a leave that threw the registry is as the invariant says: the
    record of [ws] names a room that is gone. *)
Lemma leaveCurrentRoom_thrown_state σ ws :
  thrown (leaveCurrentRoom E σ ws) = true →
  ∃ cl, clients (state (leaveCurrentRoom E σ ws)) !! ws = Some cl
        ∧ rooms (state (leaveCurrentRoom E σ ws)) !! roomCode cl = None
        ∧ converts (roomCode cl) = false.
Proof.
  intros (cl & room & Hws & Hroom & Hnil & Hconv)%leaveCurrentRoom_thrown.
  exists cl. destruct (leaveCurrentRoom_clients σ ws) as (-> & _ & _).
  rewrite (leaveCurrentRoom_rooms _ _ _ _ Hws Hroom), decide_True by done.
  by rewrite lookup_delete_eq.
Qed.

Lemma detached_stale_inv σ1 ws :
  detached ws σ1 →
  (∀ cl, clients σ1 !! ws = Some cl →
         rooms σ1 !! roomCode cl = None ∧ converts (roomCode cl) = false) →
  registry_inv σ1.
Proof.
  intros [Hrooms Hmem Hcl Hkeys Hobj] Hstale. split; try done.
  - intros code r w Hlk Hw. by destruct (Hmem _ _ _ Hlk Hw) as [_ ?].
  - intros w clw Hw. destruct (decide (w = ws)) as [->|Hne]; [|by apply Hcl].
    right. by apply Hstale.
Qed.

Lemma leaveCurrentRoom_thrown_inv σ ws :
  registry_inv σ → thrown (leaveCurrentRoom E σ ws) = true →
  registry_inv (state (leaveCurrentRoom E σ ws)).
Proof.
  intros Hinv Hthrown.
  apply (detached_stale_inv _ ws); [by apply leaveCurrentRoom_detached|].
  destruct (leaveCurrentRoom_thrown_state _ _ Hthrown) as (cl & Hcl & ? & ?).
  intros cl' Hcl'. by simplify_eq.
Qed.

Lemma handleJoinRoom_rejected σ ws m :
  accepted m = false →
  handleJoinRoom E σ ws m =
    returns σ (sendError E ws "Room code and username are required").
Proof.
  unfold accepted, handleJoinRoom. intros Hacc.
  destruct (truthy (m_roomCode m)), (truthy (m_username m)); done.
Qed.

(** A join whose leave throws is that leave. *)
Lemma handleJoinRoom_aborted σ ws m :
  accepted m = true → thrown (leaveCurrentRoom E σ ws) = true →
  handleJoinRoom E σ ws m = leaveCurrentRoom E σ ws.
Proof.
  unfold accepted, handleJoinRoom. intros [-> ->]%andb_true_iff Hthrown.
  simpl. by rewrite Hthrown.
Qed.

(** The state a join leaves when its leave returns, whether or not the log
    throws after. *)
Lemma handleJoinRoom_state σ ws m :
  accepted m = true → thrown (leaveCurrentRoom E σ ws) = false →
  let σ1 := state (leaveCurrentRoom E σ ws) in
  let code := own σ (m_roomCode m) in
  state (handleJoinRoom E σ ws m) =
    {| rooms := <[code := set_add ws (default [] (rooms σ1 !! code))]> (rooms σ1);
       clients := <[ws := {| username := m_username m; roomCode := code;
                             lastSeen := Date_now E |}]> (clients σ);
       clients_keys := set_add ws (clients_keys σ);
       objects := count_object (m_roomCode m) (objects σ) |}.
Proof.
  unfold accepted, handleJoinRoom. intros [-> ->]%andb_true_iff Hthrown.
  simpl. rewrite Hthrown.
  destruct (leaveCurrentRoom_clients σ ws) as (Hc & Hk & Ho).
  assert (∀ (b : bool) (x y : result), state x = state y → state (if b then x else y) = state x)
    as Hif by (by intros [] ? ? ?).
  rewrite Hif by done. simpl.
  destruct (rooms (state (leaveCurrentRoom E σ ws)) !! own σ (m_roomCode m))
    as [room|] eqn:Hlk; simpl; rewrite ?Hlk, ?Hc, ?Hk, ?Ho; simpl.
  - done.
  - by rewrite lookup_insert_eq, insert_insert_eq.
Qed.

Lemma handleJoinRoom_thrown σ ws m :
  accepted m = true →
  thrown (handleJoinRoom E σ ws m) =
    thrown (leaveCurrentRoom E σ ws)
    || negb (converts (m_username m) && converts (m_roomCode m)).
Proof.
  unfold accepted, handleJoinRoom. intros [-> ->]%andb_true_iff.
  cbn [negb orb].
  destruct (thrown (leaveCurrentRoom E σ ws)) eqn:Hthrown; [done|].
  rewrite logs_2, converts_own.
  by destruct (converts (m_username m) && converts (m_roomCode m)).
Qed.

Lemma handleJoinRoom_rooms σ ws m :
  accepted m = true → thrown (leaveCurrentRoom E σ ws) = false →
  rooms (state (handleJoinRoom E σ ws m)) =
    <[own σ (m_roomCode m) :=
        set_add ws (default [] (rooms (state (leaveCurrentRoom E σ ws))
                                  !! own σ (m_roomCode m)))]>
      (rooms (state (leaveCurrentRoom E σ ws))).
Proof. intros Hacc Hleft. by rewrite handleJoinRoom_state. Qed.

Lemma handleJoinRoom_clients σ ws m :
  accepted m = true → thrown (leaveCurrentRoom E σ ws) = false →
  clients (state (handleJoinRoom E σ ws m)) =
    <[ws := {| username := m_username m; roomCode := own σ (m_roomCode m);
               lastSeen := Date_now E |}]> (clients σ).
Proof. intros Hacc Hleft. by rewrite handleJoinRoom_state. Qed.

(** Inserting a detached connection into a room restores the invariant. *)
Lemma insert_restores σ1 ws code cl n :
  detached ws σ1 → roomCode cl = code →
  (∀ i text, code = VObj i text → (objects σ1 ≤ i < n)%nat) →
  (objects σ1 ≤ n)%nat →
  registry_inv
    {| rooms := <[code := set_add ws (default [] (rooms σ1 !! code))]> (rooms σ1);
       clients := <[ws := cl]> (clients σ1);
       clients_keys := set_add ws (clients_keys σ1);
       objects := n |}.
Proof.
  intros [Hrooms Hmem Hcl [Hnd Hdom] Hobj] Hcode Hnew Hle. split; simpl.
  - intros c r Hlk.
    apply lookup_insert_Some in Hlk as [[_ <-]|[_ Hlk]]; [|eauto].
    split; [apply set_add_nonempty|]. apply set_add_NoDup.
    destruct (rooms σ1 !! code) as [r|] eqn:Hr; simpl; [|apply NoDup_nil_2].
    by apply (Hrooms _ _ Hr).
  - intros c r w Hlk Hw.
    apply lookup_insert_Some in Hlk as [[<- <-]|[Hne Hlk]].
    + apply set_add_elem in Hw as [Hw| ->].
      * destruct (rooms σ1 !! code) as [r|] eqn:Hr; simpl in Hw;
          [|by apply elem_of_nil in Hw].
        destruct (Hmem _ _ _ Hr Hw) as (Hne & clw & Hclw & Hcw).
        exists clw. by rewrite lookup_insert_ne.
      * exists cl. by rewrite lookup_insert_eq.
    + destruct (Hmem _ _ _ Hlk Hw) as (Hnew' & clw & Hclw & Hcw).
      exists clw. by rewrite lookup_insert_ne.
  - intros w clw Hw.
    apply lookup_insert_Some in Hw as [[<- <-]|[Hne Hw]].
    + left. rewrite Hcode, lookup_insert_eq. eexists; split; [done|].
      apply set_add_elem. by right.
    + destruct (Hcl _ _ (not_eq_sym Hne) Hw) as [(r & Hr & Hwr)|[Hnone Hconv]].
      * left. destruct (decide (roomCode clw = code)) as [Heq|Hneq].
        -- rewrite Heq, lookup_insert_eq. eexists; split; [done|].
           apply set_add_elem. left. rewrite <- Heq, Hr. done.
        -- exists r. by rewrite lookup_insert_ne.
      * right. split; [|done]. rewrite lookup_insert_ne; [done|].
        intros Heq. destruct (converts_false _ Hconv) as [i Hi].
        pose proof (Hobj _ _ _ _ Hw Hi) as Hold.
        rewrite <- Heq in Hi. destruct (Hnew _ _ Hi) as [Hlo _]. lia.
  - split; [by apply set_add_NoDup|].
    intros w. rewrite set_add_elem, Hdom.
    destruct (decide (w = ws)) as [->|Hne].
    + rewrite lookup_insert_eq. split; [by eauto|by right].
    + rewrite lookup_insert_ne by done. split; [by intros [?|?]|by left].
  - intros w clw i text Hw Hi.
    apply lookup_insert_Some in Hw as [[<- <-]|[Hne Hw]].
    + rewrite Hcode in Hi. destruct (Hnew _ _ Hi). lia.
    + pose proof (Hobj _ _ _ _ Hw Hi). lia.
Qed.

(** Dropping the record of a detached connection restores it as well. *)
Lemma delete_restores σ1 ws :
  detached ws σ1 → registry_inv (clients_delete σ1 ws).
Proof.
  intros [Hrooms Hmem Hcl [Hnd Hdom] Hobj]. split; simpl; [done| | | |].
  - intros c r w Hlk Hw. destruct (Hmem _ _ _ Hlk Hw) as (Hne & clw & Hclw & Hcw).
    exists clw. by rewrite lookup_delete_ne.
  - intros w clw Hw. apply lookup_delete_Some in Hw as [Hne Hw].
    by apply Hcl.
  - split; [by apply set_delete_NoDup|].
    intros w. rewrite set_delete_elem, Hdom.
    destruct (decide (w = ws)) as [->|Hne].
    + rewrite lookup_delete_eq. split; [by intros [_ ?]|by intros [? ?]].
    + rewrite lookup_delete_ne by done. split; [by intros [? _]|done].
  - intros w clw i text Hw Hi. apply lookup_delete_Some in Hw as [Hne Hw].
    by apply (Hobj _ _ _ _ Hw Hi).
Qed.

Lemma handleJoinRoom_inv σ ws m :
  registry_inv σ → registry_inv (state (handleJoinRoom E σ ws m)).
Proof.
  intros Hinv. destruct (accepted m) eqn:Hacc;
    [|by rewrite handleJoinRoom_rejected].
  destruct (thrown (leaveCurrentRoom E σ ws)) eqn:Hthrown.
  - rewrite handleJoinRoom_aborted by done.
    by apply leaveCurrentRoom_thrown_inv.
  - rewrite handleJoinRoom_state by done.
    pose proof (leaveCurrentRoom_detached σ ws Hinv) as Hdet.
    destruct (leaveCurrentRoom_clients σ ws) as (Hc & Hk & Ho).
    rewrite <- Hc, <- Hk.
    apply insert_restores; [done|done| |].
    + intros i text Hi. rewrite Ho.
      pose proof (own_fresh _ _ _ _ Hi). pose proof (count_object_own _ _ _ _ Hi).
      lia.
    + rewrite Ho. apply count_object_le.
Qed.

Lemma handleDisconnection_inv σ ws :
  registry_inv σ → registry_inv (state (handleDisconnection E σ ws)).
Proof.
  intros Hinv. unfold handleDisconnection.
  pose proof (leaveCurrentRoom_detached σ ws Hinv) as Hdet.
  destruct (clients σ !! ws) as [cl|] eqn:Hws.
  - destruct (logs [username cl; roomCode cl]); [|done].
    destruct (thrown (leaveCurrentRoom E σ ws)) eqn:Hthrown.
    + by apply leaveCurrentRoom_thrown_inv.
    + by apply delete_restores.
  - rewrite leaveCurrentRoom_unjoined in Hdet by done.
    by apply delete_restores.
Qed.

Lemma handlePing_inv σ ws m :
  registry_inv σ → registry_inv (state (handlePing E σ ws m)).
Proof.
  intros [Hrooms Hmem Hcl [Hnd Hdom] Hobj]. unfold handlePing.
  destruct (clients σ !! ws) as [cl|] eqn:Hws; [|done].
  split; simpl; [done| | | |].
  - intros c r w Hlk Hw. destruct (Hmem _ _ _ Hlk Hw) as (clw & Hclw & Hcw).
    destruct (decide (w = ws)) as [->|Hne].
    + rewrite lookup_insert_eq. eexists; split; [done|]. simpl. congruence.
    + exists clw. by rewrite lookup_insert_ne.
  - intros w clw Hw.
    apply lookup_insert_Some in Hw as [[<- <-]|[Hne Hw]]; simpl; eauto.
  - split; [done|]. intros w. rewrite Hdom.
    destruct (decide (w = ws)) as [->|Hne].
    + rewrite lookup_insert_eq, Hws. split; eauto.
    + by rewrite lookup_insert_ne.
  - intros w clw i text Hw Hi.
    apply lookup_insert_Some in Hw as [[<- <-]|[Hne Hw]]; simpl in *; eauto.
Qed.

Lemma handleChatMessage_state σ ws m : state (handleChatMessage E σ ws m) = σ.
Proof. unfold handleChatMessage. by repeat case_match. Qed.

Lemma handleTyping_state σ ws m : state (handleTyping E σ ws m) = σ.
Proof. unfold handleTyping. by destruct (clients σ !! ws). Qed.

Lemma handleMessage_inv σ ws msg :
  registry_inv σ → registry_inv (state (handleMessage E σ ws msg)).
Proof.
  intros Hinv. destruct msg as [|m]; [done|]. unfold handleMessage.
  repeat case_decide.
  - by apply handleJoinRoom_inv.
  - by rewrite handleChatMessage_state.
  - by rewrite handleTyping_state.
  - by apply handlePing_inv.
  - done.
Qed.

(** The state after a message is the state its handler leaves, caught or
    not. *)
Lemma on_message_state σ ws msg :
  (on_message E σ ws (Some msg)).1 = state (handleMessage E σ ws msg).
Proof. unfold on_message. by destruct (thrown _). Qed.

Lemma on_message_inv σ ws data :
  registry_inv σ → registry_inv (on_message E σ ws data).1.
Proof.
  intros Hinv. destruct data as [msg|]; [|done].
  rewrite on_message_state. by apply handleMessage_inv.
Qed.

Lemma step_inv σ ev :
  registry_inv σ → registry_inv (step E σ ev).1.
Proof.
  intros Hinv. destruct ev; simpl; try done.
  - by apply on_message_inv.
  - by apply handleDisconnection_inv.
Qed.

End Invariant.

Lemma new_server_inv : registry_inv new_server.
Proof.
  split; simpl; try (intros *; by rewrite lookup_empty).
  split; [constructor|]. intros ws. rewrite lookup_empty.
  split; [by intros ?%elem_of_nil|by intros [? ?]].
Qed.

Lemma run_inv (tr : list (env * event)) (σ : server) :
  registry_inv σ → registry_inv (run σ tr).
Proof.
  revert σ. induction tr as [|[E ev] tr IH]; intros σ Hinv; simpl; [done|].
  apply IH. by apply step_inv.
Qed.

Lemma reachable_inv (σ : server) : reachable σ → registry_inv σ.
Proof. intros [tr ->]. apply run_inv, new_server_inv. Qed.

(** ** What a broadcast delivers *)

Section Broadcast.
Variable E : env.

Lemma send_open ws msg : is_open E ws → send E ws msg = [(ws, msg)].
Proof. intros Hopen. unfold send. by rewrite decide_True. Qed.

Lemma send_target ws msg p : p ∈ send E ws msg → p = (ws, msg) ∧ is_open E ws.
Proof.
  unfold send. case_decide; [|by intros ?%elem_of_nil].
  by intros ->%list_elem_of_singleton.
Qed.

(** Every member that is not excluded and whose transport is open gets the
    message once, in the order of the room. *)
Lemma broadcastToRoom_room σ code room msg excludeClient :
  rooms σ !! code = Some room →
  broadcastToRoom E σ code msg excludeClient =
    (λ c, (c, msg)) <$> filter (λ c, Some c ≠ excludeClient ∧ is_open E c) room.
Proof.
  intros Hroom. unfold broadcastToRoom. rewrite Hroom. clear Hroom.
  induction room as [|c room IH]; [done|].
  simpl. rewrite filter_cons, IH.
  destruct (decide (Some c ≠ excludeClient ∧ readyState E c = OPEN)) as [Hc|Hc].
  - rewrite decide_True by done. destruct Hc as [_ Hopen]. by rewrite send_open.
  - by rewrite decide_False.
Qed.

Lemma broadcastToRoom_all σ code room msg :
  rooms σ !! code = Some room →
  broadcastToRoom E σ code msg None = (λ c, (c, msg)) <$> filter (is_open E) room.
Proof.
  intros Hroom. rewrite (broadcastToRoom_room _ _ _ _ _ Hroom).
  f_equal. apply list_filter_iff. intros c. split; [by intros [_ ?]|done].
Qed.

Lemma broadcastToRoom_others σ code room msg ws :
  rooms σ !! code = Some room →
  broadcastToRoom E σ code msg (Some ws) =
    (λ c, (c, msg)) <$> filter (λ c, c ≠ ws ∧ is_open E c) room.
Proof.
  intros Hroom. rewrite (broadcastToRoom_room _ _ _ _ _ Hroom).
  f_equal. apply list_filter_iff. intros c.
  split; intros [Hne ?]; (split; [|done]); congruence.
Qed.

End Broadcast.

Lemma run_app (σ : server) (tr1 tr2 : list (env * event)) :
  run σ (tr1 ++ tr2) = run (run σ tr1) tr2.
Proof.
  revert σ. induction tr1 as [|[E ev] tr1 IH]; intros σ; simpl; [done|].
  apply IH.
Qed.

Lemma trim_nonempty_truthy (content : string) :
  trim content ≠ EmptyString → truthy (VStr content) = true.
Proof. intros Hne. destruct content; [by destruct Hne|done]. Qed.

Lemma String_eqb_false (s t : string) : s ≠ t → String.eqb s t = false.
Proof. intros Hne. by apply String.eqb_neq. Qed.

(** ** What a message event does *)

Section Messages.
Variable E : env.

(** The packets of a message event are those of its handler, followed by
    the error notice when the handler threw. *)
Lemma on_message_handled σ ws msg :
  on_message E σ ws (Some msg) =
    (state (handleMessage E σ ws msg),
     sent (handleMessage E σ ws msg)
     ++ (if thrown (handleMessage E σ ws msg)
         then sendError E ws "Invalid message format" else [])).
Proof.
  unfold on_message. destruct (thrown _); [done|]. by rewrite app_nil_r.
Qed.

Lemma handleMessage_join σ ws m :
  m_type m = VStr "join_room" →
  handleMessage E σ ws (Json m) = handleJoinRoom E σ ws m.
Proof. intros Htype. unfold handleMessage. by rewrite Htype. Qed.

Lemma handleMessage_chat σ ws m :
  m_type m = VStr "chat_message" →
  handleMessage E σ ws (Json m) = handleChatMessage E σ ws m.
Proof. intros Htype. unfold handleMessage. by rewrite Htype. Qed.

Lemma handleMessage_typing σ ws m :
  m_type m = VStr "typing" →
  handleMessage E σ ws (Json m) = handleTyping E σ ws m.
Proof. intros Htype. unfold handleMessage. by rewrite Htype. Qed.

Lemma handleMessage_ping σ ws m :
  m_type m = VStr "ping" →
  handleMessage E σ ws (Json m) = handlePing E σ ws m.
Proof. intros Htype. unfold handleMessage. by rewrite Htype. Qed.

Lemma step_join_room σ ws m :
  m_type m = VStr "join_room" →
  step E σ (MessageEvent ws (Some (Json m))) =
    (state (handleJoinRoom E σ ws m),
     sent (handleJoinRoom E σ ws m)
     ++ (if thrown (handleJoinRoom E σ ws m)
         then sendError E ws "Invalid message format" else [])).
Proof.
  intros Htype. unfold step. by rewrite on_message_handled, handleMessage_join.
Qed.

(** A chat message of a session whose name and room code have a text. *)
Lemma step_chat_message_room σ ws cl m content :
  clients σ !! ws = Some cl →
  m_type m = VStr "chat_message" → m_content m = VStr content →
  trim content ≠ EmptyString →
  converts (username cl) = true → converts (roomCode cl) = true →
  step E σ (MessageEvent ws (Some (Json m))) =
    (σ, broadcastToRoom E σ (roomCode cl)
          (chat_message (js_or (m_id m) (VStr (generateId E)))
             (username cl) (trim content) (Date_now E)) None).
Proof.
  intros Hcl Htype Hcontent Htrim Hname Hcode.
  unfold step. rewrite on_message_handled, handleMessage_chat by done.
  unfold handleChatMessage. rewrite Hcl, Hcontent.
  rewrite (trim_nonempty_truthy _ Htrim). cbn [negb].
  rewrite (String_eqb_false _ _ Htrim).
  unfold logs. cbn [forallb]. rewrite Hname, Hcode.
  change (converts (VStr content)) with true. cbn [andb returns state sent thrown].
  by rewrite app_nil_r.
Qed.

(** A chat message of a session whose name or room code has none. *)
Lemma step_chat_message_thrown σ ws cl m content :
  clients σ !! ws = Some cl →
  m_type m = VStr "chat_message" → m_content m = VStr content →
  trim content ≠ EmptyString →
  converts (username cl) = false ∨ converts (roomCode cl) = false →
  step E σ (MessageEvent ws (Some (Json m))) =
    (σ, sendError E ws "Invalid message format").
Proof.
  intros Hcl Htype Hcontent Htrim Hno.
  unfold step. rewrite on_message_handled, handleMessage_chat by done.
  unfold handleChatMessage. rewrite Hcl, Hcontent.
  rewrite (trim_nonempty_truthy _ Htrim). cbn [negb].
  rewrite (String_eqb_false _ _ Htrim).
  assert (logs [roomCode cl; username cl; VStr content] = false) as ->.
  { unfold logs. cbn [forallb]. destruct Hno as [-> | ->]; [|done].
    apply andb_false_r. }
  done.
Qed.

Lemma step_typing_room σ ws cl m :
  clients σ !! ws = Some cl →
  m_type m = VStr "typing" →
  step E σ (MessageEvent ws (Some (Json m))) =
    (σ, broadcastToRoom E σ (roomCode cl)
          (typing (username cl) (m_isTyping m) (Date_now E)) (Some ws)).
Proof.
  intros Hcl Htype.
  unfold step. rewrite on_message_handled, handleMessage_typing by done.
  unfold handleTyping. rewrite Hcl. cbn [returns state sent thrown].
  by rewrite app_nil_r.
Qed.

End Messages.

(** A record whose room code has a text names a room its session is in. *)
Lemma registered_room (σ : server) (ws : conn) (cl : client) :
  registry_inv σ → clients σ !! ws = Some cl → converts (roomCode cl) = true →
  ∃ room, rooms σ !! roomCode cl = Some room ∧ ws ∈ room ∧ NoDup room.
Proof.
  intros Hinv Hcl Hconv.
  destruct (inv_client _ Hinv _ _ Hcl) as [(room & Hroom & Hin)|[_ Hno]];
    [|congruence].
  exists room. split_and!; [done|done|]. by apply (inv_rooms _ Hinv _ _ Hroom).
Qed.

(** ** Chat messages *)

(** C1, as stated, fails twice.  A session that joined under a name whose
    conversion to a string throws (the join is answered with "Invalid
    message format", but the session has been inserted and registered by
    then) is a member of its room, and its chat message reaches nobody: the
    log line with the name throws before the broadcast.  And an id that is
    there but falsy, such as the empty string, is replaced by the
    server's. *)
Lemma chat_message_not_broadcast_for_object_name :
  let anonymous := VObj 0 None in
  let tr := [(sample_env,
              MessageEvent 1 (Some (Json (join_room (VStr "AB12CD") anonymous))));
             (sample_env,
              MessageEvent 2 (Some (Json (join_room (VStr "AB12CD") (VStr "Bob")))))] in
  let σ := run new_server tr in
  let m := {| m_type := VStr "chat_message"; m_roomCode := VStr "AB12CD";
              m_username := VUndefined; m_content := VStr "hello";
              m_id := VStr "c1"; m_isTyping := VUndefined |} in
  let m' := {| m_type := VStr "chat_message"; m_roomCode := VStr "AB12CD";
               m_username := VStr "Alice"; m_content := VStr "hello";
               m_id := VStr ""; m_isTyping := VUndefined |} in
  rooms σ !! VStr "AB12CD" = Some [1; 2]%nat ∧
  (step sample_env σ (MessageEvent 1 (Some (Json m)))).2 =
    [(1%nat, error "Invalid message format" 1699999999000)] ∧
  (step sample_env (run new_server sample_trace) (MessageEvent 1 (Some (Json m')))).2 =
    [(1%nat, chat_message (VStr "lq3k8f2a") (VStr "Alice") "hello" 1699999999000);
     (2%nat, chat_message (VStr "lq3k8f2a") (VStr "Alice") "hello" 1699999999000)].
Proof. vm_compute. done. Qed.

(** C1, amended.  On every reachable state, a [chat_message] whose content
    is not empty after trimming, from a session whose registered name and
    room code have a text (as every primitive value has), is sent once to
    every member of the sender's room whose transport is open, the sender
    included, and to nobody else; every copy is the same message: the
    inbound [id] when it is truthy ([message.id || this.generateId()]),
    otherwise the one id the server generated, the registered name of the
    sender, the trimmed content and the server's clock.  From a session
    whose registered name or room code has no text the message reaches
    nobody: the sender is answered "Invalid message format".  Nothing
    changes in the server. *)
Theorem chat_message_reaches_whole_room
    (tr : list (env * event)) (E : env) (ws : conn) (cl : client)
    (m : message) (content : string) :
  let σ := run new_server tr in
  clients σ !! ws = Some cl →
  m_type m = VStr "chat_message" →
  m_content m = VStr content →
  trim content ≠ EmptyString →
  let out :=
    chat_message (if truthy (m_id m) then m_id m else VStr (generateId E))
      (username cl) (trim content) (Date_now E) in
  let r := step E σ (MessageEvent ws (Some (Json m))) in
  (converts (username cl) = true → converts (roomCode cl) = true →
   ∃ room,
     rooms σ !! roomCode cl = Some room ∧ NoDup room ∧ ws ∈ room ∧
     r = (σ, (λ c, (c, out)) <$> filter (is_open E) room) ∧
     (is_open E ws → (ws, out) ∈ r.2)) ∧
  (converts (username cl) = false ∨ converts (roomCode cl) = false →
   r = (σ, send E ws (error "Invalid message format" (Date_now E)))).
Proof.
  intros σ Hcl Htype Hcontent Htrim out r.
  assert (registry_inv σ) as Hinv by apply run_inv, new_server_inv.
  split.
  - intros Hname Hcode.
    destruct (registered_room _ _ _ Hinv Hcl Hcode) as (room & Hroom & Hin & Hnd).
    exists room.
    assert (r = (σ, (λ c, (c, out)) <$> filter (is_open E) room)) as Hstep.
    { unfold r. rewrite (step_chat_message_room E σ ws cl m content) by done.
      by rewrite (broadcastToRoom_all _ _ _ _ _ Hroom). }
    split_and!; [done|done|done|done|].
    intros Hopen. rewrite Hstep. simpl.
    apply (list_elem_of_fmap_2 (λ c, (c, out))).
    by apply list_elem_of_filter.
  - intros Hno. unfold r.
    by rewrite (step_chat_message_thrown E σ ws cl m content).
Qed.

(** ** Typing indicators *)

(** C6. On every reachable state, a [typing] event from a session with a
    record is sent once to every other member of the room on its record
    whose transport is open; no packet caused by it goes to the session it
    came from, and nothing changes in the server.  The session is a member
    of that room whenever the room code on its record has a text (as every
    primitive value has); otherwise the room may be gone, and then nothing
    is sent. *)
Theorem typing_not_echoed
    (tr : list (env * event)) (E : env) (ws : conn) (cl : client) (m : message) :
  let σ := run new_server tr in
  clients σ !! ws = Some cl →
  m_type m = VStr "typing" →
  let out := typing (username cl) (m_isTyping m) (Date_now E) in
  let room := default [] (rooms σ !! roomCode cl) in
  NoDup room ∧
  step E σ (MessageEvent ws (Some (Json m))) =
    (σ, (λ c, (c, out)) <$> filter (λ c, c ≠ ws ∧ is_open E c) room) ∧
  (∀ p, p ∈ (step E σ (MessageEvent ws (Some (Json m)))).2 → p.1 ≠ ws) ∧
  (converts (roomCode cl) = true →
   rooms σ !! roomCode cl = Some room ∧ ws ∈ room).
Proof.
  intros σ Hcl Htype out room.
  assert (registry_inv σ) as Hinv by apply run_inv, new_server_inv.
  assert (step E σ (MessageEvent ws (Some (Json m))) =
            (σ, (λ c, (c, out)) <$> filter (λ c, c ≠ ws ∧ is_open E c) room))
    as Hstep.
  { rewrite (step_typing_room E σ ws cl m) by done. unfold room.
    destruct (rooms σ !! roomCode cl) as [members|] eqn:Hroom.
    - by rewrite (broadcastToRoom_others _ _ _ _ _ _ Hroom).
    - unfold broadcastToRoom. by rewrite Hroom. }
  split_and!; [|done| |].
  - unfold room. destruct (rooms σ !! roomCode cl) as [members|] eqn:Hroom;
      [|apply NoDup_nil_2].
    by apply (inv_rooms _ Hinv _ _ Hroom).
  - intros p. rewrite Hstep. simpl.
    intros (c & -> & Hc)%list_elem_of_fmap.
    apply list_elem_of_filter in Hc as [[Hne _] _]. done.
  - intros Hcode.
    destruct (registered_room _ _ _ Hinv Hcl Hcode) as (members & Hroom & Hin & _).
    unfold room. by rewrite Hroom.
Qed.

(** ** The name on a broadcast *)

Section Registration.
Variable E : env.

(** Neither the chat nor the typing handler reads [message.username]. *)
Lemma handleChatMessage_ignores_username σ ws m u :
  handleChatMessage E σ ws (with_username m u) = handleChatMessage E σ ws m.
Proof. done. Qed.

Lemma handleTyping_ignores_username σ ws m u :
  handleTyping E σ ws (with_username m u) = handleTyping E σ ws m.
Proof. done. Qed.

Lemma step_ignores_username σ ws m u :
  m_type m = VStr "chat_message" ∨ m_type m = VStr "typing" →
  step E σ (MessageEvent ws (Some (Json (with_username m u)))) =
  step E σ (MessageEvent ws (Some (Json m))).
Proof.
  intros [Htype|Htype]; unfold step; rewrite !on_message_handled.
  - by rewrite !handleMessage_chat.
  - by rewrite !handleMessage_typing.
Qed.

(** The name on record for [ws]. *)
Lemma handleJoinRoom_registers σ ws m :
  accepted m = true → thrown (leaveCurrentRoom E σ ws) = false →
  username <$> clients (state (handleJoinRoom E σ ws m)) !! ws
    = Some (m_username m).
Proof.
  intros Hacc Hleft. rewrite handleJoinRoom_clients by done.
  by rewrite lookup_insert_eq.
Qed.

Lemma handleJoinRoom_other_clients σ ws w m :
  w ≠ ws →
  clients (state (handleJoinRoom E σ w m)) !! ws = clients σ !! ws.
Proof.
  intros Hne. destruct (accepted m) eqn:Hacc;
    [|by rewrite handleJoinRoom_rejected].
  destruct (thrown (leaveCurrentRoom E σ w)) eqn:Hleft.
  - rewrite handleJoinRoom_aborted by done.
    by destruct (leaveCurrentRoom_clients E σ w) as (-> & _).
  - rewrite handleJoinRoom_clients by done. by rewrite lookup_insert_ne.
Qed.

Lemma handlePing_record σ ws w m :
  username <$> clients (state (handlePing E σ w m)) !! ws
    = username <$> clients σ !! ws ∧
  roomCode <$> clients (state (handlePing E σ w m)) !! ws
    = roomCode <$> clients σ !! ws ∧
  rooms (state (handlePing E σ w m)) = rooms σ.
Proof.
  unfold handlePing. destruct (clients σ !! w) as [cl|] eqn:Hw; [|done].
  simpl. destruct (decide (w = ws)) as [->|Hne].
  - by rewrite lookup_insert_eq, Hw.
  - by rewrite lookup_insert_ne.
Qed.

Lemma handleDisconnection_other_clients σ ws w :
  w ≠ ws →
  clients (state (handleDisconnection E σ w)) !! ws = clients σ !! ws.
Proof.
  intros Hne. unfold handleDisconnection.
  destruct (leaveCurrentRoom_clients E σ w) as (Hc & _).
  destruct (clients σ !! w) as [cl|];
    [|by simpl; rewrite lookup_delete_ne].
  destruct (logs [username cl; roomCode cl]); [|done].
  destruct (thrown (leaveCurrentRoom E σ w)); [by rewrite Hc|].
  simpl. by rewrite lookup_delete_ne, Hc.
Qed.

(** An event that keeps the registration of [ws] keeps its name and its
    room code. *)
Lemma step_keeps_record σ ws ev :
  keeps_registration ws ev →
  username <$> clients (step E σ ev).1 !! ws = username <$> clients σ !! ws ∧
  roomCode <$> clients (step E σ ev).1 !! ws = roomCode <$> clients σ !! ws.
Proof.
  destruct ev as [w|w [[|m]|]|w|w|]; try done.
  - intros Hkeep. unfold step. rewrite on_message_state.
    unfold handleMessage. repeat case_decide.
    + destruct (decide (w = ws)) as [->|Hne].
      * by rewrite handleJoinRoom_rejected by (by apply Hkeep).
      * by rewrite handleJoinRoom_other_clients.
    + by rewrite handleChatMessage_state.
    + by rewrite handleTyping_state.
    + by destruct (handlePing_record σ ws w m) as (-> & -> & _).
    + done.
  - intros Hne. simpl in Hne. unfold step, on_close. cbn [fst].
    by rewrite handleDisconnection_other_clients.
Qed.

Lemma step_keeps_username σ ws ev :
  keeps_registration ws ev →
  username <$> clients (step E σ ev).1 !! ws = username <$> clients σ !! ws.
Proof. intros Hkeep. by destruct (step_keeps_record σ ws ev Hkeep). Qed.

Lemma broadcastToRoom_payload (σ : server) (code : jsval)
    (o : outmsg) (ex : option conn) (p : packet) :
  p ∈ broadcastToRoom E σ code o ex → p.2 = o.
Proof.
  destruct (rooms σ !! code) as [room|] eqn:Hr.
  - rewrite (broadcastToRoom_room _ _ _ _ _ _ Hr).
    by intros (c & -> & _)%list_elem_of_fmap.
  - unfold broadcastToRoom. rewrite Hr. by intros ?%elem_of_nil.
Qed.

(** The packets of a chat event: a broadcast of the message with the name
    on record, or one error notice. *)
Lemma handleChatMessage_packets σ ws m (p : packet) :
  p ∈ (step E σ (MessageEvent ws (Some (Json m)))).2 →
  m_type m = VStr "chat_message" →
  is_error p.2 = true
  ∨ ∃ cl id content t,
      clients σ !! ws = Some cl ∧ converts (roomCode cl) = true
      ∧ p ∈ broadcastToRoom E σ (roomCode cl)
              (chat_message id (username cl) content t) None.
Proof.
  intros Hp Htype. revert Hp. unfold step.
  rewrite on_message_handled, handleMessage_chat by done.
  unfold handleChatMessage.
  assert (∀ e, p ∈ sendError E ws e → is_error p.2 = true) as Herr.
  { by intros e [-> _]%send_target. }
  destruct (clients σ !! ws) as [cl|] eqn:Hcl; cbn [fst snd state sent thrown returns];
    [|rewrite app_nil_r; eauto].
  destruct (negb (truthy (m_content m)));
    [cbn [snd state sent thrown returns]; rewrite app_nil_r; eauto|].
  destruct (m_content m) as [| | | |content|];
    try (cbn [snd state sent thrown throws]; by eauto).
  destruct (String.eqb (trim content) "");
    [cbn [snd state sent thrown returns]; rewrite app_nil_r; eauto|].
  destruct (logs [roomCode cl; username cl; VStr content]) eqn:Hlogs;
    cbn [snd state sent thrown returns throws]; [|by eauto].
  rewrite app_nil_r. intros Hp. right.
  unfold logs in Hlogs. cbn [forallb] in Hlogs.
  apply andb_true_iff in Hlogs as [Hcode _]. eauto 10.
Qed.

(** The packets a chat or a typing event causes carry the name on record. *)
Lemma broadcast_carries_registered_name σ ws m u p v :
  username <$> clients σ !! ws = Some u →
  m_type m = VStr "chat_message" ∨ m_type m = VStr "typing" →
  p ∈ (step E σ (MessageEvent ws (Some (Json m)))).2 →
  broadcast_username p.2 = Some v → v = u.
Proof.
  intros Hu Htype. destruct (clients σ !! ws) as [cl|] eqn:Hcl; [|done].
  simpl in Hu. simplify_eq.
  destruct Htype as [Htype|Htype].
  - intros Hp Hv.
    destruct (handleChatMessage_packets _ _ _ _ Hp Htype)
      as [Herr|(cl' & id & content & t & Hcl' & _ & Hb)].
    + by destruct p.2.
    + simplify_eq. apply broadcastToRoom_payload in Hb.
      rewrite Hb in Hv. simpl in Hv. by simplify_eq.
  - rewrite (step_typing_room E σ ws cl m) by done. cbn [snd].
    intros Hp Hv. apply broadcastToRoom_payload in Hp.
    rewrite Hp in Hv. simpl in Hv. by simplify_eq.
Qed.

(** A leave makes no room. *)
Lemma leaveCurrentRoom_absent σ ws code :
  rooms σ !! code = None →
  rooms (state (leaveCurrentRoom E σ ws)) !! code = None.
Proof.
  intros Hnone.
  destruct (clients σ !! ws) as [cl|] eqn:Hws;
    [|by rewrite leaveCurrentRoom_unjoined].
  destruct (rooms σ !! roomCode cl) as [room|] eqn:Hroom;
    [|by rewrite (leaveCurrentRoom_stale _ _ _ _ Hws Hroom)].
  rewrite (leaveCurrentRoom_rooms _ _ _ _ _ Hws Hroom).
  assert (roomCode cl ≠ code) as Hne by congruence.
  case_decide; [by rewrite lookup_delete_ne|by rewrite lookup_insert_ne].
Qed.

(** A room that is gone under a code without a text stays gone: the code
    is an object, and no later join can name it. *)
Lemma step_keeps_absent σ ev i :
  (i < objects σ)%nat →
  rooms σ !! VObj i None = None →
  rooms (step E σ ev).1 !! VObj i None = None ∧ (i < objects (step E σ ev).1)%nat.
Proof.
  intros Hold Hnone.
  destruct ev as [w|w [[|m]|]|w|w|]; try done.
  - unfold step. rewrite on_message_state. unfold handleMessage.
    repeat case_decide.
    + destruct (accepted m) eqn:Hacc;
        [|by rewrite handleJoinRoom_rejected].
      destruct (leaveCurrentRoom_clients E σ w) as (_ & _ & Ho).
      destruct (thrown (leaveCurrentRoom E σ w)) eqn:Hleft.
      * rewrite handleJoinRoom_aborted by done. rewrite Ho.
        split; [by apply leaveCurrentRoom_absent|done].
      * rewrite handleJoinRoom_state by done. simpl.
        pose proof (count_object_le (m_roomCode m) (objects σ)).
        split; [|lia]. rewrite lookup_insert_ne.
        -- by apply leaveCurrentRoom_absent.
        -- intros Heq%own_fresh. lia.
    + by rewrite handleChatMessage_state.
    + by rewrite handleTyping_state.
    + destruct (handlePing_record σ w w m) as (_ & _ & ->).
      split; [done|]. unfold handlePing. by destruct (clients σ !! w).
    + done.
  - unfold step, on_close. cbn [fst]. unfold handleDisconnection.
    destruct (leaveCurrentRoom_clients E σ w) as (_ & _ & Ho).
    pose proof (leaveCurrentRoom_absent σ w _ Hnone) as Hleft.
    destruct (clients σ !! w) as [cl|]; [|done].
    destruct (logs [username cl; roomCode cl]); [|done].
    destruct (thrown (leaveCurrentRoom E σ w)); [by rewrite Ho|].
    simpl. by rewrite Ho.
Qed.

End Registration.

Lemma run_keeps_record (ws : conn) (tr : list (env * event)) (σ : server) :
  Forall (λ a, keeps_registration ws a.2) tr →
  username <$> clients (run σ tr) !! ws = username <$> clients σ !! ws ∧
  roomCode <$> clients (run σ tr) !! ws = roomCode <$> clients σ !! ws.
Proof.
  revert σ. induction tr as [|[E ev] tr IH]; intros σ Hall; simpl; [done|].
  apply Forall_cons in Hall as [Hev Hall].
  destruct (IH (step E σ ev).1 Hall) as [-> ->].
  by apply step_keeps_record.
Qed.

Lemma run_keeps_username (ws : conn) (tr : list (env * event)) (σ : server) :
  Forall (λ a, keeps_registration ws a.2) tr →
  username <$> clients (run σ tr) !! ws = username <$> clients σ !! ws.
Proof. intros Hall. by destruct (run_keeps_record ws tr σ Hall). Qed.

Lemma run_keeps_absent (tr : list (env * event)) (σ : server) (i : nat) :
  (i < objects σ)%nat →
  rooms σ !! VObj i None = None →
  rooms (run σ tr) !! VObj i None = None.
Proof.
  revert σ. induction tr as [|[E ev] tr IH]; intros σ Hold Hnone; simpl; [done|].
  destruct (step_keeps_absent E σ ev i Hold Hnone). by apply IH.
Qed.

(** C10. The name on every outbound chat and typing message is the one the
    session gave at its most recent accepted [join_room], whatever events
    other than a new accepted join or the close of that session came in
    between; the
    [username] field of the inbound message is not read: two inbound chat
    (or typing) messages that differ only in that field cause the same
    packets and the same state. *)
Theorem broadcast_name_is_registered_name
    (tr1 tr2 : list (env * event)) (Ej E : env) (ws : conn)
    (mj m : message) (u1 u2 : jsval) :
  m_type mj = VStr "join_room" →
  accepted mj = true →
  Forall (λ a, keeps_registration ws a.2) tr2 →
  m_type m = VStr "chat_message" ∨ m_type m = VStr "typing" →
  let σ :=
    run new_server (tr1 ++ (Ej, MessageEvent ws (Some (Json mj))) :: tr2) in
  step E σ (MessageEvent ws (Some (Json (with_username m u1)))) =
  step E σ (MessageEvent ws (Some (Json (with_username m u2)))) ∧
  ∀ p v, p ∈ (step E σ (MessageEvent ws (Some (Json (with_username m u1))))).2 →
         broadcast_username p.2 = Some v → v = m_username mj.
Proof.
  intros Hjoin Hacc Hkeep Htype σ.
  split; [by rewrite !step_ignores_username|].
  intros p v. rewrite step_ignores_username by done.
  set (σ1 := run new_server tr1).
  assert (registry_inv σ1) as Hinv1 by apply run_inv, new_server_inv.
  assert (σ = run (state (handleJoinRoom Ej σ1 ws mj)) tr2) as Hσ.
  { unfold σ. rewrite run_app. cbn [run step].
    by rewrite on_message_state, handleMessage_join. }
  destruct (thrown (leaveCurrentRoom Ej σ1 ws)) eqn:Hleft.
  - (* the join was given up: the record is stale, and nothing is broadcast *)
    destruct (leaveCurrentRoom_thrown_state _ _ _ Hleft)
      as (cl & Hcl & Hnone & Hconv).
    rewrite <- (handleJoinRoom_aborted Ej σ1 ws mj) in Hcl, Hnone by done.
    assert (registry_inv (state (handleJoinRoom Ej σ1 ws mj))) as Hinvj
      by by apply handleJoinRoom_inv.
    destruct (converts_false _ Hconv) as [i Hi].
    pose proof (inv_objects _ Hinvj _ _ _ _ Hcl Hi) as Hold.
    rewrite Hi in Hnone.
    pose proof (run_keeps_absent tr2 _ i Hold Hnone) as Hgone.
    destruct (run_keeps_record ws tr2 (state (handleJoinRoom Ej σ1 ws mj)) Hkeep)
      as [_ Hcode].
    rewrite <- Hσ in Hgone, Hcode. rewrite Hcl in Hcode. simpl in Hcode.
    destruct (clients σ !! ws) as [cl'|] eqn:Hcl'; [|done].
    simpl in Hcode. assert (roomCode cl' = VObj i None) as Hi' by congruence.
    intros Hp Hv. exfalso.
    destruct Htype as [Htype|Htype].
    + destruct (handleChatMessage_packets _ _ _ _ _ Hp Htype)
        as [Herr|(cl'' & ? & ? & ? & Hcl'' & Hconv' & _)].
      * by destruct p.2.
      * simplify_eq. by rewrite Hi' in Hconv'.
    + rewrite (step_typing_room E σ ws cl' m) in Hp by done.
      cbn [snd] in Hp. unfold broadcastToRoom in Hp.
      rewrite Hi', Hgone in Hp. by apply elem_of_nil in Hp.
  - apply broadcast_carries_registered_name; [|done].
    rewrite Hσ, run_keeps_username by done.
    by apply handleJoinRoom_registers.
Qed.

(** ** Rooms live exactly as long as they have members *)

Section Lifecycle.
Variable E : env.

(** Leaving touches no room but the one on record. *)
Lemma leaveCurrentRoom_rooms_other σ ws code :
  (∀ cl, clients σ !! ws = Some cl → roomCode cl ≠ code) →
  rooms (state (leaveCurrentRoom E σ ws)) !! code = rooms σ !! code.
Proof.
  intros Hother. destruct (clients σ !! ws) as [cl|] eqn:Hws;
    [|by rewrite leaveCurrentRoom_unjoined].
  destruct (rooms σ !! roomCode cl) as [room|] eqn:Hroom;
    [|by rewrite (leaveCurrentRoom_stale _ _ _ _ Hws Hroom)].
  rewrite (leaveCurrentRoom_rooms _ _ _ _ _ Hws Hroom).
  specialize (Hother _ eq_refl).
  case_decide; [by rewrite lookup_delete_ne|by rewrite lookup_insert_ne].
Qed.

(** The room of [ws] after it has left: the others, or no room at all. *)
Lemma leaveCurrentRoom_own_room σ ws cl room :
  clients σ !! ws = Some cl →
  rooms σ !! roomCode cl = Some room →
  rooms (state (leaveCurrentRoom E σ ws)) !! roomCode cl =
    if decide (set_delete ws room = []) then None else Some (set_delete ws room).
Proof.
  intros Hws Hroom. rewrite (leaveCurrentRoom_rooms _ _ _ _ _ Hws Hroom).
  case_decide; [by rewrite lookup_delete_eq|by rewrite lookup_insert_eq].
Qed.

Lemma set_delete_singleton (ws : conn) : set_delete ws [ws] = [].
Proof. unfold set_delete. rewrite filter_cons. by rewrite decide_False by auto. Qed.

Lemma leaveCurrentRoom_last σ ws cl :
  clients σ !! ws = Some cl →
  rooms σ !! roomCode cl = Some [ws] →
  rooms (state (leaveCurrentRoom E σ ws)) !! roomCode cl = None.
Proof.
  intros Hws Hroom. rewrite (leaveCurrentRoom_own_room _ _ _ _ Hws Hroom).
  by rewrite set_delete_singleton.
Qed.

(** The members of a room before and after [ws] leaves, when the room is
    not the one [ws] is in or [ws] is taken out of it. *)
Lemma leaveCurrentRoom_members σ ws code :
  registry_inv σ →
  default [] (rooms (state (leaveCurrentRoom E σ ws)) !! code) =
    set_delete ws (default [] (rooms σ !! code)).
Proof.
  intros Hinv.
  assert (∀ cl, clients σ !! ws = Some cl → roomCode cl ≠ code →
                default [] (rooms σ !! code)
                = set_delete ws (default [] (rooms σ !! code))) as Hnotin.
  { intros cl Hws Hne.
    destruct (rooms σ !! code) as [room|] eqn:Hroom; [|done].
    simpl. rewrite set_delete_notin; [done|].
    intros Hin. destruct (inv_member _ Hinv _ _ _ Hroom Hin) as (? & ? & ?).
    by simplify_eq. }
  destruct (clients σ !! ws) as [cl|] eqn:Hws.
  - destruct (decide (roomCode cl = code)) as [<-|Hne].
    + destruct (rooms σ !! roomCode cl) as [room|] eqn:Hroom.
      * rewrite (leaveCurrentRoom_own_room _ _ _ _ Hws Hroom).
        simpl. by case_decide as Hnil; [rewrite Hnil|].
      * rewrite (leaveCurrentRoom_stale _ _ _ _ Hws Hroom). simpl. by rewrite Hroom.
    + rewrite leaveCurrentRoom_rooms_other by (intros ? ?; by simplify_eq).
      by apply (Hnotin cl).
  - rewrite leaveCurrentRoom_unjoined by done. simpl.
    destruct (rooms σ !! code) as [room|] eqn:Hroom; [|done].
    simpl. rewrite set_delete_notin; [done|].
    intros Hin. destruct (inv_member _ Hinv _ _ _ Hroom Hin) as (? & ? & ?).
    by simplify_eq.
Qed.

(** The target room after a join that is carried out: its other members in
    their old order, then the joining connection. *)
Lemma handleJoinRoom_target σ ws m :
  registry_inv σ → accepted m = true →
  thrown (leaveCurrentRoom E σ ws) = false →
  rooms (state (handleJoinRoom E σ ws m)) !! own σ (m_roomCode m) =
    Some (set_delete ws (default [] (rooms σ !! own σ (m_roomCode m))) ++ [ws]).
Proof.
  intros Hinv Hacc Hleft.
  rewrite handleJoinRoom_rooms, lookup_insert_eq by done.
  f_equal. rewrite leaveCurrentRoom_members by done.
  unfold set_add. rewrite decide_False; [done|].
  intros Hin%set_delete_elem. by destruct Hin.
Qed.

(** A room other than the target is as the leave left it. *)
Lemma handleJoinRoom_old_room σ ws m code :
  accepted m = true → code ≠ own σ (m_roomCode m) →
  rooms (state (handleJoinRoom E σ ws m)) !! code =
    rooms (state (leaveCurrentRoom E σ ws)) !! code.
Proof.
  intros Hacc Hne. destruct (thrown (leaveCurrentRoom E σ ws)) eqn:Hleft.
  - by rewrite handleJoinRoom_aborted.
  - rewrite handleJoinRoom_rooms by done. by rewrite lookup_insert_ne.
Qed.

Lemma getRoomUsers_room σ code room :
  rooms σ !! code = Some room →
  getRoomUsers σ code = omap (λ c, username <$> clients σ !! c) room.
Proof. intros Hroom. unfold getRoomUsers. by rewrite Hroom. Qed.

Lemma getRoomUsers_default σ code :
  getRoomUsers σ code =
    omap (λ c, username <$> clients σ !! c) (default [] (rooms σ !! code)).
Proof. unfold getRoomUsers. by destruct (rooms σ !! code). Qed.

Lemma handleJoinRoom_users σ ws m :
  registry_inv σ → accepted m = true →
  thrown (leaveCurrentRoom E σ ws) = false →
  getRoomUsers (state (handleJoinRoom E σ ws m)) (own σ (m_roomCode m)) =
    omap (λ c, username <$> clients σ !! c)
         (set_delete ws (default [] (rooms σ !! own σ (m_roomCode m))))
    ++ [m_username m].
Proof.
  intros Hinv Hacc Hleft.
  rewrite (getRoomUsers_room _ _ _ (handleJoinRoom_target _ _ _ Hinv Hacc Hleft)).
  rewrite omap_app. rewrite handleJoinRoom_clients by done. f_equal.
  - apply list_omap_ext, Forall_Forall2_diag, Forall_forall.
    intros c [_ Hne]%set_delete_elem. by rewrite lookup_insert_ne.
  - simpl. by rewrite lookup_insert_eq.
Qed.

(** A close whose log line returns: the leave, then the record is
    dropped. *)
Lemma handleDisconnection_logged σ ws cl :
  clients σ !! ws = Some cl →
  converts (username cl) = true → converts (roomCode cl) = true →
  handleDisconnection E σ ws =
    returns (clients_delete (state (leaveCurrentRoom E σ ws)) ws)
            (sent (leaveCurrentRoom E σ ws)).
Proof.
  intros Hws Hname Hcode. unfold handleDisconnection.
  rewrite Hws, logs_2, Hname, Hcode. cbn [andb].
  destruct (thrown (leaveCurrentRoom E σ ws)) eqn:Hleft; [|done].
  apply leaveCurrentRoom_thrown in Hleft as (cl' & ? & Hcl' & _ & _ & Hno).
  simplify_eq. congruence.
Qed.

(** A close whose log line throws. *)
Lemma handleDisconnection_thrown σ ws cl :
  clients σ !! ws = Some cl →
  converts (username cl) = false ∨ converts (roomCode cl) = false →
  handleDisconnection E σ ws = throws σ [].
Proof.
  intros Hws Hno. unfold handleDisconnection. rewrite Hws, logs_2.
  by destruct Hno as [-> | ->]; [|rewrite andb_false_r].
Qed.

End Lifecycle.

(** The code a join files its session under names no room yet if it is an
    object. *)
Lemma own_absent (σ : server) (v : jsval) (i : nat) (text : option string) :
  registry_inv σ → own σ v = VObj i text → rooms σ !! own σ v = None.
Proof.
  intros Hinv Hown. destruct (rooms σ !! own σ v) as [room|] eqn:Hroom; [|done].
  destruct (inv_rooms _ Hinv _ _ Hroom) as [Hne _].
  destruct room as [|w room]; [done|].
  destruct (inv_member _ Hinv _ _ w Hroom) as (c & Hc & Hcode); [left|].
  rewrite Hown in Hcode.
  pose proof (inv_objects _ Hinv _ _ _ _ Hc Hcode).
  pose proof (own_fresh _ _ _ _ Hown). lia.
Qed.

Lemma validateRoomCode_string (code : jsval) :
  validateRoomCode code = true → ∃ s, code = VStr s ∧ s ≠ EmptyString.
Proof.
  destruct code as [| | | |s|]; simpl; try done.
  destruct s; [done|]. intros _. by eexists.
Qed.

Lemma validateUsername_string (u : jsval) :
  validateUsername u = true → ∃ s, u = VStr s ∧ s ≠ EmptyString.
Proof.
  destruct u as [| | | |s|]; simpl; try done.
  destruct s; [done|]. intros _. by eexists.
Qed.

Lemma validateRoomCode_truthy (code : jsval) :
  validateRoomCode code = true → truthy code = true.
Proof. intros (s & -> & Hs)%validateRoomCode_string. by destruct s. Qed.

Lemma validateUsername_truthy (u : jsval) :
  validateUsername u = true → truthy u = true.
Proof. intros (s & -> & Hs)%validateUsername_string. by destruct s. Qed.

(** C2. The close of a connection is meant to take the session out of its
    room and to delete the room with its last member, and the code does not
    always do so: when the only member of a room was registered under a
    name whose conversion to a string throws, the close of its connection
    throws at the log line, before the leave processing, and nothing
    catches it.  At the throw the session that has gone is still a member,
    its record is still there, and the room is still in the registry. *)
Lemma room_survives_close_of_last_member :
  let anonymous := VObj 0 None in
  let σ := run new_server
             [(sample_env,
               MessageEvent 1 (Some (Json (join_room (VStr "AB12CD") anonymous))))] in
  let r := step sample_env σ (CloseEvent 1) in
  rooms σ !! VStr "AB12CD" = Some [1%nat] ∧
  uncaught sample_env σ (CloseEvent 1) = true ∧
  rooms r.1 !! VStr "AB12CD" = Some [1%nat] ∧
  is_Some (clients r.1 !! 1%nat) ∧
  r.2 = [].
Proof. vm_compute. split_and!; try done. by eexists. Qed.

(** What the code does keep of the deletion of rooms.  In every reachable
    registry each room has a member and every room code in it is the code
    on the record of some session; a record whose code has a text (as every
    primitive value has) names a room that is there.  When the only member
    of a room is taken out by the leave processing, the room code is absent
    from [rooms] in the resulting state: that is so after the leave itself,
    after the close of
    the member's connection (a disconnect, or the close that follows an
    eviction) provided its name and room code have a text, and after its
    join to another room.  The close of a session whose name or room code
    has no text throws before the leave processing and changes nothing.
    Whenever a code is absent, a join with that code, by a session whose
    own leave does not throw, makes a room whose only member is the
    joining connection. *)
Theorem room_deleted_with_last_member
    (tr : list (env * event)) (E E' : env) (ws ws' : conn) (cl : client)
    (m m' : message) :
  let σ := run new_server tr in
  (∀ code room, rooms σ !! code = Some room → room ≠ []) ∧
  (∀ code, is_Some (rooms σ !! code) →
           ∃ w c, clients σ !! w = Some c ∧ roomCode c = code) ∧
  (∀ w c, clients σ !! w = Some c → converts (roomCode c) = true →
          is_Some (rooms σ !! roomCode c)) ∧
  (clients σ !! ws = Some cl →
   rooms σ !! roomCode cl = Some [ws] →
   rooms (state (leaveCurrentRoom E σ ws)) !! roomCode cl = None ∧
   (converts (username cl) = true → converts (roomCode cl) = true →
    uncaught E σ (CloseEvent ws) = false ∧
    rooms (step E σ (CloseEvent ws)).1 !! roomCode cl = None ∧
    clients (step E σ (CloseEvent ws)).1 !! ws = None) ∧
   (converts (username cl) = false ∨ converts (roomCode cl) = false →
    uncaught E σ (CloseEvent ws) = true ∧
    step E σ (CloseEvent ws) = (σ, [])) ∧
   (m_type m = VStr "join_room" → accepted m = true →
    own σ (m_roomCode m) ≠ roomCode cl →
    rooms (step E σ (MessageEvent ws (Some (Json m)))).1 !! roomCode cl = None)) ∧
  (m_type m' = VStr "join_room" → accepted m' = true →
   thrown (leaveCurrentRoom E' σ ws') = false →
   rooms σ !! own σ (m_roomCode m') = None →
   let σ'' := (step E' σ (MessageEvent ws' (Some (Json m')))).1 in
   rooms σ'' !! own σ (m_roomCode m') = Some [ws'] ∧
   getRoomUsers σ'' (own σ (m_roomCode m')) = [m_username m']).
Proof.
  intros σ.
  assert (registry_inv σ) as Hinv by apply run_inv, new_server_inv.
  split_and!.
  - intros code room Hroom. by apply (inv_rooms _ Hinv _ _ Hroom).
  - intros code [room Hroom].
    destruct (inv_rooms _ Hinv _ _ Hroom) as [Hne _].
    destruct room as [|w room]; [done|].
    destruct (inv_member _ Hinv _ _ w Hroom) as (c & Hc & Hcode); [left|].
    by exists w, c.
  - intros w c Hc Hconv.
    destruct (registered_room _ _ _ Hinv Hc Hconv) as (room & Hroom & _).
    by exists room.
  - intros Hws Hroom.
    pose proof (leaveCurrentRoom_last E _ _ _ Hws Hroom) as Hleft.
    split_and!; [done| | |].
    + intros Hname Hcode. unfold uncaught, step, on_close.
      rewrite (handleDisconnection_logged E σ ws cl) by done.
      cbn [fst state thrown returns clients_delete rooms clients].
      split_and!; [done|done|by rewrite lookup_delete_eq].
    + intros Hno. unfold uncaught, step, on_close.
      by rewrite (handleDisconnection_thrown E σ ws cl).
    + intros Htype Hacc Hne. rewrite step_join_room by done. cbn [fst].
      by rewrite handleJoinRoom_old_room.
  - intros Htype Hacc Hleft Habsent σ''.
    unfold σ''. rewrite step_join_room by done. cbn [fst].
    pose proof (handleJoinRoom_target E' σ ws' m' Hinv Hacc Hleft) as Htarget.
    pose proof (handleJoinRoom_users E' σ ws' m' Hinv Hacc Hleft) as Husers.
    rewrite Habsent in Htarget, Husers. done.
Qed.


(** ** The member list after a join *)

(** C9, as stated, fails: a second session that joins the room under a name
    already used there is listed next to the first, so the name is in the
    list twice. *)
Lemma same_name_listed_twice :
  let E := all_open 1699999999000 "lq3k8f2a" in
  let m := join_room (VStr "AB12CD") (VStr "Alice") in
  let σ := run new_server [(E, MessageEvent 1 (Some (Json m)))] in
  let σ' := (step E σ (MessageEvent 2 (Some (Json m)))).1 in
  validateRoomCode (m_roomCode m) = true ∧
  validateUsername (m_username m) = true ∧
  getRoomUsers σ' (m_roomCode m) = [VStr "Alice"; VStr "Alice"] ∧
  occurrences (m_username m) (getRoomUsers σ' (m_roomCode m)) ≠ 1%nat.
Proof. vm_compute. split_and!; [done|done|done|lia]. Qed.

(** And a join is given up when the leave it starts with throws: a session
    that is alone in a room whose code has no text is taken out of that
    room, the room is deleted, and the session is not inserted into the
    room it asked for. *)
Lemma join_given_up_is_not_listed :
  let nameless := VObj 0 None in
  let σ := run new_server
             [(sample_env,
               MessageEvent 1 (Some (Json (join_room nameless (VStr "Alice")))))] in
  let m := join_room (VStr "AB12CD") (VStr "Alice") in
  let r := step sample_env σ (MessageEvent 1 (Some (Json m))) in
  validateRoomCode (m_roomCode m) = true ∧
  validateUsername (m_username m) = true ∧
  rooms σ !! VObj 0 None = Some [1%nat] ∧
  rooms r.1 = ∅ ∧
  getRoomUsers r.1 (VStr "AB12CD") = [] ∧
  r.2 = [(1%nat, error "Invalid message format" 1699999999000)].
Proof. vm_compute. done. Qed.

(** C9, amended.  After a join with a valid room code and display name
    that is carried out, the member list of the room is the names of the
    other members, in their order, followed by the joining name: the
    joining session is listed once, and the name is in the list exactly
    once when no other member of the room is registered under it.  The
    join is carried out unless its leave throws, which it cannot do for a
    session that has no record or whose record has a room code with a
    text; when the leave throws the join is given up, and the member list
    of the room is that of its members before, the joining session not
    among them. *)
Theorem join_then_members
    (tr : list (env * event)) (E : env) (ws : conn) (m : message) :
  let σ := run new_server tr in
  m_type m = VStr "join_room" →
  validateRoomCode (m_roomCode m) = true →
  validateUsername (m_username m) = true →
  let left := leaveCurrentRoom E σ ws in
  let σ' := (step E σ (MessageEvent ws (Some (Json m)))).1 in
  let others := set_delete ws (default [] (rooms σ !! m_roomCode m)) in
  let names := omap (λ c, username <$> clients σ !! c) others in
  (thrown left = false →
   getRoomUsers σ' (m_roomCode m) = names ++ [m_username m] ∧
   occurrences (m_username m) (getRoomUsers σ' (m_roomCode m)) =
     S (occurrences (m_username m) names) ∧
   (m_username m ∉ names →
    occurrences (m_username m) (getRoomUsers σ' (m_roomCode m)) = 1%nat)) ∧
  (thrown left = true →
   getRoomUsers σ' (m_roomCode m) = names ∧
   ∀ room, rooms σ' !! m_roomCode m = Some room → ws ∉ room) ∧
  ((∀ cl, clients σ !! ws = Some cl → converts (roomCode cl) = true) →
   thrown left = false).
Proof.
  intros σ Htype Hcode Hname left σ' others names.
  assert (registry_inv σ) as Hinv by apply run_inv, new_server_inv.
  assert (accepted m = true) as Hacc.
  { unfold accepted.
    by rewrite validateRoomCode_truthy, validateUsername_truthy. }
  assert (own σ (m_roomCode m) = m_roomCode m) as Hown.
  { by destruct (validateRoomCode_string _ Hcode) as (s & -> & _). }
  assert (σ' = state (handleJoinRoom E σ ws m)) as ->.
  { unfold σ'. by rewrite step_join_room. }
  split_and!.
  - intros Hleft.
    assert (getRoomUsers (state (handleJoinRoom E σ ws m)) (m_roomCode m)
            = names ++ [m_username m]) as Husers.
    { pose proof (handleJoinRoom_users E σ ws m Hinv Hacc Hleft) as Husers.
      by rewrite Hown in Husers. }
    assert (occurrences (m_username m) (names ++ [m_username m]) =
            S (occurrences (m_username m) names)) as Hocc.
    { unfold occurrences. rewrite filter_app, length_app, filter_cons.
      rewrite decide_True by done. simpl. lia. }
    rewrite Husers, Hocc. split_and!; [done|done|].
    intros Hnotin. f_equal. unfold occurrences.
    destruct (filter (λ v, v = m_username m) names) as [|v l] eqn:Hf; [done|].
    assert (v ∈ filter (λ v, v = m_username m) names) as Hv by (rewrite Hf; left).
    apply list_elem_of_filter in Hv as [-> Hv]. done.
  - intros Hleft. rewrite handleJoinRoom_aborted by done.
    split.
    + rewrite getRoomUsers_default.
      destruct (leaveCurrentRoom_clients E σ ws) as (-> & _).
      by rewrite leaveCurrentRoom_members.
    + intros room Hroom Hin.
      pose proof (leaveCurrentRoom_detached E σ ws Hinv) as Hdet.
      by destruct (det_member _ _ Hdet _ _ _ Hroom Hin) as [? _].
  - intros Hconv. destruct (thrown left) eqn:Hleft; [|done].
    apply leaveCurrentRoom_thrown in Hleft as (cl & room & Hcl & _ & _ & Hno).
    rewrite (Hconv _ Hcl) in Hno. done.
Qed.

(** ** What the join checks *)

Lemma leaveCurrentRoom_no_error (E : env) (σ : server) (ws : conn) (p : packet) :
  p ∈ sent (leaveCurrentRoom E σ ws) → is_error p.2 = false.
Proof.
  unfold leaveCurrentRoom. repeat case_match; cbn [sent returns throws];
    try by intros ?%elem_of_nil.
  by intros [->%broadcastToRoom_payload | ->%broadcastToRoom_payload]%elem_of_app.
Qed.

Lemma handleJoinRoom_no_error (E : env) (σ : server) (ws : conn) (m : message)
    (p : packet) :
  accepted m = true →
  p ∈ sent (handleJoinRoom E σ ws m) → is_error p.2 = false.
Proof.
  intros Hacc. destruct (thrown (leaveCurrentRoom E σ ws)) eqn:Hleft.
  - rewrite handleJoinRoom_aborted by done. apply leaveCurrentRoom_no_error.
  - unfold accepted, handleJoinRoom in *.
    apply andb_true_iff in Hacc as [-> ->]. cbn [negb orb]. rewrite Hleft.
    destruct (logs _); cbn [sent returns throws];
      [|apply leaveCurrentRoom_no_error].
    rewrite !elem_of_app.
    intros [Hp|[Hp|[Hp|[Hp|Hp]]]].
    + by apply leaveCurrentRoom_no_error in Hp.
    + by apply send_target in Hp as [-> _].
    + by apply broadcastToRoom_payload in Hp as ->.
    + by apply send_target in Hp as [-> _].
    + by apply broadcastToRoom_payload in Hp as ->.
Qed.

Lemma regex_room_code_length (s : string) :
  regex_room_code s = true → String.length s = 6%nat.
Proof.
  unfold regex_room_code. intros [Hlen _]%andb_true_iff.
  by apply Nat.eqb_eq in Hlen.
Qed.

Lemma join_request_valid (code name : jsval) (m : message) :
  ChatService.join_request code name = Some m →
  ∃ c n,
    code = VStr c ∧ name = VStr n ∧
    m = join_room (VStr (toUpperCase c)) (VStr (trim n)) ∧
    regex_room_code (toUpperCase c) = true ∧
    regex_username (trim n) = true ∧
    (1 ≤ String.length (trim n) ≤ 20)%nat.
Proof.
  unfold ChatService.join_request.
  destruct (validateRoomCode code) eqn:Hcode; [|done].
  destruct (validateUsername name) eqn:Hname; [|done]. simpl.
  destruct code as [| | | |c|]; try done.
  destruct name as [| | | |n|]; try done.
  intros [= <-]. exists c, n.
  simpl in Hcode, Hname.
  destruct (negb (negb (c =? "")%string)); [done|].
  destruct (negb (negb (n =? "")%string)); [done|].
  destruct (String.length (trim n) <? 1)%nat eqn:Hlo; [done|].
  destruct (20 <? String.length (trim n))%nat eqn:Hhi; [done|].
  simpl in Hname. apply Nat.ltb_ge in Hlo, Hhi. done.
Qed.

(** C4, as stated, fails: the server takes a room code of three lower-case
    characters, inserts the session into a room of that name and reports
    success. *)
Lemma server_accepts_invalid_room_code :
  let E := all_open 1699999999000 "lq3k8f2a" in
  let m := join_room (VStr "abc") (VStr "Alice") in
  let r := step E new_server (MessageEvent 1 (Some (Json m))) in
  validateRoomCode (m_roomCode m) = false ∧
  rooms r.1 !! VStr "abc" = Some [1%nat] ∧
  r.2 = [(1%nat, room_joined (VStr "abc") (VStr "Alice"));
         (1%nat, user_list [VStr "Alice"]);
         (1%nat, user_list [VStr "Alice"])].
Proof. vm_compute. done. Qed.

(** C4, amended.  The join of the server checks only that a room code and a
    display name are there: when either is falsy (absent, [null], [false],
    0 or the empty string) it answers the requester, and nobody else, with
    the error "Room code and username are required" and changes nothing.
    Every other pair passes: no format is checked, and unless the leave of
    the join throws (which it cannot do for a session that has no record
    or whose record has a room code with a text) the session is inserted
    into the room of that very code and registered under that very name.
    The only error notice such a join can cause is "Invalid message
    format", to the requester, and only when something threw: the leave,
    or the log line of the join, which throws, after the session has been
    inserted and registered, when the name or the room code is an object
    without a text.  The format is checked in the browser before the
    request is sent:
    [ChatService.connect] sends no join request for a pair that
    [validateRoomCode] or [validateUsername] rejects, and the request it
    sends has the upper-cased room code, of exactly six upper-case letters
    or digits, and the trimmed name, of 1 to 20 letters, digits, white
    space, hyphens or underscores. *)
Theorem join_checks_presence_only
    (E : env) (σ : server) (ws : conn) (m : message) (code name : jsval) :
  m_type m = VStr "join_room" →
  let r := step E σ (MessageEvent ws (Some (Json m))) in
  let left := leaveCurrentRoom E σ ws in
  (truthy (m_roomCode m) = false ∨ truthy (m_username m) = false →
   r = (σ, send E ws (error "Room code and username are required" (Date_now E)))) ∧
  (truthy (m_roomCode m) = true ∧ truthy (m_username m) = true →
   (∀ p, p ∈ r.2 → is_error p.2 = true →
         p = (ws, error "Invalid message format" (Date_now E))
         ∧ (thrown left = true ∨ converts (m_username m) = false
            ∨ converts (m_roomCode m) = false)) ∧
   (thrown left = false →
    (∃ room, rooms r.1 !! own σ (m_roomCode m) = Some room ∧ ws ∈ room) ∧
    clients r.1 !! ws = Some {| username := m_username m;
                                roomCode := own σ (m_roomCode m);
                                lastSeen := Date_now E |})) ∧
  ((∀ cl, clients σ !! ws = Some cl → converts (roomCode cl) = true) →
   thrown left = false) ∧
  (validateRoomCode code = false ∨ validateUsername name = false →
   ChatService.join_request code name = None) ∧
  (∀ m', ChatService.join_request code name = Some m' →
     ∃ c n, code = VStr c ∧ name = VStr n ∧
            m' = join_room (VStr (toUpperCase c)) (VStr (trim n)) ∧
            regex_room_code (toUpperCase c) = true ∧
            String.length (toUpperCase c) = 6%nat ∧
            regex_username (trim n) = true ∧
            (1 ≤ String.length (trim n) ≤ 20)%nat ∧
            truthy (m_roomCode m') = true ∧ truthy (m_username m') = true).
Proof.
  intros Htype r left. unfold r. rewrite step_join_room by done.
  split_and!.
  - intros Hmissing. rewrite handleJoinRoom_rejected; [by rewrite app_nil_r|].
    unfold accepted.
    destruct Hmissing as [-> | ->]; [done|apply andb_false_r].
  - intros [Hcode Hname].
    assert (accepted m = true) as Hacc by (unfold accepted; by rewrite Hcode, Hname).
    split.
    + intros p Hp Herr. cbn [snd] in Hp.
      apply elem_of_app in Hp as [Hp|Hp].
      { apply (handleJoinRoom_no_error _ _ _ _ _ Hacc) in Hp. congruence. }
      rewrite handleJoinRoom_thrown in Hp by done.
      destruct (thrown (leaveCurrentRoom E σ ws)) eqn:Hleft.
      * apply send_target in Hp as [-> _]. by split; [|left].
      * cbn [orb] in Hp.
        destruct (converts (m_username m)), (converts (m_roomCode m));
          cbn [andb negb] in Hp;
          try (by apply elem_of_nil in Hp);
          apply send_target in Hp as [-> _]; split; auto.
    + intros Hleft. cbn [fst]. split.
      * rewrite handleJoinRoom_rooms, lookup_insert_eq by done.
        eexists; split; [done|]. apply set_add_elem. by right.
      * rewrite handleJoinRoom_clients by done. by rewrite lookup_insert_eq.
  - intros Hconv. destruct (thrown left) eqn:Hleft; [|done].
    apply leaveCurrentRoom_thrown in Hleft as (cl & room & Hcl & _ & _ & Hno).
    rewrite (Hconv _ Hcl) in Hno. done.
  - unfold ChatService.join_request. by intros [-> | ->]; [|rewrite orb_true_r].
  - intros m' (c & n & -> & -> & -> & Hc & Hn & Hlen)%join_request_valid.
    exists c, n. pose proof (regex_room_code_length _ Hc) as Hc6.
    split_and!; try done; try lia.
    + simpl. by destruct (toUpperCase c).
    + simpl. destruct (trim n); [simpl in Hlen; lia|done].
Qed.

(** ** Malformed messages *)

(** C7, as stated, fails: a well-formed envelope of an unknown type gets no
    error notice; the server sends nothing at all. *)
Lemma unknown_type_gets_no_error :
  let E := all_open 1699999999000 "lq3k8f2a" in
  let m := {| m_type := VStr "leave_room"; m_roomCode := VStr "AB12CD";
              m_username := VStr "Alice"; m_content := VUndefined;
              m_id := VUndefined; m_isTyping := VUndefined |} in
  known_type (m_type m) = false ∧
  is_open E 1 ∧
  (step E new_server (MessageEvent 1 (Some (Json m)))).2 = [].
Proof. vm_compute. done. Qed.

Lemma known_type_false (t : jsval) :
  known_type t = false →
  t ≠ VStr "join_room" ∧ t ≠ VStr "chat_message" ∧ t ≠ VStr "typing"
  ∧ t ≠ VStr "ping".
Proof.
  unfold known_type. rewrite !orb_false_iff, !bool_decide_eq_false. tauto.
Qed.

(** C7, amended.  An inbound message that cannot be parsed, or that parses
    to [null], gets the error notice "Invalid message format", sent to the
    connection it came from if that is open; an envelope of an unknown type
    gets no answer at all.  In each case the registry and the session table
    are left as they were (the session stays registered and connected) and
    no packet goes to any other connection. *)
Theorem malformed_message_handling
    (E : env) (σ : server) (ws : conn) (data : option json) :
  malformed data →
  let r := step E σ (MessageEvent ws data) in
  r.1 = σ ∧
  (data = None ∨ data = Some JsonNull →
   r.2 = send E ws (error "Invalid message format" (Date_now E))) ∧
  (∀ m, data = Some (Json m) → r.2 = []) ∧
  (∀ p, p ∈ r.2 → p.1 = ws ∧ is_error p.2 = true).
Proof.
  intros Hmal r.
  assert (r = (σ, match data with
                  | Some (Json _) => []
                  | _ => sendError E ws "Invalid message format"
                  end)) as ->.
  { unfold r. destruct data as [[|m]|]; simpl; [done| |done].
    simpl in Hmal. apply known_type_false in Hmal as (? & ? & ? & ?).
    unfold on_message, handleMessage. by rewrite !decide_False. }
  simpl. split_and!; [done| | |].
  - by intros [-> | ->].
  - by intros m ->.
  - intros p. destruct data as [[|m]|];
      try (by intros ?%elem_of_nil); by intros [-> _]%send_target.
Qed.

(** ** The theorems at the sample scenario *)

Lemma sample_room :
  rooms (run new_server sample_trace) !! VStr "AB12CD" = Some [1; 2]%nat.
Proof. vm_compute. reflexivity. Qed.

Lemma chat_message_reaches_whole_room_witness :
  let σ := run new_server sample_trace in
  let out := chat_message (VStr "c1") (VStr "Alice") "hello" 1699999999000 in
  step sample_env σ (MessageEvent 1 (Some (Json sample_chat))) =
    (σ, [(1%nat, out); (2%nat, out)]).
Proof.
  intros σ out.
  destruct (chat_message_reaches_whole_room sample_trace sample_env 1 alice
              sample_chat "  hello ") as [Hsent _].
  - vm_compute. reflexivity.
  - reflexivity.
  - reflexivity.
  - vm_compute. discriminate.
  - destruct Hsent as (room & Hroom & _ & _ & Hstep & _);
      [reflexivity|reflexivity|].
    change (roomCode alice) with (VStr "AB12CD") in Hroom.
    rewrite sample_room in Hroom. injection Hroom as <-.
    exact Hstep.
Defined.

Lemma typing_not_echoed_witness :
  let σ := run new_server sample_trace in
  step sample_env σ (MessageEvent 1 (Some (Json sample_typing))) =
    (σ, [(2%nat, typing (VStr "Alice") (VBool true) 1699999999000)]).
Proof.
  intros σ.
  destruct (typing_not_echoed sample_trace sample_env 1 alice sample_typing)
    as (_ & Hstep & _).
  - vm_compute. reflexivity.
  - reflexivity.
  - change (roomCode alice) with (VStr "AB12CD") in Hstep.
    rewrite sample_room in Hstep. exact Hstep.
Defined.

Lemma broadcast_name_is_registered_name_witness :
  let mj := join_room (VStr "AB12CD") (VStr "Alice") in
  let tr2 := [(sample_env, MessageEvent 2 (Some (Json (join_room (VStr "AB12CD") (VStr "Bob")))));
              (sample_env, MessageEvent 1 (Some (Json sample_typing)))] in
  let σ :=
    run new_server ([] ++ (sample_env, MessageEvent 1 (Some (Json mj))) :: tr2) in
  step sample_env σ
    (MessageEvent 1 (Some (Json (with_username sample_chat (VStr "Bob"))))) =
  step sample_env σ
    (MessageEvent 1 (Some (Json (with_username sample_chat (VStr "Alice"))))) ∧
  ∀ p v,
    p ∈ (step sample_env σ
           (MessageEvent 1 (Some (Json (with_username sample_chat (VStr "Bob")))))).2 →
    broadcast_username p.2 = Some v → v = m_username mj.
Proof.
  apply (broadcast_name_is_registered_name [] _ sample_env sample_env 1
           (join_room (VStr "AB12CD") (VStr "Alice")) sample_chat
           (VStr "Bob") (VStr "Alice")).
  - reflexivity.
  - reflexivity.
  - repeat constructor; simpl; intros; discriminate.
  - left. reflexivity.
Defined.

Lemma room_deleted_with_last_member_witness :
  let m := join_room (VStr "AB12CD") (VStr "Alice") in
  let m' := join_room (VStr "AB12CD") (VStr "Carol") in
  let σ := run new_server [(sample_env, MessageEvent 1 (Some (Json m)))] in
  let σ' := (step sample_env σ (CloseEvent 1)).1 in
  rooms σ' !! VStr "AB12CD" = None ∧
  rooms (step sample_env σ' (MessageEvent 3 (Some (Json m')))).1 !! VStr "AB12CD"
    = Some [3%nat] ∧
  getRoomUsers (step sample_env σ' (MessageEvent 3 (Some (Json m')))).1 (VStr "AB12CD")
    = [VStr "Carol"].
Proof.
  intros m m' σ σ'.
  destruct (room_deleted_with_last_member
              [(sample_env, MessageEvent 1 (Some (Json m)))]
              sample_env sample_env 1 3 alice
              (join_room (VStr "ZZ99ZZ") (VStr "Alice")) m')
    as (_ & _ & _ & Hlast & _).
  destruct Hlast as (_ & Hclose & _).
  - vm_compute. reflexivity.
  - vm_compute. reflexivity.
  - destruct Hclose as (_ & Hgone & _); [reflexivity|reflexivity|].
    split; [exact Hgone|].
    destruct (room_deleted_with_last_member
                [(sample_env, MessageEvent 1 (Some (Json m)));
                 (sample_env, CloseEvent 1)]
                sample_env sample_env 1 3 alice m m')
      as (_ & _ & _ & _ & Hjoin).
    apply Hjoin; [reflexivity|reflexivity|reflexivity|exact Hgone].
Defined.


Lemma join_then_members_witness :
  let m := join_room (VStr "ab12cd") (VStr "Carol") in
  let σ := run new_server sample_trace in
  let σ' := (step sample_env σ (MessageEvent 3 (Some (Json m)))).1 in
  getRoomUsers σ' (VStr "ab12cd") = [VStr "Carol"] ∧
  occurrences (VStr "Carol") (getRoomUsers σ' (VStr "ab12cd")) = 1%nat.
Proof.
  intros m σ σ'.
  destruct (join_then_members sample_trace sample_env 3
              (join_room (VStr "ab12cd") (VStr "Carol")))
    as (Hdone & _).
  - reflexivity.
  - vm_compute. reflexivity.
  - vm_compute. reflexivity.
  - destruct Hdone as (Husers & _ & Honce); [vm_compute; reflexivity|].
    split; [exact Husers|]. apply Honce. vm_compute. apply not_elem_of_nil.
Defined.

Lemma join_checks_presence_only_witness :
  let m := join_room (VStr "") (VStr "Alice") in
  step sample_env new_server (MessageEvent 1 (Some (Json m))) =
    (new_server,
     [(1%nat, error "Room code and username are required" 1699999999000)]) ∧
  ChatService.join_request (VStr "abc") (VStr "Alice") = None.
Proof.
  intros m.
  destruct (join_checks_presence_only sample_env new_server 1 m
              (VStr "abc") (VStr "Alice")) as (Hmissing & _ & _ & Hinvalid & _).
  - reflexivity.
  - split; [apply Hmissing|apply Hinvalid]; left; reflexivity.
Defined.

Lemma malformed_message_handling_witness :
  let data : option json := None in
  let r := step sample_env (run new_server sample_trace) (MessageEvent 1 data) in
  r.1 = run new_server sample_trace ∧
  (data = None ∨ data = Some JsonNull →
   r.2 = send sample_env 1 (error "Invalid message format" (Date_now sample_env))) ∧
  (∀ m, data = Some (Json m) → r.2 = []) ∧
  (∀ p, p ∈ r.2 → p.1 = 1%nat ∧ is_error p.2 = true).
Proof.
  apply (malformed_message_handling sample_env (run new_server sample_trace) 1 None).
  exact I.
Defined.

(** * Properties of the browser side *)

Local Open Scope Z_scope.

Section Reconnect.
Import WebSocketService.

Lemma stopHeartbeat_fields s :
  reconnectAttempts (stopHeartbeat s).1 = reconnectAttempts s ∧
  maxReconnectAttempts (stopHeartbeat s).1 = maxReconnectAttempts s ∧
  reconnectDelay (stopHeartbeat s).1 = reconnectDelay s ∧
  isConnected (stopHeartbeat s).1 = isConnected s.
Proof. done. Qed.

(** No handler assigns [maxReconnectAttempts] or [reconnectDelay]. *)
Lemma service_step_config s ev :
  maxReconnectAttempts (step s ev).1 = maxReconnectAttempts s ∧
  reconnectDelay (step s ev).1 = reconnectDelay s.
Proof.
  destruct ev as [h|code|]; simpl.
  - done.
  - unfold handleClose. by case_match.
  - unfold reconnect_timer_fired. by case_match.
Qed.

Lemma service_run_config tr s :
  maxReconnectAttempts (run s tr) = maxReconnectAttempts s ∧
  reconnectDelay (run s tr) = reconnectDelay s.
Proof.
  revert s. induction tr as [|ev tr IH]; intros s; simpl; [done|].
  destruct (IH (step s ev).1) as [-> ->]. apply service_step_config.
Qed.

(** No handler opens a transport or writes to one. *)
Lemma service_step_offline s ev : Forall (λ e, uses_network e = false) (step s ev).2.
Proof.
  destruct ev as [h|code|]; simpl;
    unfold handleOpen, startHeartbeat, handleClose, attemptReconnect,
      reconnect_timer_fired, stopHeartbeat; simpl;
    repeat case_match; simpl; by repeat constructor.
Qed.

Lemma effects_offline tr s : Forall (λ e, uses_network e = false) (effects s tr).
Proof.
  revert s. induction tr as [|ev tr IH]; intros s; simpl; [constructor|].
  apply Forall_app. split; [apply service_step_offline|apply IH].
Qed.

Lemma scheduled_reconnect_app l1 l2 :
  scheduled_reconnect (l1 ++ l2) = scheduled_reconnect l1 ++ scheduled_reconnect l2.
Proof. apply omap_app. Qed.

Lemma stopHeartbeat_no_timer s : scheduled_reconnect (stopHeartbeat s).2 = [].
Proof. unfold stopHeartbeat. simpl. by repeat case_match. Qed.

Lemma attemptReconnect_delay s :
  0 ≤ reconnectAttempts s →
  scheduled_reconnect (attemptReconnect s).2 =
    [reconnectDelay s * 2 ^ reconnectAttempts s].
Proof.
  intros Hpos. unfold attemptReconnect, scheduled_reconnect, Math_pow2. simpl.
  do 3 f_equal. lia.
Qed.

(** A close with a code other than 1000, under the budget, calls
    [attemptReconnect] on the state with the heartbeat stopped. *)
Lemma handleClose_unclean s code :
  code ≠ 1000 →
  reconnectAttempts s < maxReconnectAttempts s →
  ∃ s1 out,
    reconnectAttempts s1 = reconnectAttempts s ∧
    reconnectDelay s1 = reconnectDelay s ∧
    isConnected s1 = false ∧
    scheduled_reconnect out = [] ∧
    handleClose code s = ((attemptReconnect s1).1, out ++ (attemptReconnect s1).2).
Proof.
  intros Hcode Hbudget. unfold handleClose.
  set (s0 := {| isConnected := false;
                reconnectAttempts := reconnectAttempts s;
                maxReconnectAttempts := maxReconnectAttempts s;
                reconnectDelay := reconnectDelay s;
                heartbeatInterval := heartbeatInterval s;
                heartbeatTimeout := heartbeatTimeout s |}).
  destruct (stopHeartbeat_fields s0) as (Hatt & Hmax & Hdel & Hcon).
  rewrite Hatt, Hmax. simpl reconnectAttempts. simpl maxReconnectAttempts.
  rewrite (proj2 (Z.eqb_neq code 1000)) by done.
  rewrite (proj2 (Z.ltb_lt _ _)) by done. simpl negb. simpl andb.
  eexists _, _. split_and!; [..|reflexivity]; try done.
  rewrite !scheduled_reconnect_app, stopHeartbeat_no_timer. done.
Qed.

(** C8. In every state the service reaches from its constructor, the
  timer set before reconnect attempt [n], for [n] from 1 to the budget
  [maxReconnectAttempts] = 5, has the delay 1000 × 2^(n−1) milliseconds,
  both in [attemptReconnect] itself and in the [handleClose] of a close
  with a code other than 1000 that calls it; nothing caps the delay, which
  doubles from one attempt to the next up to 16000 for the fifth. *)
Theorem reconnect_delay_doubles
  (tr : list event) (n code : Z) :
let s := run constructor tr in
reconnectAttempts s = n - 1 →
1 ≤ n ≤ maxReconnectAttempts s →
code ≠ 1000 →
maxReconnectAttempts s = 5 ∧
reconnectAttempts (attemptReconnect s).1 = n ∧
scheduled_reconnect (attemptReconnect s).2
  = [1000 * 2 ^ (n - 1)] ∧
scheduled_reconnect (handleClose code s).2
  = [1000 * 2 ^ (n - 1)] ∧
(n = 5 → scheduled_reconnect
           (attemptReconnect s).2 = [16000]).
Proof.
intros s Hn Hbudget Hcode.
destruct (service_run_config tr constructor)
  as [Hmax Hdelay].
fold s in Hmax, Hdelay. simpl in Hmax, Hdelay.
assert (scheduled_reconnect (attemptReconnect s).2
        = [1000 * 2 ^ (n - 1)]) as Hsched.
{ rewrite attemptReconnect_delay by lia. by rewrite Hdelay, Hn. }
split_and!; [done|simpl; lia|done| |by intros ->].
destruct (handleClose_unclean s code) as (s1 & out & Hatt & Hdel & _ & Hout & ->);
  [done|lia|].
cbn [snd]. rewrite scheduled_reconnect_app, Hout, attemptReconnect_delay by lia.
rewrite Hdel, Hdelay, Hatt, Hn. done.
Qed.

(** C5, what the code does.  A connected service ([handleOpen] has run)
  whose transport closes with code 1006 marks itself disconnected, stops
  the heartbeat, tells its listeners, counts one reconnect attempt and
  sets a timer of 1000 ms; when that timer fires its body writes one line
  to the console and nothing else.  No handler of the service ever opens
  a transport or sends a message: no run re-establishes the connection
  or sends the join request again, and the service keeps no room code or
  display name from which it could. *)
Theorem reconnect_timer_only_logs :
let connected := (handleOpen 7 constructor).1 in
let r := handleClose 1006 connected in
isConnected connected = true ∧
r = ({| isConnected := false; reconnectAttempts := 1;
        maxReconnectAttempts := 5; reconnectDelay := 1000;
        heartbeatInterval := None; heartbeatTimeout := None |},
     [console_log "WebSocket disconnected:"; clearInterval 7;
      notifyConnectionListeners false;
      console_log "Attempting to reconnect";
      setTimeout reconnect_timer 1000]) ∧
reconnect_timer_fired r.1 = (r.1, [console_log "Reconnection attempt..."]) ∧
(∀ s tr, Forall (λ e, uses_network e = false) (effects s tr)).
Proof.
split_and!; [done|done|done|].
intros s tr. apply effects_offline.
Qed.

Lemma reconnect_delay_doubles_witness :
let s := run constructor [open_event 7; close_event 1006; close_event 1006] in
maxReconnectAttempts s = 5 ∧
reconnectAttempts (attemptReconnect s).1 = 3 ∧
scheduled_reconnect (attemptReconnect s).2 = [1000 * 2 ^ (3 - 1)] ∧
scheduled_reconnect (handleClose 1006 s).2 = [1000 * 2 ^ (3 - 1)] ∧
(3 = 5 → scheduled_reconnect (attemptReconnect s).2 = [16000]).
Proof.
apply (reconnect_delay_doubles
         [open_event 7; close_event 1006; close_event 1006] 3 1006).
- reflexivity.
- vm_compute. split; discriminate.
- discriminate.
Defined.

End Reconnect.

(** * Further properties of the server *)

Local Close Scope Z_scope.

Section Delivery.
Variable E : env.

Lemma broadcastToRoom_recipient σ code o ex (p : packet) :
  p ∈ broadcastToRoom E σ code o ex →
  ∃ room, rooms σ !! code = Some room ∧ p.1 ∈ room ∧ Some p.1 ≠ ex
          ∧ is_open E p.1 ∧ p.2 = o.
Proof.
  destruct (rooms σ !! code) as [room|] eqn:Hr.
  - rewrite (broadcastToRoom_room _ _ _ _ _ _ Hr).
    intros (c & -> & Hc)%list_elem_of_fmap.
    apply list_elem_of_filter in Hc as [[Hne Hopen] Hc]. by exists room.
  - unfold broadcastToRoom. rewrite Hr. by intros ?%elem_of_nil.
Qed.

(** The notices of a leave go to the members that stay. *)
Lemma leaveCurrentRoom_recipient σ ws (p : packet) :
  p ∈ sent (leaveCurrentRoom E σ ws) →
  is_open E p.1 ∧ p.1 ≠ ws ∧
  ∃ cl room, clients σ !! ws = Some cl ∧ rooms σ !! roomCode cl = Some room
             ∧ p.1 ∈ room.
Proof.
  unfold leaveCurrentRoom.
  destruct (clients σ !! ws) as [cl|] eqn:Hws; [|by intros ?%elem_of_nil].
  destruct (rooms σ !! roomCode cl) as [room|] eqn:Hroom;
    [|by intros ?%elem_of_nil].
  destruct (length (set_delete ws room) =? 0);
    [destruct (logs _); by intros ?%elem_of_nil|].
  cbn [sent returns]. intros Hp.
  assert (∃ o, p ∈ broadcastToRoom E
                 (with_rooms σ (<[roomCode cl := set_delete ws room]> (rooms σ)))
                 (roomCode cl) o None) as [o Ho].
  { apply elem_of_app in Hp as [Hp|Hp]; eauto. }
  apply broadcastToRoom_recipient in Ho as (r & Hr & Hin & _ & Hopen & _).
  simpl in Hr. rewrite lookup_insert_eq in Hr. simplify_eq.
  apply set_delete_elem in Hin as [Hin Hne]. eauto 10.
Qed.

(** The packets of a join that is carried out and logged. *)
Lemma handleJoinRoom_packets σ ws m :
  accepted m = true → thrown (leaveCurrentRoom E σ ws) = false →
  converts (m_username m) = true → converts (m_roomCode m) = true →
  let σ' := state (handleJoinRoom E σ ws m) in
  let target := own σ (m_roomCode m) in
  sent (handleJoinRoom E σ ws m) =
    sent (leaveCurrentRoom E σ ws)
    ++ send E ws (room_joined target (m_username m))
    ++ broadcastToRoom E σ' target
         (user_joined (m_username m) (Date_now E)) (Some ws)
    ++ send E ws (user_list (getRoomUsers σ' target))
    ++ broadcastToRoom E σ' target (user_list (getRoomUsers σ' target)) None.
Proof.
  intros Hacc Hleft Hname Hcode σ' target. unfold σ'.
  unfold accepted, handleJoinRoom in *.
  apply andb_true_iff in Hacc as [-> ->]. cbn [negb orb]. rewrite Hleft.
  by rewrite logs_2, converts_own, Hname, Hcode.
Qed.

(** The packets of a join that is given up or whose log line throws. *)
Lemma handleJoinRoom_packets_thrown σ ws m :
  accepted m = true →
  thrown (handleJoinRoom E σ ws m) = true →
  sent (handleJoinRoom E σ ws m) = sent (leaveCurrentRoom E σ ws).
Proof.
  intros Hacc. destruct (thrown (leaveCurrentRoom E σ ws)) eqn:Hleft.
  - by rewrite handleJoinRoom_aborted.
  - unfold accepted, handleJoinRoom in *.
    apply andb_true_iff in Hacc as [-> ->]. cbn [negb orb]. rewrite Hleft.
    by destruct (logs _).
Qed.

Lemma handleJoinRoom_recipient σ ws m (p : packet) :
  p ∈ sent (handleJoinRoom E σ ws m) →
  is_open E p.1 ∧
  (p.1 = ws
   ∨ (∃ cl room, clients σ !! ws = Some cl ∧ rooms σ !! roomCode cl = Some room
                 ∧ p.1 ∈ room)
   ∨ (∃ cl room, clients (state (handleJoinRoom E σ ws m)) !! ws = Some cl
                 ∧ rooms (state (handleJoinRoom E σ ws m)) !! roomCode cl = Some room
                 ∧ p.1 ∈ room)).
Proof.
  destruct (accepted m) eqn:Hacc.
  - destruct (thrown (handleJoinRoom E σ ws m)) eqn:Hthrown.
    + rewrite handleJoinRoom_packets_thrown by done.
      intros (? & ? & ?)%leaveCurrentRoom_recipient. eauto.
    + rewrite handleJoinRoom_thrown in Hthrown by done.
      apply orb_false_iff in Hthrown as [Hleft Hlogs].
      apply negb_false_iff, andb_true_iff in Hlogs as [Hname Hcode].
      rewrite handleJoinRoom_packets by done.
      assert (clients (state (handleJoinRoom E σ ws m)) !! ws
              = Some {| username := m_username m; roomCode := own σ (m_roomCode m);
                        lastSeen := Date_now E |}) as Hrecord.
      { rewrite handleJoinRoom_clients by done. by rewrite lookup_insert_eq. }
      rewrite !elem_of_app.
      intros [Hp|[Hp|[Hp|[Hp|Hp]]]].
      * apply leaveCurrentRoom_recipient in Hp as (? & ? & ?). eauto.
      * apply send_target in Hp as [-> ?]. eauto.
      * apply broadcastToRoom_recipient in Hp as (r & Hr & Hin & _ & Hopen & _).
        split; [done|]. right. right. eauto.
      * apply send_target in Hp as [-> ?]. eauto.
      * apply broadcastToRoom_recipient in Hp as (r & Hr & Hin & _ & Hopen & _).
        split; [done|]. right. right. eauto.
  - rewrite handleJoinRoom_rejected by done.
    intros [-> ?]%send_target. eauto.
Qed.

Lemma handleChatMessage_recipient σ ws m (p : packet) :
  p ∈ sent (handleChatMessage E σ ws m) →
  is_open E p.1 ∧
  (p.1 = ws
   ∨ ∃ cl room, clients σ !! ws = Some cl ∧ rooms σ !! roomCode cl = Some room
                ∧ p.1 ∈ room).
Proof.
  unfold handleChatMessage. intros Hp.
  destruct (clients σ !! ws) as [cl|] eqn:Hws.
  - repeat case_match; simplify_eq; cbn [sent returns throws] in Hp;
      try (by apply elem_of_nil in Hp);
      try (apply send_target in Hp as [-> ?]; by eauto).
    apply broadcastToRoom_recipient in Hp as (room & Hroom & Hin & _ & Hopen & _).
    split; [done|]. right. eauto.
  - apply send_target in Hp as [-> ?]. eauto.
Qed.

Lemma handleTyping_recipient σ ws m (p : packet) :
  p ∈ sent (handleTyping E σ ws m) →
  is_open E p.1 ∧ p.1 ≠ ws ∧
  ∃ cl room, clients σ !! ws = Some cl ∧ rooms σ !! roomCode cl = Some room
             ∧ p.1 ∈ room.
Proof.
  unfold handleTyping.
  destruct (clients σ !! ws) as [cl|] eqn:Hws; [|by intros ?%elem_of_nil].
  cbn [sent returns].
  intros (room & Hroom & Hin & Hne & Hopen & _)%broadcastToRoom_recipient.
  split_and!; [done|congruence|eauto].
Qed.

(** What a close sends is what its leave sends. *)
Lemma handleDisconnection_packets σ ws (p : packet) :
  p ∈ sent (handleDisconnection E σ ws) → p ∈ sent (leaveCurrentRoom E σ ws).
Proof.
  unfold handleDisconnection.
  destruct (clients σ !! ws) eqn:Hws; [|by intros ?%elem_of_nil].
  destruct (logs _); [|by intros ?%elem_of_nil].
  by destruct (thrown (leaveCurrentRoom E σ ws)).
Qed.

(** The connection an event comes from, if it comes from one. *)
Lemma step_recipient σ ws ev (p : packet) :
  ev = Connection ws ∨ (∃ data, ev = MessageEvent ws data)
  ∨ ev = CloseEvent ws ∨ ev = ErrorEvent ws →
  p ∈ (step E σ ev).2 →
  is_open E p.1 ∧
  (p.1 = ws
   ∨ (∃ cl room, clients σ !! ws = Some cl ∧ rooms σ !! roomCode cl = Some room
                 ∧ p.1 ∈ room)
   ∨ (∃ cl room, clients (step E σ ev).1 !! ws = Some cl
                 ∧ rooms (step E σ ev).1 !! roomCode cl = Some room
                 ∧ p.1 ∈ room)).
Proof.
  intros [->|[[data ->]|[->| ->]]]; unfold step.
  - intros [-> ?]%send_target. eauto.
  - destruct data as [msg|]; [|intros [-> ?]%send_target; by eauto].
    rewrite on_message_handled. cbn [fst snd].
    intros [Hp|Hp]%elem_of_app; cycle 1.
    { destruct (thrown _); [|by apply elem_of_nil in Hp].
      apply send_target in Hp as [-> ?]. eauto. }
    destruct msg as [|m]; [by apply elem_of_nil in Hp|].
    revert Hp. unfold handleMessage. repeat case_decide.
    + apply handleJoinRoom_recipient.
    + intros [? [?|?]]%handleChatMessage_recipient; eauto.
    + intros (? & ? & ?)%handleTyping_recipient. eauto.
    + unfold handlePing. destruct (clients σ !! ws);
        intros [-> ?]%send_target; eauto.
    + by intros ?%elem_of_nil.
  - unfold on_close. cbn [snd].
    intros (? & ? & ?)%handleDisconnection_packets%leaveCurrentRoom_recipient.
    eauto.
  - by intros ?%elem_of_nil.
Qed.

End Delivery.

(** X1. Whatever the event and the state, every packet the server writes
    goes to a connection whose [readyState] is [OPEN] at that moment. *)
Theorem never_writes_to_closed_transport
    (E : env) (σ : server) (ev : event) (p : packet) :
  p ∈ (step E σ ev).2 → is_open E p.1.
Proof.
  destruct ev as [ws|ws data|ws|ws|].
  - intros Hp. eapply step_recipient in Hp as [? _]; eauto.
  - intros Hp. eapply step_recipient in Hp as [? _]; eauto.
  - intros Hp. eapply step_recipient in Hp as [? _]; eauto.
  - intros Hp. eapply step_recipient in Hp as [? _]; eauto.
  - by intros ?%elem_of_nil.
Qed.

Lemma never_writes_to_closed_transport_witness :
  is_open sample_env 2.
Proof.
  apply (never_writes_to_closed_transport sample_env (run new_server sample_trace)
           (MessageEvent 1 (Some (Json sample_chat)))
           (2, chat_message (VStr "c1") (VStr "Alice") "hello" 1699999999000)).
  vm_compute. apply list_elem_of_In. right. left. reflexivity.
Defined.

(** X2. Room isolation.  On every reachable state, a packet caused by an
    event of connection [ws] (its arrival, a message of any kind, its
    close or its error) goes to [ws] itself or to a connection that is in
    one room with [ws] just before or just after the event; a connection
    that shares no room with the sender receives nothing. *)
Theorem packets_stay_in_room
    (tr : list (env * event)) (E : env) (ws : conn) (ev : event) (p : packet) :
  let σ := run new_server tr in
  ev = Connection ws ∨ (∃ data, ev = MessageEvent ws data)
  ∨ ev = CloseEvent ws ∨ ev = ErrorEvent ws →
  p ∈ (step E σ ev).2 →
  p.1 = ws ∨
  ∃ code room,
    (rooms σ !! code = Some room ∨ rooms (step E σ ev).1 !! code = Some room)
    ∧ ws ∈ room ∧ p.1 ∈ room.
Proof.
  intros σ Hev Hp.
  assert (registry_inv σ) as Hinv by apply run_inv, new_server_inv.
  assert (registry_inv (step E σ ev).1) as Hinv' by by apply step_inv.
  apply (step_recipient E σ ws ev p Hev) in Hp
    as [_ [?|[(cl & room & Hcl & Hroom & Hin)|(cl & room & Hcl & Hroom & Hin)]]].
  - by left.
  - right. exists (roomCode cl), room. split_and!; [by left| |done].
    destruct (inv_client _ Hinv _ _ Hcl) as [(room' & Hroom' & Hws)|[Hnone _]];
      [by simplify_eq|congruence].
  - right. exists (roomCode cl), room. split_and!; [by right| |done].
    destruct (inv_client _ Hinv' _ _ Hcl) as [(room' & Hroom' & Hws)|[Hnone _]];
      [by simplify_eq|congruence].
Qed.

Lemma packets_stay_in_room_witness :
  let σ := run new_server sample_trace in
  let ev := MessageEvent 1 (Some (Json sample_chat)) in
  let p : packet :=
    (2, chat_message (VStr "c1") (VStr "Alice") "hello" 1699999999000) in
  p.1 = 1 ∨
  ∃ code room,
    (rooms σ !! code = Some room
     ∨ rooms (step sample_env σ ev).1 !! code = Some room)
    ∧ 1 ∈ room ∧ p.1 ∈ room.
Proof.
  apply (packets_stay_in_room sample_trace sample_env 1
           (MessageEvent 1 (Some (Json sample_chat)))
           (2, chat_message (VStr "c1") (VStr "Alice") "hello" 1699999999000)).
  - right. left. eexists. reflexivity.
  - vm_compute. apply list_elem_of_In. right. left. reflexivity.
Defined.

(** X3. A chat message that is not delivered changes nothing and is
    answered to its sender only: with "Not in a room" when the session has
    not joined, with "Message content is required" when the content is
    missing, empty or blank, and with "Invalid message format" when the
    content is truthy and no string: a number or boolean other than 0 and
    false, or an object (the call of [content.trim] throws and the handler
    of the connection catches it). *)
Theorem undelivered_chat_is_answered_to_sender
    (E : env) (σ : server) (ws : conn) (m : message) :
  m_type m = VStr "chat_message" →
  let r := step E σ (MessageEvent ws (Some (Json m))) in
  let notice text := (σ, send E ws (error text (Date_now E))) in
  (clients σ !! ws = None → r = notice "Not in a room") ∧
  (is_Some (clients σ !! ws) →
   truthy (m_content m) = false ∨ (∃ s, m_content m = VStr s ∧ trim s = "") →
   r = notice "Message content is required") ∧
  (is_Some (clients σ !! ws) →
   truthy (m_content m) = true → (∀ s, m_content m ≠ VStr s) →
   r = notice "Invalid message format").
Proof.
  intros Htype r notice. unfold r, notice, step.
  rewrite on_message_handled, handleMessage_chat by done.
  unfold handleChatMessage. split_and!.
  - intros ->. cbn [state sent thrown returns]. by rewrite app_nil_r.
  - intros [cl ->] [Hfalsy|(s & Hs & Hblank)].
    + rewrite Hfalsy. cbn [negb state sent thrown returns].
      by rewrite app_nil_r.
    + rewrite Hs. destruct (truthy (VStr s)); cbn [negb];
        rewrite ?Hblank; cbn [String.eqb state sent thrown returns];
        by rewrite app_nil_r.
  - intros [cl ->] Htruthy Hnostr. rewrite Htruthy. cbn [negb].
    destruct (m_content m) as [| | | |s|]; try done.
    by destruct (Hnostr s).
Qed.

Lemma undelivered_chat_is_answered_to_sender_witness :
  let m := {| m_type := VStr "chat_message"; m_roomCode := VStr "AB12CD";
              m_username := VStr "Alice"; m_content := VNum 7;
              m_id := VUndefined; m_isTyping := VUndefined |} in
  let σ := run new_server sample_trace in
  step sample_env σ (MessageEvent 1 (Some (Json m))) =
    (σ, send sample_env 1 (error "Invalid message format" (Date_now sample_env))).
Proof.
  intros m σ.
  destruct (undelivered_chat_is_answered_to_sender sample_env σ 1 m)
    as (_ & _ & Hformat).
  - reflexivity.
  - apply Hformat.
    + exists alice. vm_compute. reflexivity.
    + reflexivity.
    + intros s. discriminate.
Defined.

Section Notices.
Variable E : env.

Lemma filter_others_open (ws : conn) (others : list conn) :
  ws ∉ others →
  filter (λ c, c ≠ ws ∧ is_open E c) (others ++ [ws]) = filter (is_open E) others.
Proof.
  intros Hnotin. rewrite filter_app, filter_cons, filter_nil.
  rewrite decide_False by (intros [? _]; done). rewrite app_nil_r.
  induction others as [|c others IH]; [done|].
  apply not_elem_of_cons in Hnotin as [Hne Hnotin].
  rewrite !filter_cons, IH by done.
  destruct (decide (is_open E c)) as [Hopen|Hclosed].
  - by rewrite decide_True.
  - rewrite decide_False; [done|]. by intros [_ ?].
Qed.

Lemma leaveCurrentRoom_packets σ ws cl room :
  clients σ !! ws = Some cl →
  rooms σ !! roomCode cl = Some room →
  let others := set_delete ws room in
  let names := omap (λ c, username <$> clients σ !! c) others in
  sent (leaveCurrentRoom E σ ws) =
    ((λ c, (c, user_left (username cl) (Date_now E))) <$> filter (is_open E) others)
    ++ ((λ c, (c, user_list names)) <$> filter (is_open E) others).
Proof.
  intros Hws Hroom others names. unfold leaveCurrentRoom. rewrite Hws, Hroom.
  fold others.
  destruct (length others =? 0) eqn:Hlen.
  - apply length_zero_nil in Hlen. rewrite Hlen. by destruct (logs _).
  - cbn [sent returns].
    set (σ1 := with_rooms σ (<[roomCode cl := others]> (rooms σ))).
    assert (rooms σ1 !! roomCode cl = Some others) as Hlk
      by apply lookup_insert_eq.
    rewrite !(broadcastToRoom_all _ _ _ _ _ Hlk).
    by rewrite (getRoomUsers_room _ _ _ Hlk).
Qed.

End Notices.

Lemma set_delete_idemp (ws : conn) (l : list conn) :
  set_delete ws (set_delete ws l) = set_delete ws l.
Proof.
  apply set_delete_notin. intros Hin%set_delete_elem. by destruct Hin.
Qed.

(** A session registered under a name whose conversion to a string throws
    cannot be closed: the log line of the close throws, nothing catches
    it, and the record and the room stay as they are. *)
Lemma close_of_object_named_session_throws :
  let anonymous := VObj 0 None in
  let tr := [(sample_env,
              MessageEvent 1 (Some (Json (join_room (VStr "AB12CD") anonymous))));
             (sample_env,
              MessageEvent 2 (Some (Json (join_room (VStr "AB12CD") (VStr "Bob")))))] in
  let σ := run new_server tr in
  let r := step sample_env σ (CloseEvent 1) in
  uncaught sample_env σ (CloseEvent 1) = true ∧
  rooms r.1 !! VStr "AB12CD" = Some [1; 2] ∧
  is_Some (clients r.1 !! 1) ∧
  r.2 = [].
Proof. vm_compute. split_and!; try done. by eexists. Qed.

(** X4. The close of a connection, on every reachable state.  The records
    of all other sessions are untouched.  For a session without a record,
    or with a record whose name and room code have a text (as every
    primitive value has), the handler returns: the record is dropped, the
    session is a member of no room afterwards; if it was in a room, every
    remaining member whose transport is open is sent [user_left] with the
    name of the leaver and then, after all of those, [user_list] with the
    names of the remaining members; nobody else is sent anything; and a
    second close of the same connection changes nothing and sends nothing.
    For a session whose name or room code has no text the handler throws
    at its log line, uncaught, before anything is done: the record and the
    room stay and nothing is sent. *)
Theorem close_removes_session
    (tr : list (env * event)) (E E' : env) (ws : conn) :
  let σ := run new_server tr in
  let r := step E σ (CloseEvent ws) in
  (∀ w, w ≠ ws → clients r.1 !! w = clients σ !! w) ∧
  (∀ cl, clients σ !! ws = Some cl →
         converts (username cl) = false ∨ converts (roomCode cl) = false →
         uncaught E σ (CloseEvent ws) = true ∧ r = (σ, [])) ∧
  ((∀ cl, clients σ !! ws = Some cl →
          converts (username cl) = true ∧ converts (roomCode cl) = true) →
   uncaught E σ (CloseEvent ws) = false ∧
   clients r.1 !! ws = None ∧
   (∀ code room, rooms r.1 !! code = Some room → ws ∉ room) ∧
   (∀ cl room,
      clients σ !! ws = Some cl → rooms σ !! roomCode cl = Some room →
      let others := set_delete ws room in
      let names := omap (λ c, username <$> clients σ !! c) others in
      r.2 =
        ((λ c, (c, user_left (username cl) (Date_now E))) <$> filter (is_open E) others)
        ++ ((λ c, (c, user_list names)) <$> filter (is_open E) others)) ∧
   (clients σ !! ws = None → r.2 = []) ∧
   step E' r.1 (CloseEvent ws) = (r.1, [])).
Proof.
  intros σ r.
  assert (registry_inv σ) as Hinv by apply run_inv, new_server_inv.
  split_and!.
  - intros w Hne. unfold r, step, on_close. cbn [fst].
    by apply handleDisconnection_other_clients.
  - intros cl Hws Hno. unfold uncaught, r, step, on_close.
    by rewrite (handleDisconnection_thrown E σ ws cl).
  - intros Hconv.
    assert (handleDisconnection E σ ws =
              returns (clients_delete (state (leaveCurrentRoom E σ ws)) ws)
                      (sent (leaveCurrentRoom E σ ws))) as Hclose.
    { destruct (clients σ !! ws) as [cl|] eqn:Hws.
      - destruct (Hconv _ eq_refl). by apply (handleDisconnection_logged E σ ws cl).
      - unfold handleDisconnection. rewrite Hws.
        by rewrite leaveCurrentRoom_unjoined. }
    unfold uncaught, r, step, on_close. rewrite Hclose.
    cbn [fst snd state sent thrown returns].
    split_and!; [done| | | | |].
    + simpl. apply lookup_delete_eq.
    + intros code room Hroom Hin. simpl in Hroom.
      pose proof (leaveCurrentRoom_detached E σ ws Hinv) as Hdet.
      by destruct (det_member _ _ Hdet _ _ _ Hroom Hin) as [? _].
    + intros cl room Hws Hroom. by apply leaveCurrentRoom_packets.
    + intros Hws. by rewrite leaveCurrentRoom_unjoined.
    + unfold handleDisconnection. simpl. rewrite lookup_delete_eq.
      cbn [state sent returns]. f_equal.
      unfold clients_delete. simpl. f_equal.
      * apply delete_id, lookup_delete_eq.
      * apply set_delete_idemp.
Qed.

(** X5. The packets of an accepted join, on every reachable state.  They
    begin with the notices of the leave it implies.  When that leave
    returns and the name and the room code have a text, the joiner is then
    sent [room_joined]; every other member of the target room whose
    transport is open is sent [user_joined]; the joiner is sent the member
    list; and every open member, the joiner once more among them, is sent
    the same member list, which names the other members in their order and
    the joiner last.  When the leave throws, or the name or the room code
    has no text, so that the log line of the join throws, the notices of
    the leave are followed by the error "Invalid message format" to the
    joiner and by nothing else: nobody is told of the join. *)
Theorem join_announcements
    (tr : list (env * event)) (E : env) (ws : conn) (m : message) :
  let σ := run new_server tr in
  m_type m = VStr "join_room" →
  truthy (m_roomCode m) = true → truthy (m_username m) = true →
  let left := leaveCurrentRoom E σ ws in
  let target := own σ (m_roomCode m) in
  let others := set_delete ws (default [] (rooms σ !! target)) in
  let users := omap (λ c, username <$> clients σ !! c) others ++ [m_username m] in
  let r := step E σ (MessageEvent ws (Some (Json m))) in
  (thrown left = false →
   converts (m_username m) = true → converts (m_roomCode m) = true →
   r.2 =
     sent left
     ++ send E ws (room_joined target (m_username m))
     ++ ((λ c, (c, user_joined (m_username m) (Date_now E)))
           <$> filter (is_open E) others)
     ++ send E ws (user_list users)
     ++ ((λ c, (c, user_list users)) <$> filter (is_open E) (others ++ [ws]))) ∧
  (thrown left = true ∨ converts (m_username m) = false
   ∨ converts (m_roomCode m) = false →
   r.2 = sent left ++ send E ws (error "Invalid message format" (Date_now E))).
Proof.
  intros σ Htype Hcode Hname left target others users r.
  assert (registry_inv σ) as Hinv by apply run_inv, new_server_inv.
  assert (accepted m = true) as Hacc by (unfold accepted; by rewrite Hcode, Hname).
  unfold r. rewrite step_join_room by done. cbn [snd].
  rewrite handleJoinRoom_thrown by done. fold left. split.
  - intros Hleft Hn Hc. rewrite Hleft, Hn, Hc. cbn [orb andb negb].
    rewrite app_nil_r, handleJoinRoom_packets by done.
    pose proof (handleJoinRoom_target E σ ws m Hinv Hacc Hleft) as Htarget.
    fold target others in Htarget.
    rewrite (broadcastToRoom_others _ _ _ _ _ _ Htarget).
    rewrite (broadcastToRoom_all _ _ _ _ _ Htarget).
    rewrite handleJoinRoom_users by done. fold target others users.
    rewrite filter_others_open; [done|].
    intros Hin%set_delete_elem. by destruct Hin.
  - intros Hthrown.
    assert (thrown (handleJoinRoom E σ ws m) = true) as Ht.
    { rewrite handleJoinRoom_thrown by done. fold left.
      destruct Hthrown as [-> |[-> | ->]]; [done| |];
        rewrite ?andb_false_r; apply orb_true_r. }
    rewrite handleJoinRoom_packets_thrown by done.
    rewrite handleJoinRoom_thrown in Ht by done. fold left in Ht.
    by rewrite Ht.
Qed.

(** X6. On every reachable state the member list of a room has one name
    per member, in the order of the room: each entry is the name the
    member at that position registered.  The list of a code that is not
    in the registry is empty. *)
Theorem member_list_names_every_member
    (tr : list (env * event)) (code : jsval) :
  let σ := run new_server tr in
  (rooms σ !! code = None → getRoomUsers σ code = []) ∧
  (∀ room, rooms σ !! code = Some room →
     length (getRoomUsers σ code) = length room ∧
     Forall2 (λ c u, username <$> clients σ !! c = Some u)
             room (getRoomUsers σ code)).
Proof.
  intros σ.
  assert (registry_inv σ) as Hinv by apply run_inv, new_server_inv.
  split.
  - intros Habsent. unfold getRoomUsers. by rewrite Habsent.
  - intros room Hroom. rewrite (getRoomUsers_room _ _ _ Hroom).
    assert (Forall (λ c, is_Some (clients σ !! c)) room) as Hall.
    { apply Forall_forall. intros c Hc.
      destruct (inv_member _ Hinv _ _ _ Hroom Hc) as (cl & -> & _). eauto. }
    clear Hroom. induction room as [|c room IH]; [by split; [|constructor]|].
    apply Forall_cons in Hall as [[cl Hcl] Hall].
    destruct (IH Hall) as [IHlen IHall].
    simpl. rewrite Hcl. simpl. split; [by f_equal|].
    constructor; [by rewrite Hcl|done].
Qed.

Lemma close_removes_session_witness :
  let σ := run new_server sample_trace in
  let r := step sample_env σ (CloseEvent 1) in
  uncaught sample_env σ (CloseEvent 1) = false ∧
  clients r.1 !! 1 = None ∧
  r.2 = [(2, user_left (VStr "Alice") 1699999999000);
         (2, user_list [VStr "Bob"])].
Proof.
  intros σ r.
  destruct (close_removes_session sample_trace sample_env sample_env 1)
    as (_ & _ & Hdone).
  destruct Hdone as (Hcaught & Hdropped & _ & Hnotices & _).
  - intros cl Hcl. vm_compute in Hcl. injection Hcl as <-. done.
  - split_and!; [exact Hcaught|exact Hdropped|].
    apply (Hnotices alice [1; 2]); vm_compute; reflexivity.
Defined.

Lemma join_announcements_witness :
  let σ := run new_server sample_trace in
  let m := join_room (VStr "AB12CD") (VStr "Carol") in
  (step sample_env σ (MessageEvent 3 (Some (Json m)))).2 =
    [(3, room_joined (VStr "AB12CD") (VStr "Carol"));
     (1, user_joined (VStr "Carol") 1699999999000);
     (2, user_joined (VStr "Carol") 1699999999000);
     (3, user_list [VStr "Alice"; VStr "Bob"; VStr "Carol"]);
     (1, user_list [VStr "Alice"; VStr "Bob"; VStr "Carol"]);
     (2, user_list [VStr "Alice"; VStr "Bob"; VStr "Carol"]);
     (3, user_list [VStr "Alice"; VStr "Bob"; VStr "Carol"])].
Proof.
  intros σ m.
  destruct (join_announcements sample_trace sample_env 3
              (join_room (VStr "AB12CD") (VStr "Carol"))) as [Hsent _];
    [reflexivity|reflexivity|reflexivity|].
  apply Hsent; vm_compute; reflexivity.
Defined.

Lemma member_list_names_every_member_witness :
  let σ := run new_server sample_trace in
  length (getRoomUsers σ (VStr "AB12CD")) = length [1; 2] ∧
  Forall2 (λ c u, username <$> clients σ !! c = Some u)
          [1; 2] (getRoomUsers σ (VStr "AB12CD")).
Proof.
  intros σ.
  destruct (member_list_names_every_member sample_trace (VStr "AB12CD"))
    as [_ Hroom].
  apply Hroom. vm_compute. reflexivity.
Defined.

(** ** Liveness bookkeeping *)

Section Scan.
Variable E : env.

(** Whether the scan would terminate the session of a record. *)
Lemma cleanup_scan_elem (table : gmap conn client) (keys : list conn) (ws : conn) :
  ws ∈ (cleanup_scan E table keys).1 →
  ws ∈ keys ∧
  ∃ cl, table !! ws = Some cl
        ∧ (cleanup_timeout < Date_now E - lastSeen cl)%Z
        ∧ converts (username cl) = true.
Proof.
  induction keys as [|w keys IH]; cbn [cleanup_scan]; [by intros ?%elem_of_nil|].
  destruct (table !! w) as [cl|] eqn:Hw.
  - destruct (cleanup_timeout <? Date_now E - lastSeen cl)%Z eqn:Hidle.
    + rewrite logs_1. destruct (converts (username cl)) eqn:Hconv;
        [|by intros ?%elem_of_nil].
      simpl. intros [->|Hin]%elem_of_cons.
      * split; [by left|]. apply Z.ltb_lt in Hidle. eauto.
      * destruct (IH Hin) as [? ?]. split; [by right|done].
    + intros Hin. destruct (IH Hin) as [? ?]. split; [by right|done].
  - intros Hin. destruct (IH Hin) as [? ?]. split; [by right|done].
Qed.

(** A scan that does not throw terminates every session that has been
    idle for too long. *)
Lemma cleanup_scan_complete (table : gmap conn client) (keys : list conn)
    (ws : conn) (cl : client) :
  (cleanup_scan E table keys).2 = false →
  ws ∈ keys → table !! ws = Some cl →
  (cleanup_timeout < Date_now E - lastSeen cl)%Z →
  ws ∈ (cleanup_scan E table keys).1.
Proof.
  intros Hreturns Hin Hws Hidle. induction keys as [|w keys IH];
    [by apply elem_of_nil in Hin|].
  cbn [cleanup_scan] in *. destruct (table !! w) as [clw|] eqn:Hw.
  - destruct (cleanup_timeout <? Date_now E - lastSeen clw)%Z eqn:Hidlew.
    + destruct (logs [username clw]); [|done]. simpl in *.
      apply elem_of_cons in Hin as [->|Hin]; [by left|right; by apply IH].
    + apply elem_of_cons in Hin as [->|Hin]; [|by apply IH].
      simplify_eq. apply Z.ltb_ge in Hidlew. lia.
  - apply elem_of_cons in Hin as [->|Hin]; [congruence|by apply IH].
Qed.

(** A scan throws at a session that has been idle for too long and whose
    name has no text, and only there. *)
Lemma cleanup_scan_throws (table : gmap conn client) (keys : list conn) :
  (cleanup_scan E table keys).2 = true ↔
  ∃ ws cl, ws ∈ keys ∧ table !! ws = Some cl
           ∧ (cleanup_timeout < Date_now E - lastSeen cl)%Z
           ∧ converts (username cl) = false.
Proof.
  induction keys as [|w keys IH]; cbn [cleanup_scan].
  { split; [done|]. by intros (? & ? & ?%elem_of_nil & _). }
  assert ((∃ ws cl, ws ∈ keys ∧ table !! ws = Some cl
             ∧ (cleanup_timeout < Date_now E - lastSeen cl)%Z
             ∧ converts (username cl) = false) →
          ∃ ws cl, ws ∈ w :: keys ∧ table !! ws = Some cl
             ∧ (cleanup_timeout < Date_now E - lastSeen cl)%Z
             ∧ converts (username cl) = false) as Hlater.
  { intros (ws & cl & ? & ?). exists ws, cl. split; [by right|done]. }
  destruct (table !! w) as [clw|] eqn:Hw.
  - destruct (cleanup_timeout <? Date_now E - lastSeen clw)%Z eqn:Hidlew.
    + rewrite logs_1. destruct (converts (username clw)) eqn:Hconv; simpl.
      * rewrite IH. split; [done|].
        intros (ws & cl & [->|Hin]%elem_of_cons & Hws & Hidle & Hno);
          [simplify_eq; congruence|eauto 10].
      * split; [|done]. intros _. exists w, clw. apply Z.ltb_lt in Hidlew.
        split_and!; [by left|done|done|done].
    + rewrite IH. split; [done|].
      intros (ws & cl & [->|Hin]%elem_of_cons & Hws & Hidle & Hno);
        [|eauto 10].
      simplify_eq. apply Z.ltb_ge in Hidlew. lia.
  - rewrite IH. split; [done|].
    intros (ws & cl & [->|Hin]%elem_of_cons & Hws & Hidle & Hno);
      [congruence|eauto 10].
Qed.

Lemma cleanup_elem (σ : server) (ws : conn) :
  ws ∈ cleanup E σ →
  ∃ cl, clients σ !! ws = Some cl
        ∧ (cleanup_timeout < Date_now E - lastSeen cl)%Z.
Proof.
  intros (_ & cl & ? & ? & _)%cleanup_scan_elem. eauto.
Qed.

End Scan.

(** A scan of the cleanup timer ends at the first idle session whose name
    has no text: the sessions before it are terminated, it and the
    sessions after it are not. *)
Lemma cleanup_stops_at_object_name :
  let anonymous := VObj 0 None in
  let tr := [(sample_env,
              MessageEvent 1 (Some (Json (join_room (VStr "AB12CD") (VStr "Alice")))));
             (sample_env,
              MessageEvent 2 (Some (Json (join_room (VStr "AB12CD") anonymous))));
             (sample_env,
              MessageEvent 3 (Some (Json (join_room (VStr "AB12CD") (VStr "Carol")))))] in
  let σ := run new_server tr in
  let later := all_open 1700000400000 "lq3k8f2c" in
  clients_keys σ = [1; 2; 3] ∧
  cleanup later σ = [1] ∧
  cleanup_throws later σ = true ∧
  uncaught later σ CleanupTick = true.
Proof. vm_compute. done. Qed.

(** X7. A [ping] of a session with a record is answered with [pong] to that
    session only, leaves the rooms and the session's name and room as they
    are, and sets its [lastSeen] to the clock.  A later scan of the cleanup
    timer terminates the session only if more than 300000 ms (5 minutes)
    have passed since the ping, and then it does, provided the scan does
    not throw; the scan throws exactly when some session has been idle for
    more than 300000 ms under a name that has no text. *)
Theorem ping_postpones_eviction
    (tr : list (env * event)) (E E' : env) (ws : conn) (cl : client) (m : message) :
  let σ := run new_server tr in
  m_type m = VStr "ping" →
  clients σ !! ws = Some cl →
  let r := step E σ (MessageEvent ws (Some (Json m))) in
  r.2 = send E ws (pong (Date_now E)) ∧
  rooms r.1 = rooms σ ∧
  clients r.1 = <[ws := {| username := username cl; roomCode := roomCode cl;
                           lastSeen := Date_now E |}]> (clients σ) ∧
  clients_keys r.1 = clients_keys σ ∧
  (ws ∈ cleanup E' r.1 → (300000 < Date_now E' - Date_now E)%Z) ∧
  (cleanup_throws E' r.1 = false →
   (300000 < Date_now E' - Date_now E)%Z → ws ∈ cleanup E' r.1) ∧
  (cleanup_throws E' r.1 = true ↔
   ∃ w c, clients r.1 !! w = Some c
          ∧ (300000 < Date_now E' - lastSeen c)%Z
          ∧ converts (username c) = false).
Proof.
  intros σ Htype Hws r.
  assert (registry_inv σ) as Hinv by apply run_inv, new_server_inv.
  assert (registry_inv r.1) as Hinv' by by apply step_inv.
  assert (r = ({| rooms := rooms σ;
                  clients := <[ws := {| username := username cl;
                                        roomCode := roomCode cl;
                                        lastSeen := Date_now E |}]> (clients σ);
                  clients_keys := clients_keys σ;
                  objects := objects σ |},
               send E ws (pong (Date_now E)))) as Hr.
  { unfold r, step. rewrite on_message_handled, handleMessage_ping by done.
    unfold handlePing. rewrite Hws. cbn [state sent thrown returns].
    by rewrite app_nil_r. }
  assert (clients r.1 !! ws = Some {| username := username cl;
                                      roomCode := roomCode cl;
                                      lastSeen := Date_now E |}) as Hrecord.
  { rewrite Hr. simpl. apply lookup_insert_eq. }
  assert (ws ∈ clients_keys r.1) as Hkey.
  { apply (inv_keys _ Hinv'). eauto. }
  split_and!; try (by rewrite Hr).
  - intros (cl' & Hcl' & Hidle)%cleanup_elem.
    rewrite Hrecord in Hcl'. by simplify_eq.
  - intros Hreturns Hidle.
    by apply (cleanup_scan_complete E' _ _ ws _ Hreturns Hkey Hrecord).
  - unfold cleanup_throws. rewrite cleanup_scan_throws. split.
    + intros (w & c & _ & ? & ? & ?). eauto.
    + intros (w & c & Hw & ? & ?). exists w, c. split_and!; try done.
      apply (inv_keys _ Hinv'). eauto.
Qed.

Lemma ping_postpones_eviction_witness :
  let m := {| m_type := VStr "ping"; m_roomCode := VUndefined;
              m_username := VUndefined; m_content := VUndefined;
              m_id := VUndefined; m_isTyping := VUndefined |} in
  let E := all_open 1700000100000 "lq3k8f2b" in
  let E' := all_open 1700000400001 "lq3k8f2c" in
  let r := step E (run new_server sample_trace) (MessageEvent 1 (Some (Json m))) in
  r.2 = [(1, pong 1700000100000)] ∧
  1 ∈ cleanup E' r.1.
Proof.
  intros m E E' r.
  destruct (ping_postpones_eviction sample_trace E E' 1 alice m)
    as (Hpong & _ & _ & _ & _ & Hscan & _).
  - reflexivity.
  - vm_compute. reflexivity.
  - split; [exact Hpong|].
    apply Hscan; [vm_compute; reflexivity|vm_compute; reflexivity].
Defined.

(** X8. Chat and typing messages are not counted as activity: whatever
    their content and whoever sends them, they leave the whole server
    state, every [lastSeen] included, as it was, so the next scan of the
    cleanup timer terminates the same connections as it would have
    without them. *)
Theorem chat_and_typing_do_not_refresh
    (E E' : env) (σ : server) (ws : conn) (m : message) :
  m_type m = VStr "chat_message" ∨ m_type m = VStr "typing" →
  (step E σ (MessageEvent ws (Some (Json m)))).1 = σ ∧
  cleanup E' (step E σ (MessageEvent ws (Some (Json m)))).1 = cleanup E' σ.
Proof.
  intros Htype.
  assert ((step E σ (MessageEvent ws (Some (Json m)))).1 = σ) as Hsame.
  { unfold step. rewrite on_message_state.
    destruct Htype as [Htype|Htype].
    - rewrite handleMessage_chat by done. apply handleChatMessage_state.
    - rewrite handleMessage_typing by done. apply handleTyping_state. }
  by rewrite Hsame.
Qed.

Lemma chat_and_typing_do_not_refresh_witness :
  let E' := all_open 1700000400000 "lq3k8f2c" in
  let σ := run new_server sample_trace in
  (step sample_env σ (MessageEvent 1 (Some (Json sample_chat)))).1 = σ ∧
  cleanup E' (step sample_env σ (MessageEvent 1 (Some (Json sample_chat)))).1
    = cleanup E' σ.
Proof.
  apply (chat_and_typing_do_not_refresh sample_env
           (all_open 1700000400000 "lq3k8f2c")
           (run new_server sample_trace) 1 sample_chat).
  left. reflexivity.
Defined.

Lemma step_keeps_unregistered (E : env) (σ : server) (ws : conn) (ev : event) :
  is_accepted_join ws ev = false →
  clients σ !! ws = None → clients (step E σ ev).1 !! ws = None.
Proof.
  intros Hev Hws. destruct ev as [w|w [[|m]|]|w|w|]; try done.
  - unfold step. rewrite on_message_state. unfold handleMessage.
    repeat case_decide.
    + destruct (decide (w = ws)) as [->|Hne].
      * simpl in Hev. rewrite !bool_decide_eq_true_2 in Hev by done.
        by rewrite handleJoinRoom_rejected.
      * by rewrite handleJoinRoom_other_clients.
    + by rewrite handleChatMessage_state.
    + by rewrite handleTyping_state.
    + unfold handlePing. destruct (clients σ !! w) as [cl|] eqn:Hw; [|done].
      simpl. rewrite lookup_insert_ne; [done|]. by intros ->; simplify_eq.
    + done.
  - unfold step, on_close. cbn [fst].
    destruct (decide (w = ws)) as [->|Hne].
    + unfold handleDisconnection. rewrite Hws. simpl. apply lookup_delete_eq.
    + by rewrite handleDisconnection_other_clients.
Qed.

(** X9. The cleanup timer only looks at sessions that have joined: a
    connection none of whose messages so far was an accepted [join_room]
    has no record, is a member of no room and is terminated by no scan,
    however long it has been idle. *)
Theorem never_joined_never_evicted
    (tr : list (env * event)) (E : env) (ws : conn) :
  Forall (λ a, is_accepted_join ws a.2 = false) tr →
  let σ := run new_server tr in
  clients σ !! ws = None ∧
  (∀ code room, rooms σ !! code = Some room → ws ∉ room) ∧
  ws ∉ cleanup E σ.
Proof.
  intros Hall σ.
  assert (∀ σ0, clients σ0 !! ws = None → clients (run σ0 tr) !! ws = None)
    as Hrun.
  { induction tr as [|[E0 ev] tr' IH]; intros σ0 Hσ0; simpl; [done|].
    apply Forall_cons in Hall as [Hev Hall].
    apply IH; [done|]. by apply step_keeps_unregistered. }
  assert (clients σ !! ws = None) as Hnone by by apply Hrun.
  assert (registry_inv σ) as Hinv by apply run_inv, new_server_inv.
  split_and!; [done| |].
  - intros code room Hroom Hin.
    destruct (inv_member _ Hinv _ _ _ Hroom Hin) as (cl & Hcl & _). congruence.
  - intros (cl & Hcl & _)%cleanup_elem. congruence.
Qed.

Lemma never_joined_never_evicted_witness :
  let tr := sample_trace ++ [(sample_env, Connection 5);
                             (sample_env, MessageEvent 5 (Some (Json sample_typing)))] in
  let σ := run new_server tr in
  clients σ !! 5 = None ∧
  (∀ code room, rooms σ !! code = Some room → 5 ∉ room) ∧
  5 ∉ cleanup (all_open 1800000000000 "m0") σ.
Proof.
  apply (never_joined_never_evicted
           (sample_trace ++ [(sample_env, Connection 5);
                             (sample_env, MessageEvent 5 (Some (Json sample_typing)))])
           (all_open 1800000000000 "m0") 5).
  repeat constructor.
Defined.

(** * Further properties of the browser's connection manager *)

Local Open Scope Z_scope.

Section ReconnectBudget.
Import WebSocketService.

Lemma step_attempts_bounded s ev :
  0 ≤ reconnectAttempts s ≤ maxReconnectAttempts s →
  0 ≤ reconnectAttempts (step s ev).1 ≤ maxReconnectAttempts (step s ev).1.
Proof.
  intros Hb. destruct ev as [h|code|]; simpl.
  - lia.
  - unfold handleClose. simpl.
    destruct (negb (code =? 1000) && (reconnectAttempts s <? maxReconnectAttempts s))
      eqn:Hc; simpl; [|done].
    apply andb_true_iff in Hc as [_ Hlt%Z.ltb_lt]. lia.
  - unfold reconnect_timer_fired. by case_match.
Qed.

Lemma run_attempts_bounded tr s :
  0 ≤ reconnectAttempts s ≤ maxReconnectAttempts s →
  0 ≤ reconnectAttempts (run s tr) ≤ maxReconnectAttempts (run s tr).
Proof.
  revert s. induction tr as [|ev tr IH]; intros s Hb; simpl; [done|].
  apply IH. by apply step_attempts_bounded.
Qed.

(** The timers one step sets: none, or the one of [attemptReconnect]. *)
Lemma step_scheduled s ev :
  scheduled_reconnect (step s ev).2 =
    match ev with
    | close_event code =>
        if negb (code =? 1000) && (reconnectAttempts s <? maxReconnectAttempts s)
        then [reconnectDelay s * 2 ^ (reconnectAttempts s + 1 - 1)] else []
    | _ => []
    end.
Proof.
  destruct ev as [h|code|]; simpl.
  - unfold handleOpen, startHeartbeat, stopHeartbeat. simpl.
    by repeat case_match.
  - unfold handleClose, stopHeartbeat, attemptReconnect, Math_pow2. simpl.
    by repeat case_match.
  - unfold reconnect_timer_fired. by case_match.
Qed.

Lemma effects_scheduled_bounded tr s :
  0 ≤ reconnectAttempts s ≤ maxReconnectAttempts s →
  Forall (λ d, ∃ k, 0 ≤ k < maxReconnectAttempts s ∧ d = reconnectDelay s * 2 ^ k)
         (scheduled_reconnect (effects s tr)).
Proof.
  revert s. induction tr as [|ev tr IH]; intros s Hb; simpl; [constructor|].
  rewrite scheduled_reconnect_app. apply Forall_app. split.
  - rewrite step_scheduled. destruct ev as [h|code|]; try constructor.
    destruct (negb (code =? 1000) && (reconnectAttempts s <? maxReconnectAttempts s))
      eqn:Hc; constructor; [|constructor].
    apply andb_true_iff in Hc as [_ Hlt%Z.ltb_lt].
    exists (reconnectAttempts s). split; [lia|]. do 2 f_equal. lia.
  - destruct (service_step_config s ev) as [Hmax Hdel].
    rewrite <- Hmax, <- Hdel. apply IH. by apply step_attempts_bounded.
Qed.

(** X10. In every run of the service from its constructor the attempt
    counter stays between 0 and the budget of 5, and every reconnect
    timer that is ever set has one of the delays 1000, 2000, 4000, 8000
    or 16000 ms: no delay is shorter than a second or longer than
    sixteen. *)
Theorem reconnect_counter_and_delays_bounded (tr : list event) :
  0 ≤ reconnectAttempts (run constructor tr) ≤ 5 ∧
  Forall (λ d, d ∈ [1000; 2000; 4000; 8000; 16000])
         (scheduled_reconnect (effects constructor tr)).
Proof.
  split.
  - pose proof (run_attempts_bounded tr constructor) as Hb.
    destruct (service_run_config tr constructor) as [Hmax _].
    rewrite Hmax in Hb. simpl in Hb. lia.
  - eapply Forall_impl; [apply effects_scheduled_bounded; simpl; lia|].
    simpl. intros d (k & Hk & ->).
    assert (k = 0 ∨ k = 1 ∨ k = 2 ∨ k = 3 ∨ k = 4) as Hcases by lia.
    destruct Hcases as [->|[->|[->|[->| ->]]]]; simpl;
      repeat (first [by left | right]).
Qed.

(** X11. What a close does to a service with the configuration of the
    constructor (a budget of 5 attempts, a delay of 1000 ms), whatever
    its other fields hold.  In this order and with no effect besides: the
    close is logged, the heartbeat interval is cleared with
    [clearInterval] if one is held, the heartbeat timeout with
    [clearTimeout] if one is held, and the connection listeners are told
    [false]; the service is marked disconnected and holds no handle
    afterwards.  When the close code is not 1000 and fewer than 5
    attempts have been counted, the counter then goes up by one, the
    attempt is logged and one reconnect timer is set, with the delay 1000
    times 2 to the old count; a clean close, or a close with the budget
    used up, does no more and leaves the counter alone. *)
Theorem close_stops_heartbeat_and_counts (s : service) (code : Z) :
  maxReconnectAttempts s = 5 → reconnectDelay s = 1000 →
  let r := handleClose code s in
  let cleared :=
    match heartbeatInterval s with Some h => [clearInterval h] | None => [] end
    ++ match heartbeatTimeout s with Some h => [clearTimeout h] | None => [] end in
  let stopped :=
    [console_log "WebSocket disconnected:"] ++ cleared
    ++ [notifyConnectionListeners false] in
  isConnected r.1 = false ∧
  heartbeatInterval r.1 = None ∧ heartbeatTimeout r.1 = None ∧
  maxReconnectAttempts r.1 = 5 ∧ reconnectDelay r.1 = 1000 ∧
  (code ≠ 1000 ∧ reconnectAttempts s < 5 →
   reconnectAttempts r.1 = reconnectAttempts s + 1 ∧
   r.2 = stopped ++ [console_log "Attempting to reconnect";
                     setTimeout reconnect_timer (1000 * 2 ^ reconnectAttempts s)]) ∧
  (code = 1000 ∨ 5 ≤ reconnectAttempts s →
   reconnectAttempts r.1 = reconnectAttempts s ∧ r.2 = stopped).
Proof.
  intros Hmax Hdel r cleared stopped.
  unfold r, handleClose, stopHeartbeat, attemptReconnect, Math_pow2.
  cbn [fst snd isConnected reconnectAttempts maxReconnectAttempts reconnectDelay
       heartbeatInterval heartbeatTimeout].
  rewrite Hmax, Hdel.
  destruct (negb (code =? 1000) && (reconnectAttempts s <? 5)) eqn:Hc;
    cbn [fst snd isConnected reconnectAttempts maxReconnectAttempts
         reconnectDelay heartbeatInterval heartbeatTimeout];
    split_and!; try done.
  - intros _. split; [done|].
    by replace (reconnectAttempts s + 1 - 1) with (reconnectAttempts s) by lia.
  - apply andb_true_iff in Hc as [Hcode%negb_true_iff%Z.eqb_neq Hlt%Z.ltb_lt].
    intros [?|?]; [done|lia].
  - apply andb_false_iff in Hc as [Hcode%negb_false_iff%Z.eqb_eq|Hge%Z.ltb_ge];
      intros [? ?]; [done|lia].
Qed.

(** X12. An open event on a service with the configuration of the
    constructor, whatever its other fields hold.  In this order and with
    no effect besides: the open is logged, the heartbeat handles it held
    are cleared, one heartbeat interval of 30000 ms is started, and the
    listeners are told [true].  The service is marked connected, its
    attempt counter is back at 0, it holds the handle of the new interval
    and no timeout.  The next unclean close therefore clears that
    interval and waits 1000 ms again, whatever the counter was before. *)
Theorem open_resets_reconnect_budget (s : service) (handle : nat) (code : Z) :
  maxReconnectAttempts s = 5 → reconnectDelay s = 1000 →
  let r := handleOpen handle s in
  let cleared :=
    match heartbeatInterval s with Some h => [clearInterval h] | None => [] end
    ++ match heartbeatTimeout s with Some h => [clearTimeout h] | None => [] end in
  r.1 = {| isConnected := true; reconnectAttempts := 0;
           maxReconnectAttempts := 5; reconnectDelay := 1000;
           heartbeatInterval := Some handle; heartbeatTimeout := None |} ∧
  r.2 = [console_log "WebSocket connected"] ++ cleared
        ++ [setInterval heartbeat_tick 30000; notifyConnectionListeners true] ∧
  (code ≠ 1000 →
   handleClose code r.1 =
     ({| isConnected := false; reconnectAttempts := 1;
         maxReconnectAttempts := 5; reconnectDelay := 1000;
         heartbeatInterval := None; heartbeatTimeout := None |},
      [console_log "WebSocket disconnected:"; clearInterval handle;
       notifyConnectionListeners false; console_log "Attempting to reconnect";
       setTimeout reconnect_timer 1000])).
Proof.
  intros Hmax Hdel r cleared.
  assert (r.1 = {| isConnected := true; reconnectAttempts := 0;
                   maxReconnectAttempts := 5; reconnectDelay := 1000;
                   heartbeatInterval := Some handle; heartbeatTimeout := None |})
    as Hstate.
  { unfold r, handleOpen, startHeartbeat, stopHeartbeat. simpl.
    by rewrite Hmax, Hdel. }
  split_and!; [done| |].
  - unfold r, cleared, handleOpen, startHeartbeat, stopHeartbeat,
      config_heartbeatInterval. simpl. by rewrite <- !app_assoc.
  - intros Hcode. rewrite Hstate.
    unfold handleClose, stopHeartbeat, attemptReconnect, Math_pow2. simpl.
    by rewrite (proj2 (Z.eqb_neq code 1000)).
Qed.

Lemma close_stops_heartbeat_and_counts_witness :
  let opened :=
    {| WebSocketTransport.service := (handleOpen 7%nat constructor).1;
       WebSocketTransport.socket := Some 1%nat |} in
  let s := WebSocketTransport.service
             (WebSocketTransport.heartbeat_tick (λ _, OPEN) 8%nat opened).1 in
  reconnectAttempts (handleClose 1006 s).1 = 1 ∧
  (handleClose 1006 s).2 =
    [console_log "WebSocket disconnected:"; clearInterval 7%nat; clearTimeout 8%nat;
     notifyConnectionListeners false; console_log "Attempting to reconnect";
     setTimeout reconnect_timer 1000].
Proof.
  intros opened s.
  destruct (close_stops_heartbeat_and_counts s 1006)
    as (_ & _ & _ & _ & _ & Hunclean & _); [reflexivity|reflexivity|].
  apply Hunclean. split; [discriminate|reflexivity].
Defined.

Lemma open_resets_reconnect_budget_witness :
  let s := run constructor [open_event 7%nat; close_event 1006; close_event 1006] in
  reconnectAttempts s = 2 ∧
  (handleOpen 9%nat s).2 =
    [console_log "WebSocket connected"; setInterval heartbeat_tick 30000;
     notifyConnectionListeners true] ∧
  (handleClose 1006 (handleOpen 9%nat s).1).2 =
    [console_log "WebSocket disconnected:"; clearInterval 9%nat;
     notifyConnectionListeners false; console_log "Attempting to reconnect";
     setTimeout reconnect_timer 1000].
Proof.
  intros s.
  destruct (open_resets_reconnect_budget s 9%nat 1006)
    as (_ & Heffects & Hnext); [reflexivity|reflexivity|].
  split_and!; [reflexivity|exact Heffects|].
  by rewrite Hnext.
Defined.

End ReconnectBudget.

(** * Properties of the utility functions *)

Local Close Scope Z_scope.

Lemma string_forall_append (p : ascii → bool) (s t : string) :
  string_forall p (String.append s t) = string_forall p s && string_forall p t.
Proof.
  induction s as [|c s IH]; simpl; [done|]. by rewrite IH, andb_assoc.
Qed.

Lemma String_length_append (s t : string) :
  String.length (String.append s t) = String.length s + String.length t.
Proof. induction s as [|c s IH]; simpl; [done|]. by rewrite IH. Qed.

Lemma String_append_assoc (a b c : string) :
  String.append (String.append a b) c = String.append a (String.append b c).
Proof.
  induction a as [|x a IH]; [done|].
  change (String x (String.append (String.append a b) c)
          = String x (String.append a (String.append b c))).
  by rewrite IH.
Qed.

(** Every character of the alphabet of room codes is an upper-case letter
    or a digit. *)
Lemma charAt_room_code_character (i : nat) :
  i < 36 →
  String.length (charAt room_code_characters i) = 1 ∧
  string_forall (λ c, is_upper c || is_digit c) (charAt room_code_characters i) = true.
Proof.
  intros Hi. do 36 (destruct i as [|i]; [by vm_compute|]). lia.
Qed.

Lemma generateRoomCode_loop_spec (draw : nat → nat) (rounds i : nat) (result : string) :
  (∀ j, draw j < 36) →
  String.length (generateRoomCode_loop draw rounds i result)
    = String.length result + rounds ∧
  string_forall (λ c, is_upper c || is_digit c)
    (generateRoomCode_loop draw rounds i result)
    = string_forall (λ c, is_upper c || is_digit c) result.
Proof.
  intros Hdraw. revert i result.
  induction rounds as [|rounds IH]; intros i result; simpl.
  - split; [lia|done].
  - destruct (IH (S i) (String.append result (charAt room_code_characters (draw i))))
      as [Hlen Hall].
    destruct (charAt_room_code_character (draw i) (Hdraw i)) as [Hlen1 Hall1].
    rewrite Hlen, Hall, String_length_append, string_forall_append, Hlen1, Hall1.
    split; [lia|apply andb_true_r].
Qed.

Ltac each_ascii c := destruct c as [[] [] [] [] [] [] [] []].

(** An upper-case letter or a digit is its own upper-case form. *)
Lemma char_toUpperCase_fixed (c : ascii) :
  is_upper c || is_digit c = true → char_toUpperCase c = String c EmptyString.
Proof. each_ascii c; first [done | by intros _]. Qed.

Lemma toUpperCase_fixed (s : string) :
  string_forall (λ c, is_upper c || is_digit c) s = true → toUpperCase s = s.
Proof.
  induction s as [|c s IH]; [done|]. cbn [string_forall toUpperCase].
  intros [Hc Hs]%andb_true_iff. by rewrite char_toUpperCase_fixed, IH.
Qed.

Lemma toUpperCase_append (s t : string) :
  toUpperCase (String.append s t)
  = String.append (toUpperCase s) (toUpperCase t).
Proof.
  induction s as [|c s IH]; [done|].
  change (toUpperCase (String.append (String c s) t))
    with (String.append (char_toUpperCase c) (toUpperCase (String.append s t))).
  change (toUpperCase (String c s))
    with (String.append (char_toUpperCase c) (toUpperCase s)).
  by rewrite IH, String_append_assoc.
Qed.

(** The upper-case form is longer by one for every sharp s. *)
Lemma char_toUpperCase_length (c : ascii) :
  String.length (char_toUpperCase c) = if is_sharp_s c then 2 else 1.
Proof. each_ascii c; reflexivity. Qed.

Lemma toUpperCase_length (s : string) :
  String.length (toUpperCase s)
  = String.length s + String.length (string_filter is_sharp_s s).
Proof.
  induction s as [|c s IH]; [done|].
  change (toUpperCase (String c s))
    with (String.append (char_toUpperCase c) (toUpperCase s)).
  rewrite String_length_append, char_toUpperCase_length, IH.
  cbn [string_filter String.length]. destruct (is_sharp_s c); simpl; lia.
Qed.

(** X13. Whatever [Math.random] returns, [generateRoomCode(length)] is a
    string of exactly [length] upper-case letters and digits; with the
    default length 6 it is a code that [validateRoomCode] accepts and that
    [ChatService.connect] sends to the server unchanged. *)
Theorem generated_room_code_is_valid (length : nat) (draw : nat → nat) (name : jsval) :
  (∀ i, draw i < 36) →
  String.length (generateRoomCode length draw) = length ∧
  string_forall (λ c, is_upper c || is_digit c) (generateRoomCode length draw) = true ∧
  (length = 6 →
   validateRoomCode (VStr (generateRoomCode length draw)) = true ∧
   (validateUsername name = true →
    ∃ n, ChatService.join_request (VStr (generateRoomCode length draw)) name
         = Some (join_room (VStr (generateRoomCode length draw)) (VStr n)))).
Proof.
  intros Hdraw.
  destruct (generateRoomCode_loop_spec draw length 0 EmptyString Hdraw)
    as [Hlen Hall].
  fold (generateRoomCode length draw) in Hlen, Hall. simpl in Hlen, Hall.
  split_and!; [done|done|].
  intros ->.
  assert (validateRoomCode (VStr (generateRoomCode 6 draw)) = true) as Hvalid.
  { simpl. destruct (generateRoomCode 6 draw) as [|c s] eqn:Hcode; [done|].
    simpl negb. cbn iota. unfold regex_room_code.
    rewrite toUpperCase_fixed, Hlen by done.
    by rewrite Hall. }
  split; [done|]. intros Hname.
  unfold ChatService.join_request. rewrite Hvalid, Hname. simpl.
  destruct name as [| | | |n|]; try done.
  exists (trim n). by rewrite toUpperCase_fixed.
Qed.

Lemma generated_room_code_is_valid_witness :
  let draw := λ i, (7 * i + 3) mod 36 in
  String.length (generateRoomCode 6 draw) = 6 ∧
  string_forall (λ c, is_upper c || is_digit c) (generateRoomCode 6 draw) = true ∧
  (6 = 6 →
   validateRoomCode (VStr (generateRoomCode 6 draw)) = true ∧
   (validateUsername (VStr "Alice") = true →
    ∃ n, ChatService.join_request (VStr (generateRoomCode 6 draw)) (VStr "Alice")
         = Some (join_room (VStr (generateRoomCode 6 draw)) (VStr n)))).
Proof.
  apply (generated_room_code_is_valid 6 (λ i, (7 * i + 3) mod 36) (VStr "Alice")).
  intros i. apply Nat.mod_upper_bound. discriminate.
Defined.

Lemma char_toUpperCase_class (c : ascii) :
  string_forall (λ x, is_upper x || is_digit x) (char_toUpperCase c)
  = is_alphanumeric c || is_sharp_s c.
Proof. each_ascii c; reflexivity. Qed.

Lemma toUpperCase_class (s : string) :
  string_forall (λ c, is_upper c || is_digit c) (toUpperCase s)
  = string_forall (λ c, is_alphanumeric c || is_sharp_s c) s.
Proof.
  induction s as [|c s IH]; [done|].
  change (toUpperCase (String c s))
    with (String.append (char_toUpperCase c) (toUpperCase s)).
  rewrite string_forall_append, char_toUpperCase_class, IH. done.
Qed.

Lemma char_toUpperCase_idemp (c : ascii) :
  toUpperCase (char_toUpperCase c) = char_toUpperCase c.
Proof. each_ascii c; reflexivity. Qed.

Lemma toUpperCase_idemp (s : string) : toUpperCase (toUpperCase s) = toUpperCase s.
Proof.
  induction s as [|c s IH]; [done|].
  change (toUpperCase (String c s))
    with (String.append (char_toUpperCase c) (toUpperCase s)).
  by rewrite toUpperCase_append, char_toUpperCase_idemp, IH.
Qed.

Lemma alphanumeric_no_sharp_s (s : string) :
  string_forall is_alphanumeric s = true →
  string_filter is_sharp_s s = EmptyString ∧
  string_forall (λ c, is_alphanumeric c || is_sharp_s c) s = true.
Proof.
  induction s as [|c s IH]; [done|]. cbn [string_forall string_filter].
  intros [Hc Hs]%andb_true_iff. destruct (IH Hs) as [-> ->]. rewrite Hc.
  split; [|done]. revert Hc. clear. each_ascii c; done.
Qed.

(** X14. On strings of characters up to U+00FF, [validateRoomCode] accepts
    exactly the strings made of ASCII letters, ASCII digits and the sharp
    s U+00DF whose length, with every sharp s counted twice, is 6: the
    test is made on the upper-case form, and the upper-case form of a
    sharp s is "SS".  So every string of six ASCII letters or digits, in
    either case, is accepted; a string with a sharp s is accepted with
    fewer than six characters; nothing that is not a string is accepted;
    and upper-casing a value never changes the verdict. *)
Theorem room_code_validation_is_case_insensitive (v : jsval) (s : string) :
  (validateRoomCode v = true ↔
   ∃ t, v = VStr t
        ∧ String.length t + String.length (string_filter is_sharp_s t) = 6
        ∧ string_forall (λ c, is_alphanumeric c || is_sharp_s c) t = true) ∧
  (String.length s = 6 → string_forall is_alphanumeric s = true →
   validateRoomCode (VStr s) = true) ∧
  validateRoomCode (VStr (toUpperCase s)) = validateRoomCode (VStr s).
Proof.
  assert (∀ t, validateRoomCode (VStr t) =
               (String.length t + String.length (string_filter is_sharp_s t) =? 6)
               && string_forall (λ c, is_alphanumeric c || is_sharp_s c) t) as Hstr.
  { intros t. simpl. destruct t as [|c t]; [done|]. simpl negb. cbn iota.
    unfold regex_room_code. by rewrite toUpperCase_length, toUpperCase_class. }
  split_and!.
  - split.
    + destruct v as [| | | |t|]; try done. rewrite Hstr.
      intros [Hlen%Nat.eqb_eq Hall]%andb_true_iff. eauto.
    + intros (t & -> & Hlen & Hall). rewrite Hstr, Hall.
      by rewrite (proj2 (Nat.eqb_eq _ _) Hlen).
  - intros Hlen Hall. rewrite Hstr.
    destruct (alphanumeric_no_sharp_s s Hall) as [-> ->].
    simpl. by rewrite Nat.add_0_r, Hlen.
  - assert (∀ t, validateRoomCode (VStr t) = regex_room_code (toUpperCase t))
      as Hregex.
    { intros t. simpl. by destruct t. }
    by rewrite !Hregex, toUpperCase_idemp.
Qed.

Lemma string_filter_forall (p : ascii → bool) (s : string) :
  string_forall p (string_filter p s) = true.
Proof.
  induction s as [|c s IH]; simpl; [done|].
  destruct (p c) eqn:Hc; simpl; [by rewrite Hc|done].
Qed.

Lemma string_filter_fixed (p : ascii → bool) (s : string) :
  string_forall p s = true → string_filter p s = s.
Proof.
  induction s as [|c s IH]; simpl; [done|].
  intros [-> Hs]%andb_true_iff. by rewrite IH.
Qed.

(** X15. The formatting of the room code field keeps only upper-case
    letters and digits, so formatting twice is formatting once; a
    formatted value of six characters is a valid room code, and a valid
    room code is changed by the formatting only in its case. *)
Theorem room_code_input_formatting (value : string) :
  string_forall (λ c, is_upper c || is_digit c) (format_room_code_input value) = true ∧
  format_room_code_input (format_room_code_input value) = format_room_code_input value ∧
  (String.length (format_room_code_input value) = 6 →
   validateRoomCode (VStr (format_room_code_input value)) = true) ∧
  (validateRoomCode (VStr value) = true →
   format_room_code_input value = toUpperCase value).
Proof.
  assert (string_forall (λ c, is_upper c || is_digit c)
            (format_room_code_input value) = true) as Hall
    by apply string_filter_forall.
  split_and!.
  - done.
  - unfold format_room_code_input at 1.
    rewrite toUpperCase_fixed by done. by apply string_filter_fixed.
  - intros Hlen. simpl.
    destruct (format_room_code_input value) as [|c t] eqn:Hf; [done|].
    simpl negb. cbn iota. unfold regex_room_code.
    rewrite toUpperCase_fixed, Hlen by done. by rewrite Hall.
  - simpl. destruct value as [|c t]; [done|]. simpl negb. cbn iota.
    unfold regex_room_code. intros [_ Hup]%andb_true_iff.
    unfold format_room_code_input. by apply string_filter_fixed.
Qed.

Lemma room_code_input_formatting_witness :
  validateRoomCode (VStr (format_room_code_input "ab-12 cd")) = true.
Proof.
  destruct (room_code_input_formatting "ab-12 cd") as (_ & _ & Hsix & _).
  apply Hsix. reflexivity.
Defined.

(** [trim] *)

Lemma trimStart_head (s : string) :
  match trimStart s with
  | EmptyString => True
  | String c _ => is_white_space c = false
  end.
Proof.
  induction s as [|c s IH]; simpl; [done|].
  destruct (is_white_space c) eqn:Hc; [done|]. simpl. done.
Qed.

Lemma trimEnd_head (c : ascii) (s : string) :
  is_white_space c = false → ∃ r, trimEnd (String c s) = String c r.
Proof.
  intros Hc. simpl. destruct (trimEnd s); rewrite ?Hc; eauto.
Qed.

Lemma trimEnd_idemp (s : string) : trimEnd (trimEnd s) = trimEnd s.
Proof.
  induction s as [|c s IH]; simpl; [done|].
  destruct (trimEnd s) as [|c' r] eqn:Hr.
  - destruct (is_white_space c) eqn:Hc; simpl; [done|]. by rewrite Hc.
  - simpl. simpl in IH. destruct (trimEnd r) as [|c'' r'] eqn:Hr'.
    + destruct (is_white_space c') eqn:Hc'; [done|]. by rewrite IH.
    + by rewrite IH.
Qed.

Lemma trim_idemp (s : string) : trim (trim s) = trim s.
Proof.
  unfold trim. pose proof (trimStart_head s) as Hhead.
  destruct (trimStart s) as [|c r] eqn:Hs; [done|].
  destruct (trimEnd_head c r Hhead) as [r' Hr']. rewrite Hr'.
  simpl trimStart. rewrite Hhead. rewrite <- Hr'. apply trimEnd_idemp.
Qed.

(** X16. On strings of characters up to U+00FF, [validateUsername] accepts
    exactly the strings whose trimmed form has 1 to 20 characters, each
    an ASCII letter, an ASCII digit, a hyphen, an underscore or a white
    space character of JavaScript: TAB, LF, VT, FF, CR, the space or the
    no-break space U+00A0.  [trim] strips those same white space
    characters, so white space around the name, no-break spaces included,
    makes no difference, and the trimmed name, which is what is sent to
    the server, is valid whenever the name is. *)
Theorem username_validation_ignores_outer_space (v : jsval) (s : string) :
  (validateUsername v = true ↔
   ∃ t, v = VStr t ∧ 1 ≤ String.length (trim t) ≤ 20
        ∧ string_forall is_username_char (trim t) = true) ∧
  validateUsername (VStr (trim s)) = validateUsername (VStr s).
Proof.
  assert (∀ t, validateUsername (VStr t) =
               (1 <=? String.length (trim t)) && (String.length (trim t) <=? 20)
               && string_forall is_username_char (trim t)) as Hstr.
  { intros t. destruct t as [|c t]; [done|].
    unfold validateUsername, regex_username. fold is_username_char.
    change (truthy (VStr (String c t))) with true. cbn [negb].
    generalize (String.length (trim (String c t))).
    generalize (string_forall is_username_char (trim (String c t))).
    intros b n.
    destruct (Nat.ltb_spec n 1), (Nat.ltb_spec 20 n), (Nat.leb_spec 1 n),
      (Nat.leb_spec n 20), (Nat.eqb_spec n 0); simpl; try lia; done. }
  split.
  - split.
    + destruct v as [| | | |t|]; try done. rewrite Hstr.
      intros [[Hlo%Nat.leb_le Hhi%Nat.leb_le]%andb_true_iff Hall]%andb_true_iff.
      eauto.
    + intros (t & -> & [Hlo Hhi] & Hall). rewrite Hstr, Hall.
      by rewrite (proj2 (Nat.leb_le _ _) Hlo), (proj2 (Nat.leb_le _ _) Hhi).
  - by rewrite !Hstr, trim_idemp.
Qed.

Lemma room_code_validation_is_case_insensitive_witness :
  let sharp := String.append "abcd" (String (ascii_of_nat 223) EmptyString) in
  String.length sharp = 5 ∧
  toUpperCase sharp = "ABCDSS" ∧
  validateRoomCode (VStr sharp) = true ∧
  validateRoomCode (VStr "ab12cd") = true.
Proof.
  intros sharp.
  destruct (room_code_validation_is_case_insensitive (VStr sharp) "ab12cd")
    as (Hiff & Hsix & _).
  split_and!; [reflexivity|reflexivity| |].
  - apply Hiff. exists sharp. split_and!; reflexivity.
  - apply Hsix; reflexivity.
Defined.

Lemma username_validation_ignores_outer_space_witness :
  let padded :=
    String no_break_space (String.append " Alice B" (String no_break_space " ")) in
  trim padded = "Alice B" ∧
  validateUsername (VStr padded) = true ∧
  validateUsername (VStr (trim padded)) = validateUsername (VStr padded).
Proof.
  intros padded.
  destruct (username_validation_ignores_outer_space (VStr padded) padded)
    as (Hiff & Hsame).
  split_and!; [reflexivity| |exact Hsame].
  apply Hiff. exists padded. split_and!; [reflexivity|vm_compute; lia| |reflexivity].
  vm_compute. lia.
Defined.

(** [escapeHTML] *)

Lemma string_flat_map_append (f : ascii → string) (s t : string) :
  string_flat_map f (String.append s t)
  = String.append (string_flat_map f s) (string_flat_map f t).
Proof.
  induction s as [|c s IH]; simpl; [done|].
  rewrite IH. symmetry. apply String_append_assoc.
Qed.

Lemma string_flat_map_compose (f g : ascii → string) (s : string) :
  string_flat_map g (string_flat_map f s)
  = string_flat_map (λ c, string_flat_map g (f c)) s.
Proof.
  induction s as [|c s IH]; simpl; [done|].
  by rewrite string_flat_map_append, IH.
Qed.

Lemma String_append_nil_r (s : string) : String.append s EmptyString = s.
Proof.
  induction s as [|x s IH]; [done|].
  change (String x (String.append s EmptyString) = String x s). by rewrite IH.
Qed.

Lemma string_flat_map_single (f : ascii → string) (c : ascii) :
  string_flat_map f (String c EmptyString) = f c.
Proof. apply String_append_nil_r. Qed.

Lemma string_flat_map_ext (f g : ascii → string) (s : string) :
  (∀ c, f c = g c) → string_flat_map f s = string_flat_map g s.
Proof.
  intros Hfg. induction s as [|c s IH]; simpl; [done|]. by rewrite Hfg, IH.
Qed.

Lemma replace_all_flat_map (c : ascii) (by_ s : string) :
  replace_all c by_ s
  = string_flat_map (λ x, if Ascii.eqb x c then by_ else String x EmptyString) s.
Proof. induction s as [|x s IH]; simpl; [done|]. by rewrite IH. Qed.

Lemma escape_char_composed (c : ascii) :
  replace_all "'" "&#39;"
    (replace_all double_quote "&quot;"
       (replace_all ">" "&gt;"
          (replace_all "<" "&lt;"
             (replace_all "&" "&amp;" (String c EmptyString)))))
  = escape_char c.
Proof. each_ascii c; reflexivity. Qed.

Lemma escape_char_safe (c : ascii) :
  string_forall (λ x, negb (is_html_special x)) (escape_char c) = true.
Proof. each_ascii c; reflexivity. Qed.

(** X17. [escapeHTML] escapes every character on its own: the result is the
    concatenation of the escapes of the characters of its argument, so the
    ampersand of an entity that a later replacement writes is never escaped
    again; the result contains no [<], [>], double quote or single quote;
    and a text without [&] and those four characters is returned as it
    is. *)
Theorem escapeHTML_escapes_each_character_once (str : string) :
  escapeHTML str = string_flat_map escape_char str ∧
  string_forall (λ c, negb (is_html_special c)) (escapeHTML str) = true ∧
  (string_forall (λ c, negb (is_html_special c || Ascii.eqb c "&")) str = true →
   escapeHTML str = str).
Proof.
  assert (escapeHTML str = string_flat_map escape_char str) as Heq.
  { unfold escapeHTML. destruct (String.eqb_spec str "") as [->|_]; [done|].
    rewrite !replace_all_flat_map, !string_flat_map_compose.
    apply string_flat_map_ext. intros c.
    rewrite <- escape_char_composed, !replace_all_flat_map.
    rewrite string_flat_map_single. by rewrite !string_flat_map_compose. }
  split_and!; [done| |].
  - rewrite Heq. clear Heq. induction str as [|c s IH]; [done|].
    change (string_flat_map escape_char (String c s))
      with (String.append (escape_char c) (string_flat_map escape_char s)).
    by rewrite string_forall_append, escape_char_safe, IH.
  - rewrite Heq. clear Heq. induction str as [|c s IH]; [done|].
    change (string_flat_map escape_char (String c s))
      with (String.append (escape_char c) (string_flat_map escape_char s)).
    change (string_forall (λ c, negb (is_html_special c || Ascii.eqb c "&"))
              (String c s))
      with (negb (is_html_special c || Ascii.eqb c "&")
            && string_forall (λ c, negb (is_html_special c || Ascii.eqb c "&")) s).
    intros [Hc Hs]%andb_true_iff. rewrite IH by done.
    revert Hc. clear. each_ascii c; try done.
Qed.

Lemma escapeHTML_escapes_each_character_once_witness :
  escapeHTML "plain text, 100%" = "plain text, 100%".
Proof.
  destruct (escapeHTML_escapes_each_character_once "plain text, 100%")
    as (_ & _ & Hplain).
  apply Hplain. reflexivity.
Defined.

(** [getUserColor] *)

Lemma ToInt32_range (z : Z) : (- 2 ^ 31 ≤ ToInt32 z < 2 ^ 31)%Z.
Proof.
  unfold ToInt32.
  pose proof (Z.mod_pos_bound (z + 2 ^ 31) (2 ^ 32)) as Hmod. lia.
Qed.

Lemma getUserColor_hash_bound (username : string) (hash : Z) :
  (Z.abs (getUserColor_hash hash username)
   ≤ Z.abs hash + Z.of_nat (String.length username) * (2 ^ 31 + 255))%Z.
Proof.
  revert hash. induction username as [|c r IH]; intros hash.
  - simpl. lia.
  - change (getUserColor_hash hash (String c r))
      with (getUserColor_hash
              (Z.of_nat (nat_of_ascii c) + (shift_left_5 hash - hash))%Z r).
    etransitivity; [apply IH|].
    pose proof (ToInt32_range (ToInt32 hash * 2 ^ 5)) as Hshift.
    fold (shift_left_5 hash) in Hshift.
    assert (nat_of_ascii c < 256) as Hc by (clear; each_ascii c; vm_compute; lia).
    change (String.length (String c r)) with (S (String.length r)).
    lia.
Qed.

(** X18. [getUserColor] never indexes outside its palette: every name,
    the empty one included, gets one of the ten colours.  The hash it
    computes is at most (2^31 + 255) times the length of the name in
    absolute value, so for names of up to a million characters all the
    numbers involved are far below 2^53 and the arithmetic is exact. *)
Theorem getUserColor_in_palette (username : string) :
  (∃ color, getUserColor username = Some color ∧ color ∈ user_colors) ∧
  (Z.abs (getUserColor_hash 0 username)
   ≤ Z.of_nat (String.length username) * (2 ^ 31 + 255))%Z ∧
  ((Z.of_nat (String.length username) ≤ 1000000)%Z →
   (Z.abs (getUserColor_hash 0 username) < 2 ^ 53)%Z).
Proof.
  pose proof (getUserColor_hash_bound username 0) as Hbound.
  simpl Z.abs in Hbound. rewrite Z.add_0_l in Hbound.
  split_and!; [|done|].
  - unfold getUserColor.
    pose proof (Z.mod_pos_bound (Z.abs (getUserColor_hash 0 username)) 10) as Hidx.
    destruct (user_colors !! Z.to_nat (Z.abs (getUserColor_hash 0 username) mod 10))
      as [color|] eqn:Hcolor.
    + exists color. split; [done|]. by eapply list_elem_of_lookup_2.
    + apply lookup_ge_None in Hcolor. simpl in Hcolor. lia.
  - intros Hlen.
    assert (Z.of_nat (String.length username) * (2 ^ 31 + 255)
            ≤ 1000000 * (2 ^ 31 + 255))%Z as Hmul by nia.
    lia.
Qed.

Lemma getUserColor_in_palette_witness :
  (Z.abs (getUserColor_hash 0 "Alice") < 2 ^ 53)%Z.
Proof.
  destruct (getUserColor_in_palette "Alice") as (_ & _ & Hexact).
  apply Hexact. vm_compute. discriminate.
Defined.

(** * Properties of the browser's storage service *)

Section RecentRooms.
Import StorageService.

Lemma remove_first_sublist {A} (p : A → bool) (l : list A) :
  sublist (remove_first p l) l.
Proof.
  induction l as [|x l IH]; simpl; [done|].
  destruct (p x); [by apply sublist_cons|by apply sublist_skip].
Qed.

(** Where the codes are distinct, taking out the first entry of a code takes
    out every entry of that code. *)
Lemma remove_first_filter (c : string) (l : list recent_room) :
  NoDup (code <$> l) →
  remove_first (λ room, String.eqb (code room) c) l
  = filter (λ room, code room ≠ c) l.
Proof.
  induction l as [|x l IH]; [done|].
  rewrite fmap_cons, NoDup_cons. intros [Hx Hl].
  simpl. rewrite filter_cons. destruct (String.eqb_spec (code x) c) as [Heq|Hne].
  - rewrite decide_False by auto. symmetry.
    rewrite <- Heq. clear IH Hl. induction l as [|y l IHl]; [done|].
    rewrite fmap_cons in Hx. apply not_elem_of_cons in Hx as [Hxy Hx].
    rewrite filter_cons, decide_True by done. by rewrite IHl.
  - rewrite decide_True by done. by rewrite IH.
Qed.

Lemma filter_code_NoDup (c : string) (l : list recent_room) :
  NoDup (code <$> l) →
  NoDup (code <$> filter (λ room, code room ≠ c) l)
  ∧ c ∉ code <$> filter (λ room, code room ≠ c) l.
Proof.
  intros Hnd. split.
  - eapply sublist_NoDup; [done|]. apply fmap_sublist, sublist_filter.
  - intros (room & -> & Hin)%list_elem_of_fmap.
    by apply list_elem_of_filter in Hin as [? _].
Qed.

(** The list [addRecentRoom] stores. *)
Lemma addRecentRoom_list now roomData st :
  NoDup (code <$> getRecentRooms st) →
  getRecentRooms (addRecentRoom now true roomData st).2 =
    take 10 ({| code := rd_code roomData;
                name := js_or (rd_name roomData)
                          (VStr (String.append "Room " (rd_code roomData)));
                lastJoined := now;
                username := rd_username roomData |}
             :: filter (λ room, code room ≠ rd_code roomData) (getRecentRooms st)).
Proof.
  intros Hnd. unfold addRecentRoom. rewrite remove_first_filter by done.
  unfold setRecentRooms, getRecentRooms at 1. cbn [snd recent_rooms default].
  set (l := _ :: filter _ _).
  destruct (10 <? length l) eqn:Hlen; [done|].
  apply Nat.ltb_ge in Hlen. by rewrite take_ge.
Qed.

Lemma apply_recent_inv st c :
  length (getRecentRooms st) ≤ 10 ∧ NoDup (code <$> getRecentRooms st) →
  length (getRecentRooms (apply st c)) ≤ 10
  ∧ NoDup (code <$> getRecentRooms (apply st c)).
Proof.
  intros [Hlen Hnd].
  destruct c as [now ok roomData|ok roomCode|now gen ok roomCode message|ok roomCode];
    cbn [apply].
  - destruct ok; [|done].
    rewrite addRecentRoom_list by done. split.
    + rewrite length_take. lia.
    + destruct (filter_code_NoDup (rd_code roomData) _ Hnd) as [Hnd' Hnotin].
      eapply sublist_NoDup; [|apply fmap_sublist, sublist_take].
      rewrite fmap_cons. by apply NoDup_cons.
  - destruct ok; [|done]. unfold removeRecentRoom, setRecentRooms.
    unfold getRecentRooms at 1 3. cbn [snd recent_rooms default]. split.
    + etransitivity; [apply length_filter|done].
    + by apply filter_code_NoDup.
  - unfold saveMessage.
    destruct (getAllHistory st !! roomCode); [by destruct ok|].
    destruct (inherited roomCode); [done|by destruct ok].
  - by destruct ok.
Qed.

Lemma run_recent_inv calls st :
  length (getRecentRooms st) ≤ 10 ∧ NoDup (code <$> getRecentRooms st) →
  length (getRecentRooms (run st calls)) ≤ 10
  ∧ NoDup (code <$> getRecentRooms (run st calls)).
Proof.
  revert st. induction calls as [|c calls IH]; intros st Hinv; [done|].
  apply IH. by apply apply_recent_inv.
Qed.

Lemma constructor_recent ok :
  getRecentRooms (constructor ok empty_storage) = [].
Proof. by destruct ok. Qed.

Lemma recent_rooms_bounded_and_distinct_aux (ok : bool) (calls : list call) :
  length (getRecentRooms (run (constructor ok empty_storage) calls)) ≤ 10
  ∧ NoDup (code <$> getRecentRooms (run (constructor ok empty_storage) calls)).
Proof.
  apply run_recent_inv. rewrite constructor_recent. split; [simpl; lia|constructor].
Qed.

(** X19. Whatever calls are made on the service, starting from an empty
    [localStorage], the list of recent rooms never has more than 10 entries
    and never names a room code twice. *)
Theorem recent_rooms_bounded_and_distinct (ok : bool) (calls : list call) :
  let st := run (constructor ok empty_storage) calls in
  length (getRecentRooms st) ≤ 10 ∧ NoDup (code <$> getRecentRooms st).
Proof. apply recent_rooms_bounded_and_distinct_aux. Qed.

(** X20. [addRecentRoom], on any store.  When the write succeeds it
    returns [true] and the list becomes the new entry, named "Room "
    followed by the code unless a name was given, followed by the old
    entries without the first one of the same code, cut to 10 entries.
    Where the old list names no code twice, as every list does that the
    service has built from an empty [localStorage], the entries that
    follow are the entries of all other codes in their old order, so that
    re-joining a room moves it to the front and the least recently joined
    room is dropped when the list is full.  When the write fails it
    returns [false] and the store is unchanged. *)
Theorem addRecentRoom_moves_room_to_front
    (st : storage) (now : Z) (roomData : room_data) :
  let entry := {| code := rd_code roomData;
                  name := if truthy (rd_name roomData) then rd_name roomData
                          else VStr (String.append "Room " (rd_code roomData));
                  lastJoined := now;
                  username := rd_username roomData |} in
  let kept := remove_first (λ room, String.eqb (code room) (rd_code roomData))
                           (getRecentRooms st) in
  (addRecentRoom now true roomData st).1 = true ∧
  getRecentRooms (addRecentRoom now true roomData st).2 = take 10 (entry :: kept) ∧
  head (getRecentRooms (addRecentRoom now true roomData st).2) = Some entry ∧
  addRecentRoom now false roomData st = (false, st) ∧
  (NoDup (code <$> getRecentRooms st) →
   kept = filter (λ room, code room ≠ rd_code roomData) (getRecentRooms st)) ∧
  (∀ ok0 calls, st = run (constructor ok0 empty_storage) calls →
   kept = filter (λ room, code room ≠ rd_code roomData) (getRecentRooms st)).
Proof.
  intros entry kept.
  assert (getRecentRooms (addRecentRoom now true roomData st).2
          = take 10 (entry :: kept)) as Hlist.
  { unfold addRecentRoom, setRecentRooms, getRecentRooms at 1.
    cbn [snd recent_rooms default]. fold kept.
    change {| code := rd_code roomData;
              name := js_or (rd_name roomData)
                        (VStr (String.append "Room " (rd_code roomData)));
              lastJoined := now; username := rd_username roomData |} with entry.
    destruct (10 <? length (entry :: kept)) eqn:Hlen; [done|].
    apply Nat.ltb_ge in Hlen. by rewrite take_ge. }
  split_and!; [done|done|by rewrite Hlist|done| |].
  - intros Hnd. by apply remove_first_filter.
  - intros ok0 calls ->. apply remove_first_filter.
    apply recent_rooms_bounded_and_distinct_aux.
Qed.

(** A stored list that names a code twice, as another script or tab can
    leave it, keeps the second entry of a room that is joined again. *)
Lemma addRecentRoom_keeps_second_entry :
  let old := {| code := "AB12CD"; name := VStr "Room AB12CD";
                lastJoined := 1; username := VStr "Alice" |} in
  let st := {| settings := None; recent_rooms := Some [old; old];
               chat_history := None |} in
  let roomData := {| rd_code := "AB12CD"; rd_name := VUndefined;
                     rd_username := VStr "Bob" |} in
  getRecentRooms (addRecentRoom 2 true roomData st).2 =
    [{| code := "AB12CD"; name := VStr "Room AB12CD"; lastJoined := 2;
        username := VStr "Bob" |}; old].
Proof. reflexivity. Qed.

Lemma addRecentRoom_moves_room_to_front_witness :
  let first := {| rd_code := "AB12CD"; rd_name := VUndefined;
                  rd_username := VStr "Alice" |} in
  let second := {| rd_code := "ZZ99ZZ"; rd_name := VStr "Lounge";
                   rd_username := VStr "Alice" |} in
  let st := run (constructor true empty_storage)
                [call_addRecentRoom 1 true first; call_addRecentRoom 2 true second] in
  getRecentRooms (addRecentRoom 3 true first st).2 =
    [{| code := "AB12CD"; name := VStr "Room AB12CD"; lastJoined := 3;
        username := VStr "Alice" |};
     {| code := "ZZ99ZZ"; name := VStr "Lounge"; lastJoined := 2;
        username := VStr "Alice" |}].
Proof.
  intros first second st.
  destruct (addRecentRoom_moves_room_to_front st 3 first)
    as (_ & Hlist & _ & _ & Hdistinct & _).
  rewrite Hlist, Hdistinct; [reflexivity|].
  apply (bool_decide_unpack _). vm_compute. reflexivity.
Defined.

End RecentRooms.

Section ChatHistory.
Import StorageService.

Lemma slice_last_100_short {A} (l : list A) :
  length l ≤ 100 → slice_last_100 l = l.
Proof.
  intros Hlen. unfold slice_last_100.
  by replace (length l - 100) with 0 by lia.
Qed.

Lemma slice_last_100_length {A} (l : list A) :
  length (slice_last_100 l) = min (length l) 100.
Proof. unfold slice_last_100. rewrite length_drop. lia. Qed.

Lemma slice_last_100_last {A} (l : list A) (x : A) :
  last (slice_last_100 (l ++ [x])) = Some x.
Proof.
  unfold slice_last_100. rewrite length_app. simpl.
  destruct (decide (length l + 1 - 100 ≤ length l)) as [Hle|Hgt]; [|lia].
  rewrite drop_app_le by done. apply last_snoc.
Qed.

Lemma getAllHistory_set v st : getAllHistory (setAllHistory true v st).2 = v.
Proof. done. Qed.

Lemma getChatHistory_set v st roomCode :
  getChatHistory roomCode (setAllHistory true v st).2 =
    match v !! roomCode with
    | Some messages => Some messages
    | None => if inherited roomCode then None else Some []
    end.
Proof. done. Qed.

(** What [saveMessage] stores under the room code. *)
Lemma saveMessage_stores now gen ok roomCode message st messages :
  getAllHistory st !! roomCode = Some messages
  ∨ (getAllHistory st !! roomCode = None ∧ inherited roomCode = false
     ∧ messages = []) →
  saveMessage now gen ok roomCode message st =
    Normal (setAllHistory ok
              (<[roomCode :=
                   slice_last_100
                     (messages ++
                      [{| e_id := js_or (e_id message) (VStr gen);
                          e_author := e_author message;
                          e_content := e_content message;
                          e_timestamp := js_or (e_timestamp message) (VNum now);
                          e_type := js_or (e_type message) (VStr "user") |}])]>
                 (getAllHistory st)) st).
Proof.
  intros Hcase. unfold saveMessage.
  set (stored := {| e_id := _ |}).
  assert ((if 100 <? length (messages ++ [stored])
           then slice_last_100 (messages ++ [stored]) else messages ++ [stored])
          = slice_last_100 (messages ++ [stored])) as Hcap.
  { destruct (100 <? length (messages ++ [stored])) eqn:Hlen; [done|].
    apply Nat.ltb_ge in Hlen. by rewrite slice_last_100_short. }
  destruct Hcase as [Hown|(Hnone & Hinh & ->)].
  - rewrite Hown. by rewrite Hcap.
  - rewrite Hnone, Hinh. by rewrite Hcap.
Qed.

(** A valid room code is not the name of an inherited member. *)
Lemma valid_code_not_inherited (roomCode : string) :
  regex_room_code roomCode = true → inherited roomCode = false.
Proof.
  intros Hvalid. unfold inherited. apply bool_decide_eq_false.
  unfold Object_prototype_names. rewrite !elem_of_cons, elem_of_nil.
  intros Hin.
  repeat (destruct Hin as [->|Hin]; [by vm_compute in Hvalid|]). done.
Qed.

Lemma apply_history_inv st c :
  (∀ roomCode messages, getAllHistory st !! roomCode = Some messages →
     inherited roomCode = false ∧ 1 ≤ length messages ≤ 100) →
  (∀ roomCode messages, getAllHistory (apply st c) !! roomCode = Some messages →
     inherited roomCode = false ∧ 1 ≤ length messages ≤ 100).
Proof.
  intros Hinv.
  destruct c as [now ok roomData|ok roomCode|now gen ok roomCode message|ok roomCode];
    cbn [apply].
  - by destruct ok.
  - by destruct ok.
  - destruct (getAllHistory st !! roomCode) as [old|] eqn:Hold.
    + rewrite (saveMessage_stores _ _ _ _ _ _ old) by auto.
      destruct ok; [|done]. intros code messages.
      rewrite getAllHistory_set.
      intros [[<- <-]|[_ Hlk]]%lookup_insert_Some; [|by eauto].
      split; [by eapply Hinv|].
      rewrite slice_last_100_length, length_app. simpl. lia.
    + destruct (inherited roomCode) eqn:Hinh.
      * unfold saveMessage. by rewrite Hold, Hinh.
      * rewrite (saveMessage_stores _ _ _ _ _ _ []) by auto.
        destruct ok; [|done]. intros code messages.
        rewrite getAllHistory_set.
        intros [[<- <-]|[_ Hlk]]%lookup_insert_Some; [|by eauto].
        split; [done|]. rewrite slice_last_100_length. simpl. lia.
  - destruct ok; [|done]. intros code messages.
    unfold clearChatHistory. rewrite getAllHistory_set.
    intros [_ Hlk]%lookup_delete_Some. eauto.
Qed.

Lemma run_history_inv calls st :
  (∀ roomCode messages, getAllHistory st !! roomCode = Some messages →
     inherited roomCode = false ∧ 1 ≤ length messages ≤ 100) →
  (∀ roomCode messages, getAllHistory (run st calls) !! roomCode = Some messages →
     inherited roomCode = false ∧ 1 ≤ length messages ≤ 100).
Proof.
  revert st. induction calls as [|c calls IH]; intros st Hinv; [done|].
  apply IH. by apply apply_history_inv.
Qed.

Lemma constructor_history ok : getAllHistory (constructor ok empty_storage) = ∅.
Proof. by destruct ok. Qed.

(** What a successful [saveMessage] leaves, for use by the callers. *)
Lemma saveMessage_appends_to_history_aux
    (st : storage) (now : Z) (gen roomCode : string) (message : entry) :
  inherited roomCode = false →
  ∃ st',
    saveMessage now gen true roomCode message st = Normal (true, st') ∧
    getChatHistory roomCode st' =
      Some (slice_last_100
              (default [] (getAllHistory st !! roomCode) ++
               [{| e_id := js_or (e_id message) (VStr gen);
                   e_author := e_author message;
                   e_content := e_content message;
                   e_timestamp := js_or (e_timestamp message) (VNum now);
                   e_type := js_or (e_type message) (VStr "user") |}])) ∧
    last (slice_last_100
            (default [] (getAllHistory st !! roomCode) ++
             [{| e_id := js_or (e_id message) (VStr gen);
                 e_author := e_author message;
                 e_content := e_content message;
                 e_timestamp := js_or (e_timestamp message) (VNum now);
                 e_type := js_or (e_type message) (VStr "user") |}]))
      = Some {| e_id := js_or (e_id message) (VStr gen);
                e_author := e_author message;
                e_content := e_content message;
                e_timestamp := js_or (e_timestamp message) (VNum now);
                e_type := js_or (e_type message) (VStr "user") |}.
Proof.
  intros Hinh.
  set (old := default [] (getAllHistory st !! roomCode)).
  set (stored := {| e_id := _ |}).
  assert (getAllHistory st !! roomCode = Some old
          ∨ (getAllHistory st !! roomCode = None ∧ inherited roomCode = false
             ∧ old = [])) as Hcase.
  { unfold old. destruct (getAllHistory st !! roomCode); auto. }
  exists (setAllHistory true
            (<[roomCode := slice_last_100 (old ++ [stored])]> (getAllHistory st))
            st).2.
  rewrite (saveMessage_stores _ _ _ _ _ _ old) by done.
  split_and!; [done| |apply slice_last_100_last].
  by rewrite getChatHistory_set, lookup_insert_eq.
Qed.

(** X21. [saveMessage] followed by [getChatHistory], in any state of the
    store and for a room code that is not the name of an inherited
    member (no valid room code is): when the write succeeds, the history
    of the room is its old history with the message appended, cut to its
    last 100 entries; the message, with a generated id, the clock and
    the type "user" filled in where it has none, is the last entry; the
    histories of all other rooms and the recent rooms are untouched.  When
    the write fails the call returns [false] and nothing changes. *)
Theorem saveMessage_appends_to_history
    (st : storage) (now : Z) (gen : string) (roomCode other : string)
    (message : entry) :
  inherited roomCode = false →
  let stored :=
    {| e_id := if truthy (e_id message) then e_id message else VStr gen;
       e_author := e_author message;
       e_content := e_content message;
       e_timestamp := if truthy (e_timestamp message) then e_timestamp message
                      else VNum now;
       e_type := if truthy (e_type message) then e_type message
                 else VStr "user" |} in
  let old := default [] (getAllHistory st !! roomCode) in
  getChatHistory roomCode st = Some old ∧
  ∃ st',
    saveMessage now gen true roomCode message st = Normal (true, st') ∧
    getChatHistory roomCode st' = Some (slice_last_100 (old ++ [stored])) ∧
    last (slice_last_100 (old ++ [stored])) = Some stored ∧
    (length old < 100 → getChatHistory roomCode st' = Some (old ++ [stored])) ∧
    (other ≠ roomCode → getChatHistory other st' = getChatHistory other st) ∧
    getRecentRooms st' = getRecentRooms st ∧
    saveMessage now gen false roomCode message st = Normal (false, st).
Proof.
  intros Hinh stored old.
  assert (getAllHistory st !! roomCode = Some old
          ∨ (getAllHistory st !! roomCode = None ∧ inherited roomCode = false
             ∧ old = [])) as Hcase.
  { unfold old. destruct (getAllHistory st !! roomCode); auto. }
  split.
  { unfold getChatHistory, old.
    destruct (getAllHistory st !! roomCode); [done|by rewrite Hinh]. }
  exists (setAllHistory true
            (<[roomCode := slice_last_100 (old ++ [stored])]> (getAllHistory st))
            st).2.
  rewrite !(saveMessage_stores _ _ _ _ _ _ old) by done.
  split; [reflexivity|].
  assert (getChatHistory roomCode
            (setAllHistory true
               (<[roomCode := slice_last_100 (old ++ [stored])]> (getAllHistory st))
               st).2 = Some (slice_last_100 (old ++ [stored]))) as Hget.
  { by rewrite getChatHistory_set, lookup_insert_eq. }
  split_and!.
  - exact Hget.
  - apply slice_last_100_last.
  - intros Hlen. rewrite Hget. f_equal. apply slice_last_100_short.
    rewrite length_app. simpl. lia.
  - intros Hne. rewrite getChatHistory_set. by rewrite lookup_insert_ne.
  - done.
  - done.
Qed.

Lemma saveMessage_appends_to_history_witness :
  let message := {| e_id := VUndefined; e_author := VStr "Alice";
                    e_content := VStr "hello"; e_timestamp := VUndefined;
                    e_type := VUndefined |} in
  let st := constructor true empty_storage in
  ∃ st',
    saveMessage 1699999999000 "lq3k8f2a" true "AB12CD" message st
      = Normal (true, st') ∧
    getChatHistory "AB12CD" st' =
      Some [{| e_id := VStr "lq3k8f2a"; e_author := VStr "Alice";
               e_content := VStr "hello"; e_timestamp := VNum 1699999999000;
               e_type := VStr "user" |}].
Proof.
  intros message st.
  destruct (saveMessage_appends_to_history st 1699999999000 "lq3k8f2a"
              "AB12CD" "ZZ99ZZ" message)
    as (_ & st' & Hsave & _ & _ & Hshort & _).
  - reflexivity.
  - exists st'. split; [exact Hsave|]. apply Hshort. vm_compute. lia.
Defined.

(** X22. Whatever calls are made on the service, starting from an empty
    [localStorage], every stored history has between 1 and 100 messages;
    [getChatHistory] gives a list for every valid room code; after a
    [clearChatHistory] that succeeds the history of that room is empty and
    those of the other rooms are as before; and [saveMessage] under the name
    of an inherited member, such as "toString", throws and stores
    nothing. *)
Theorem chat_history_is_capped
    (ok0 : bool) (calls : list call) (roomCode other : string)
    (now : Z) (gen : string) (ok : bool) (message : entry) :
  let st := run (constructor ok0 empty_storage) calls in
  (∀ messages, getAllHistory st !! roomCode = Some messages →
               1 ≤ length messages ≤ 100) ∧
  (regex_room_code roomCode = true →
   ∃ messages, getChatHistory roomCode st = Some messages
               ∧ length messages ≤ 100) ∧
  (inherited roomCode = false →
   getChatHistory roomCode (clearChatHistory true roomCode st).2 = Some []) ∧
  (other ≠ roomCode →
   getChatHistory other (clearChatHistory true roomCode st).2
   = getChatHistory other st) ∧
  (inherited roomCode = true →
   saveMessage now gen ok roomCode message st = TypeError
   ∧ getChatHistory roomCode st = None).
Proof.
  intros st.
  assert (∀ code messages, getAllHistory st !! code = Some messages →
            inherited code = false ∧ 1 ≤ length messages ≤ 100) as Hinv.
  { apply run_history_inv. intros code messages.
    by rewrite constructor_history, lookup_empty. }
  split_and!.
  - intros messages Hlk. by apply (Hinv _ _ Hlk).
  - intros Hvalid%valid_code_not_inherited. unfold getChatHistory.
    destruct (getAllHistory st !! roomCode) as [messages|] eqn:Hlk.
    + exists messages. split; [done|]. destruct (Hinv _ _ Hlk) as [_ ?]. lia.
    + rewrite Hvalid. exists []. split; [done|simpl; lia].
  - intros Hinh. unfold clearChatHistory.
    by rewrite getChatHistory_set, lookup_delete_eq, Hinh.
  - intros Hne. unfold clearChatHistory.
    by rewrite getChatHistory_set, lookup_delete_ne.
  - intros Hinh.
    assert (getAllHistory st !! roomCode = None) as Hnone.
    { destruct (getAllHistory st !! roomCode) as [messages|] eqn:Hlk; [|done].
      destruct (Hinv _ _ Hlk) as [? _]. congruence. }
    unfold saveMessage, getChatHistory. by rewrite Hnone, Hinh.
Qed.

Lemma chat_history_is_capped_witness :
  let st := run (constructor true empty_storage) [] in
  ∃ messages, getChatHistory "AB12CD" st = Some messages ∧ length messages ≤ 100.
Proof.
  intros st.
  destruct (chat_history_is_capped true [] "AB12CD" "ZZ99ZZ" 0 "id" true
              {| e_id := VUndefined; e_author := VUndefined;
                 e_content := VUndefined; e_timestamp := VUndefined;
                 e_type := VUndefined |})
    as (_ & Hvalid & _).
  apply Hvalid. reflexivity.
Defined.

End ChatHistory.

(** * Properties of sending, the heartbeat and the dispatch *)

Section Transport.
Import WebSocketTransport.
Variable readyState : nat → ready_state.

Lemma socket_open_Some s k :
  socket_open readyState s = Some k ↔ socket s = Some k ∧ readyState k = OPEN.
Proof.
  unfold socket_open. destruct (socket s) as [k'|]; [|by split; [|intros []]].
  case_decide as Hopen; split.
  - by intros [= <-].
  - by intros [[= <-] _].
  - done.
  - intros [[= <-] ?]. done.
Qed.

(** X23. [disconnect], in any state: afterwards the service has no socket,
    is marked disconnected with its attempt counter at 0, every later
    [sendMessage] returns [false] and writes nothing, and
    [getConnectionStatus] is [false].  If there was a socket, the
    heartbeat handles the service held are cleared and forgotten, the
    listeners are removed from the socket, and the socket is closed, with
    code 1000, exactly if it was open.  The listeners are told [false], and
    no reconnect timer is set; a reconnect timer that is pending is not
    cancelled (its handle was never kept). *)
Theorem disconnect_releases_socket (s : state) (data : message) :
  let r := disconnect readyState s in
  socket r.1 = None ∧
  WebSocketService.isConnected (service r.1) = false ∧
  WebSocketService.reconnectAttempts (service r.1) = 0%Z ∧
  sendMessage readyState data r.1
    = (false, [console_warn "WebSocket not connected, cannot send message"]) ∧
  getConnectionStatus readyState r.1 = false ∧
  service_effect (WebSocketService.notifyConnectionListeners false) ∈ r.2 ∧
  (∀ cb d, service_effect (WebSocketService.setTimeout cb d) ∉ r.2) ∧
  (∀ h, service_effect (WebSocketService.clearTimeout h) ∈ r.2 →
        WebSocketService.heartbeatTimeout (service s) = Some h) ∧
  (∀ k, socket s = Some k →
     WebSocketService.heartbeatInterval (service r.1) = None ∧
     WebSocketService.heartbeatTimeout (service r.1) = None ∧
     (∀ h, WebSocketService.heartbeatInterval (service s) = Some h →
           service_effect (WebSocketService.clearInterval h) ∈ r.2) ∧
     (∀ h, WebSocketService.heartbeatTimeout (service s) = Some h →
           service_effect (WebSocketService.clearTimeout h) ∈ r.2) ∧
     removeEventListeners k ∈ r.2 ∧
     (socket_close_normal k ∈ r.2 ↔ readyState k = OPEN)).
Proof.
  intros r. unfold r, disconnect, WebSocketService.stopHeartbeat, sendMessage,
    getConnectionStatus, socket_open. clear r.
  destruct s as [[ic ra mx rd hi ht] [k|]]; simpl.
  - destruct hi as [hi|], ht as [ht|], (decide (readyState k = OPEN)); simpl;
      split_and!; try done; set_unfold; intuition (simplify_eq; auto).
  - split_and!; try done; set_unfold; intuition (simplify_eq; auto).
Qed.

Lemma sendMessage_open s k data :
  socket_open readyState s = Some k →
  sendMessage readyState data s = (true, [socket_write k data]).
Proof. intros Hopen. unfold sendMessage. by rewrite Hopen. Qed.

(** X24. From the browser to the room.  When the socket of the service is
    open, [sendChatMessage] and [sendTypingIndicator] return [true] and
    write exactly one envelope each.  When the server handles those
    envelopes for a joined session, on any reachable state, and the name
    and the room code the session registered have a text (as all strings
    have): a chat whose content is not blank reaches every open member of
    the session's room, the sender among them, with the id the browser
    generated, the trimmed content and the name the session registered,
    and a typing indicator reaches every other open member with the flag
    the browser gave.  When the registered name or room code has no text,
    the chat reaches nobody and the sender is answered with the error
    "Invalid message format".  The room code and the user name the browser
    puts in the envelope play no part. *)
Theorem browser_send_reaches_room
    (tr : list (env * event)) (E : env) (ws : conn) (cl : client)
    (s : state) (k : nat) (gen content : string) (flag code name : jsval) :
  let σ := run new_server tr in
  socket_open readyState s = Some k →
  clients σ !! ws = Some cl →
  gen ≠ EmptyString → trim content ≠ EmptyString →
  ∃ chat typ,
    sendChatMessage readyState gen (VStr content) code name s
      = (true, [socket_write k chat]) ∧
    sendTypingIndicator readyState flag code name s
      = (true, [socket_write k typ]) ∧
    (converts (username cl) = true → converts (roomCode cl) = true →
     ∃ room,
       rooms σ !! roomCode cl = Some room ∧ ws ∈ room ∧
       step E σ (MessageEvent ws (Some (Json chat))) =
         (σ, (λ c, (c, chat_message (VStr gen) (username cl) (trim content)
                         (Date_now E)))
               <$> filter (is_open E) room) ∧
       step E σ (MessageEvent ws (Some (Json typ))) =
         (σ, (λ c, (c, typing (username cl) flag (Date_now E)))
               <$> filter (λ c, c ≠ ws ∧ is_open E c) room)) ∧
    (converts (username cl) = false ∨ converts (roomCode cl) = false →
     step E σ (MessageEvent ws (Some (Json chat))) =
       (σ, send E ws (error "Invalid message format" (Date_now E)))).
Proof.
  intros σ Hopen Hcl Hgen Htrim.
  assert (registry_inv σ) as Hinv by apply run_inv, new_server_inv.
  eexists _, _.
  unfold sendChatMessage, sendTypingIndicator.
  rewrite !(sendMessage_open _ k) by done.
  split_and!; [reflexivity|reflexivity| |].
  - intros Hname Hcode.
    destruct (registered_room σ ws cl Hinv Hcl Hcode) as (room & Hroom & Hin & _).
    exists room. split_and!; [done|done| |].
    + rewrite (step_chat_message_room E σ ws cl _ content) by done.
      rewrite (broadcastToRoom_all _ _ _ _ _ Hroom).
      unfold js_or. cbn [m_id truthy]. by rewrite (String_eqb_false _ _ Hgen).
    + rewrite (step_typing_room E σ ws cl) by done.
      by rewrite (broadcastToRoom_others _ _ _ _ _ _ Hroom).
  - intros Hno. by rewrite (step_chat_message_thrown E σ ws cl _ content).
Qed.

(** X25. The heartbeat.  A tick on a service whose socket is open writes
    one [ping] and arms a timeout of 5000 ms, remembering its handle; the
    server answers that ping with a [pong] to the connection it came from
    and to nobody else; and when the service receives a [pong] it cancels
    exactly that timeout and forgets the handle, leaving everything else
    as it was before the tick.  If the timeout fires instead, the socket is
    closed, without a close code.  A tick on a service without an open
    socket does nothing. *)
Theorem heartbeat_round_trip
    (E : env) (σ : server) (ws : conn) (s : state) (k handle : nat) (t : Z) :
  socket_open readyState s = Some k →
  let r := heartbeat_tick readyState handle s in
  r.2 = [socket_write k ping_message;
         service_effect (WebSocketService.setTimeout
                           WebSocketService.heartbeat_expired 5000)] ∧
  WebSocketService.heartbeatTimeout (service r.1) = Some handle ∧
  socket r.1 = socket s ∧
  (step E σ (MessageEvent ws (Some (Json ping_message)))).2
    = send E ws (pong (Date_now E)) ∧
  (handleMessage (Some (pong t)) r.1).2
    = [service_effect (WebSocketService.clearTimeout handle)] ∧
  WebSocketService.heartbeatTimeout
    (service (handleMessage (Some (pong t)) r.1).1) = None ∧
  (WebSocketService.heartbeatTimeout (service s) = None →
   (handleMessage (Some (pong t)) r.1).1 = s) ∧
  heartbeat_expired r.1
    = ([console_warn "Heartbeat timeout, closing connection"; socket_close_plain k],
       false) ∧
  (∀ s', socket_open readyState s' = None →
         heartbeat_tick readyState handle s' = (s', [])).
Proof.
  intros Hopen r. unfold r, heartbeat_tick.
  rewrite (sendMessage_open _ k) by done. rewrite Hopen.
  apply socket_open_Some in Hopen as [Hsock _].
  simpl. split_and!; try done.
  - unfold on_message, handleMessage. simpl. unfold handlePing.
    by destruct (clients σ !! ws).
  - intros Hnone. destruct s as [[ic ra mx rd hi ht] sock]. simpl in *.
    by subst.
  - unfold heartbeat_expired. simpl. by rewrite Hsock.
  - intros s' Hclosed. by rewrite Hclosed.
Qed.

(** X26. What [handleMessage] does with a message of one of the kinds the
    server sends, and with text that cannot be parsed.  It writes to no
    socket and closes none, and leaves the socket, the connection flag,
    the reconnect counter and the heartbeat interval as they are.  A chat
    message is passed to the message listeners; [user_joined],
    [user_left] and [user_list] are passed to the user listeners;
    [typing] is passed to the typing listeners: each exactly once, and
    nothing else is done.  An [error] is logged and then shown as one
    toast of kind "error" with the server's text, or with "Server error"
    when that text is empty.  Text that cannot be parsed, [room_joined]
    and the server's [connected] greeting are logged and nothing else.  A
    [pong] cancels the pending heartbeat timeout, if there is one. *)
Theorem dispatch_only_notifies (data : option outmsg) (s : state) :
  let r := handleMessage data s in
  socket r.1 = socket s ∧
  WebSocketService.isConnected (service r.1)
    = WebSocketService.isConnected (service s) ∧
  WebSocketService.reconnectAttempts (service r.1)
    = WebSocketService.reconnectAttempts (service s) ∧
  WebSocketService.heartbeatInterval (service r.1)
    = WebSocketService.heartbeatInterval (service s) ∧
  Forall (λ a, touches_socket a = false) r.2 ∧
  (∀ d, data = Some d → (∃ i u c t, d = chat_message i u c t) →
        r = (s, [notifyMessageListeners d])) ∧
  (∀ d, data = Some d →
        (∃ u t, d = user_joined u t) ∨ (∃ u t, d = user_left u t)
        ∨ (∃ us, d = user_list us) →
        r = (s, [notifyUserListeners d])) ∧
  (∀ d, data = Some d → (∃ u b t, d = typing u b t) →
        r = (s, [notifyTypingListeners d])) ∧
  (∀ msg t, data = Some (error msg t) →
        r = (s, [console_error "Server error:";
                 showToast (if String.eqb msg "" then "Server error" else msg)
                           "error"])) ∧
  (data = None → r = (s, [console_error "Error parsing WebSocket message:"])) ∧
  (∀ c u, data = Some (room_joined c u) →
        r = (s, [service_effect
                   (WebSocketService.console_log "Successfully joined room:")])) ∧
  (∀ t, data = Some (connected t) →
        r = (s, [service_effect
                   (WebSocketService.console_log "Unknown message type:")])) ∧
  (∀ t, data = Some (pong t) →
        r.2 = match WebSocketService.heartbeatTimeout (service s) with
              | Some h => [service_effect (WebSocketService.clearTimeout h)]
              | None => []
              end ∧
        WebSocketService.heartbeatTimeout (service r.1) = None).
Proof.
  intros r. unfold r, handleMessage, handlePong. clear r.
  split_and!.
  1-5: destruct data as [[]|]; simpl;
    try destruct (WebSocketService.heartbeatTimeout (service s)); simpl;
    try done; by repeat constructor.
  - by intros d -> (i & u & c & t & ->).
  - by intros d -> [(u & t & ->)|[(u & t & ->)|(us & ->)]].
  - by intros d -> (u & b & t & ->).
  - by intros msg t ->.
  - by intros ->.
  - by intros c u ->.
  - by intros t ->.
  - intros t ->.
    by destruct (WebSocketService.heartbeatTimeout (service s)) eqn:Hheld.
Qed.

End Transport.

Section TransportExamples.
Import WebSocketTransport.

Lemma disconnect_releases_socket_witness :
  let s := {| service := (WebSocketService.handleOpen 7 WebSocketService.constructor).1;
              socket := Some 1 |} in
  let r := disconnect (λ _, OPEN) s in
  socket r.1 = None ∧
  WebSocketService.heartbeatInterval (service r.1) = None ∧
  service_effect (WebSocketService.clearInterval 7) ∈ r.2 ∧
  socket_close_normal 1 ∈ r.2.
Proof.
  intros s r.
  destruct (disconnect_releases_socket (λ _, OPEN) s ping_message)
    as (Hsocket & _ & _ & _ & _ & _ & _ & _ & Hheld).
  destruct (Hheld 1 eq_refl) as (Hinterval & _ & Hcleared & _ & _ & Hclosed).
  split_and!; [exact Hsocket|exact Hinterval|by apply Hcleared|by apply Hclosed].
Defined.

Lemma browser_send_reaches_room_witness :
  let s := {| service := WebSocketService.constructor; socket := Some 1 |} in
  let σ := run new_server sample_trace in
  let chat := {| m_type := VStr "chat_message"; m_roomCode := VStr "ZZ99ZZ";
                 m_username := VStr "Mallory"; m_content := VStr "  hello ";
                 m_id := VStr "lq3k8f2a"; m_isTyping := VUndefined |} in
  let out := chat_message (VStr "lq3k8f2a") (VStr "Alice") "hello" 1699999999000 in
  sendChatMessage (λ _, OPEN) "lq3k8f2a" (VStr "  hello ")
      (VStr "ZZ99ZZ") (VStr "Mallory") s
    = (true, [socket_write 1 chat]) ∧
  step sample_env σ (MessageEvent 1 (Some (Json chat))) = (σ, [(1, out); (2, out)]).
Proof.
  intros s σ chat out.
  destruct (browser_send_reaches_room (λ _, OPEN) sample_trace sample_env 1 alice
              s 1 "lq3k8f2a" "  hello " (VBool true) (VStr "ZZ99ZZ") (VStr "Mallory"))
    as (chat' & typ & Hsent & _ & Hdelivered & _);
    [reflexivity|vm_compute; reflexivity|discriminate|vm_compute; discriminate|].
  assert (chat' = chat) as -> by (injection Hsent as Heq; by simplify_eq).
  split; [exact Hsent|].
  destruct Hdelivered as (room & Hroom & _ & Hchat & _); [reflexivity|reflexivity|].
  assert (room = [1; 2]) as -> by (vm_compute in Hroom; by simplify_eq).
  exact Hchat.
Defined.

Lemma heartbeat_round_trip_witness :
  let s := {| service := (WebSocketService.handleOpen 7 WebSocketService.constructor).1;
              socket := Some 1 |} in
  let r := heartbeat_tick (λ _, OPEN) 8 s in
  WebSocketService.heartbeatTimeout (service r.1) = Some 8 ∧
  (handleMessage (Some (pong 1699999999000)) r.1).2
    = [service_effect (WebSocketService.clearTimeout 8)] ∧
  (handleMessage (Some (pong 1699999999000)) r.1).1 = s.
Proof.
  intros s r.
  destruct (heartbeat_round_trip (λ _, OPEN) sample_env new_server 1 s 1 8
              1699999999000 eq_refl)
    as (_ & Harmed & _ & _ & Hcancel & _ & Hback & _).
  split_and!; [exact Harmed|exact Hcancel|by apply Hback].
Defined.

Lemma dispatch_only_notifies_witness :
  let s := {| service := WebSocketService.constructor; socket := Some 1 |} in
  let d := typing (VStr "Bob") (VBool true) 1699999999000 in
  handleMessage (Some (error EmptyString 1699999999000)) s
    = (s, [console_error "Server error:"; showToast "Server error" "error"])
  ∧ handleMessage (Some d) s = (s, [notifyTypingListeners d]).
Proof.
  intros s d.
  destruct (dispatch_only_notifies (Some (error EmptyString 1699999999000)) s)
    as (_ & _ & _ & _ & _ & _ & _ & _ & Htoast & _).
  destruct (dispatch_only_notifies (Some d) s)
    as (_ & _ & _ & _ & _ & _ & _ & Htyping & _).
  split.
  - exact (Htoast EmptyString 1699999999000%Z eq_refl).
  - apply (Htyping d); [reflexivity|]. by eexists _, _, _.
Defined.

End TransportExamples.

(** * Properties of the browser's chat service *)

Section ChatView.
Import ChatServiceView.

Lemma Set_add_elem (v x : jsval) (s : list jsval) :
  x ∈ Set_add v s ↔ x ∈ s ∨ x = v.
Proof.
  unfold Set_add. case_decide as Hin.
  - split; [by left|by intros [?| ->]].
  - rewrite elem_of_app, list_elem_of_singleton. tauto.
Qed.

Lemma Set_add_NoDup (v : jsval) (s : list jsval) : NoDup s → NoDup (Set_add v s).
Proof.
  intros Hnd. unfold Set_add. case_decide as Hin; [done|].
  apply NoDup_app. split_and!; [done| |apply NoDup_singleton].
  by intros x Hx ->%list_elem_of_singleton.
Qed.

Lemma Set_delete_elem (v x : jsval) (s : list jsval) :
  x ∈ Set_delete v s ↔ x ∈ s ∧ x ≠ v.
Proof. unfold Set_delete. rewrite list_elem_of_filter. tauto. Qed.

Lemma Set_delete_NoDup (v : jsval) (s : list jsval) :
  NoDup s → NoDup (Set_delete v s).
Proof. apply NoDup_filter. Qed.

Lemma Set_add_length (v : jsval) (s : list jsval) :
  length (Set_add v s) ≤ S (length s).
Proof.
  unfold Set_add. case_decide; [lia|]. rewrite length_app. simpl. lia.
Qed.

Lemma foldl_Set_add (users s : list jsval) :
  NoDup s →
  NoDup (foldl (λ s u, Set_add u s) s users) ∧
  (∀ x, x ∈ foldl (λ s u, Set_add u s) s users ↔ x ∈ s ∨ x ∈ users) ∧
  length (foldl (λ s u, Set_add u s) s users) ≤ length s + length users.
Proof.
  revert s. induction users as [|u users IH]; intros s Hnd; simpl.
  - split_and!; [done| |lia]. intros x. rewrite elem_of_nil. tauto.
  - destruct (IH (Set_add u s) (Set_add_NoDup _ _ Hnd)) as (Hnd' & Hin & Hlen).
    split_and!; [done| |].
    + intros x. rewrite Hin, Set_add_elem, elem_of_cons. tauto.
    + pose proof (Set_add_length u s). lia.
Qed.

Lemma foldl_Set_add_distinct (users s : list jsval) :
  NoDup (s ++ users) → foldl (λ s u, Set_add u s) s users = s ++ users.
Proof.
  revert s. induction users as [|u users IH]; intros s Hnd; simpl.
  - by rewrite app_nil_r.
  - assert (Set_add u s = s ++ [u]) as ->.
    { unfold Set_add. rewrite decide_False; [done|].
      apply NoDup_app in Hnd as (_ & Hdisj & _). intros Hin.
      apply (Hdisj u Hin). by left. }
    rewrite IH; [by rewrite <- app_assoc|]. by rewrite <- app_assoc.
Qed.

Lemma add_and_save_view now gen ok (m : shown) (c : chat) st :
  view (add_and_save now gen ok m c st) = with_messages c (messages c ++ [m]).
Proof.
  unfold add_and_save, addMessage.
  destruct (isOwn m), (StorageService.getSettings st); cbn [threw view store];
    try done; by destruct (StorageService.saveMessage _ _ _ _ _ _).
Qed.

Lemma add_and_save_notices now gen ok (m : shown) (c : chat) st (n : notice) :
  n ∈ notices (add_and_save now gen ok m c st) →
  n = message_listeners m ∨ n = playNotificationSound.
Proof.
  unfold add_and_save, addMessage.
  destruct (isOwn m), (StorageService.getSettings st) as [s|];
    cbn [threw view store notices];
    try destruct (StorageService.saveMessage _ _ _ _ _ _);
    try destruct (truthy (default VUndefined (s !! "soundNotifications")));
    cbn [notices]; set_unfold; intuition (simplify_eq; auto).
Qed.

Lemma add_and_save_no_settings now gen ok (m : shown) (c : chat) st :
  isOwn m = false → StorageService.getSettings st = None →
  threw (add_and_save now gen ok m c st) = true
  ∧ store (add_and_save now gen ok m c st) = st.
Proof.
  intros Hown Hnone. unfold add_and_save, addMessage. by rewrite Hown, Hnone.
Qed.

(** X27. A chat message under the receiver's own name is never shown.
    Every chat packet the server sends for a message of a joined session
    carries the name that session registered; a browser whose current
    user has that name, be it the sender itself getting its echo or
    another participant who joined under the same name, drops the packet:
    nothing is added to its messages, nothing is stored and no listener is
    told. *)
Theorem own_name_messages_are_dropped
    (tr : list (env * event)) (E : env) (ws : conn) (cl : client) (m : message)
    (p : packet) (id u : jsval) (content : string) (t : Z)
    (now : Z) (gen : string) (ok : bool)
    (c : chat) (st : StorageService.storage) :
  let σ := run new_server tr in
  clients σ !! ws = Some cl →
  m_type m = VStr "chat_message" →
  p ∈ (step E σ (MessageEvent ws (Some (Json m)))).2 →
  p.2 = chat_message id u content t →
  currentUser c = username cl →
  u = username cl ∧
  handleWebSocketMessage now gen ok id u content t c st =
    {| view := c; store := st; notices := []; threw := false |}.
Proof.
  intros σ Hcl Htype Hp Hpacket Hme.
  assert (u = username cl) as ->.
  { eapply (broadcast_carries_registered_name E σ ws m (username cl) p u).
    - by rewrite Hcl.
    - by left.
    - done.
    - by rewrite Hpacket. }
  split; [done|]. unfold handleWebSocketMessage.
  by rewrite decide_True.
Qed.

Lemma own_name_messages_are_dropped_witness :
  let c := {| currentRoom := Some "AB12CD"; currentUser := VStr "Alice";
              messages := []; onlineUsers := []; typingUsers := [] |} in
  let st := StorageService.constructor true StorageService.empty_storage in
  handleWebSocketMessage 1699999999000 "lq3k8f2a" true
      (VStr "c1") (VStr "Alice") "hello" 1699999999000 c st
    = {| view := c; store := st; notices := []; threw := false |}.
Proof.
  intros c st.
  apply (own_name_messages_are_dropped sample_trace sample_env 1 alice sample_chat
           (2, chat_message (VStr "c1") (VStr "Alice") "hello" 1699999999000));
    [vm_compute; reflexivity|reflexivity
    |vm_compute; right; left|reflexivity|reflexivity].
Defined.

(** X28. A chat message under another name is shown and stored.  With
    settings in the store, it is appended to the messages as not the
    user's own, the message listeners are told once, and the notification
    sound is played exactly if the setting [soundNotifications] is on;
    if the current room is a valid room code and the write succeeds, the
    stored history of that room ends with the message.  Without settings
    in the store the message is shown but the call throws before it stores
    anything. *)
Theorem foreign_message_is_shown_and_stored
    (id u : jsval) (content : string) (t now : Z) (gen code : string)
    (c : chat) (st : StorageService.storage) (settings : gmap string jsval) :
  u ≠ currentUser c →
  currentRoom c = Some code →
  regex_room_code code = true →
  let e := {| StorageService.e_id := if truthy id then id else VStr gen;
              StorageService.e_author := u;
              StorageService.e_content := VStr content;
              StorageService.e_timestamp := VNum t;
              StorageService.e_type := VStr "user" |} in
  let m := {| entry := e; isOwn := false |} in
  let r := handleWebSocketMessage now gen true id u content t c st in
  messages (view r) = messages c ++ [m] ∧
  message_listeners m ∈ notices r ∧
  (StorageService.getSettings st = Some settings →
   threw r = false ∧
   notices r = message_listeners m ::
               (if truthy (default VUndefined (settings !! "soundNotifications"))
                then [playNotificationSound] else []) ∧
   ∃ history stored,
     StorageService.getChatHistory code (store r) = Some history ∧
     last history = Some stored ∧
     StorageService.e_author stored = u ∧
     StorageService.e_content stored = VStr content ∧
     (t ≠ 0%Z → stored = e)) ∧
  (StorageService.getSettings st = None → threw r = true ∧ store r = st).
Proof.
  intros Hother Hroom Hvalid e m r.
  apply valid_code_not_inherited in Hvalid.
  destruct (saveMessage_appends_to_history_aux st now gen code e Hvalid)
    as (st' & Hsave & Hget & Hlast).
  assert (r = match StorageService.getSettings st with
              | Some s =>
                  {| view := with_messages c (messages c ++ [m]);
                     store := st';
                     notices :=
                       [message_listeners m] ++
                       (if truthy (default VUndefined (s !! "soundNotifications"))
                        then [playNotificationSound] else []);
                     threw := false |}
              | None =>
                  {| view := with_messages c (messages c ++ [m]);
                     store := st; notices := [message_listeners m];
                     threw := true |}
              end) as ->.
  { unfold r, handleWebSocketMessage. rewrite decide_False by done.
    unfold add_and_save, addMessage, room_key. rewrite Hroom.
    cbn [isOwn entry].
    destruct (StorageService.getSettings st) as [s|]; [|done].
    cbn [threw store]. change (js_or id (VStr gen)) with (StorageService.e_id e).
    change {| StorageService.e_id := StorageService.e_id e;
              StorageService.e_author := u;
              StorageService.e_content := VStr content;
              StorageService.e_timestamp := VNum t;
              StorageService.e_type := VStr "user" |} with e.
    by rewrite Hsave. }
  destruct (StorageService.getSettings st) as [s|] eqn:Hsettings;
    cbn [view store notices threw with_messages messages].
  - split_and!; [done|by left|intros [= <-]|done].
    split_and!; [done|done|].
    eexists _, _. split; [exact Hget|]. split; [exact Hlast|].
    split_and!; [done|done|].
    intros Ht. unfold e, js_or. cbn [StorageService.e_id
      StorageService.e_author StorageService.e_content
      StorageService.e_timestamp StorageService.e_type].
    assert (truthy (VNum t) = true) as ->
      by (cbn; by rewrite (proj2 (Z.eqb_neq t 0))).
    assert (truthy (VStr "user") = true) as -> by done.
    destruct (truthy id) eqn:Hid; [by rewrite Hid|].
    by destruct (truthy (VStr gen)).
  - split_and!; [done|by left|done|done].
Qed.

Lemma foreign_message_is_shown_and_stored_witness :
  let c := {| currentRoom := Some "AB12CD"; currentUser := VStr "Alice";
              messages := []; onlineUsers := []; typingUsers := [] |} in
  let st := StorageService.constructor true StorageService.empty_storage in
  let e := {| StorageService.e_id := VStr "c1";
              StorageService.e_author := VStr "Bob";
              StorageService.e_content := VStr "hello";
              StorageService.e_timestamp := VNum 1699999999000;
              StorageService.e_type := VStr "user" |} in
  let r := handleWebSocketMessage 1700000000000 "lq3k8f2a" true
             (VStr "c1") (VStr "Bob") "hello" 1699999999000 c st in
  threw r = false ∧
  notices r = [message_listeners {| entry := e; isOwn := false |};
               playNotificationSound] ∧
  ∃ history,
    StorageService.getChatHistory "AB12CD" (store r) = Some history ∧
    last history = Some e.
Proof.
  intros c st e r.
  destruct (foreign_message_is_shown_and_stored (VStr "c1") (VStr "Bob") "hello"
              1699999999000 1700000000000 "lq3k8f2a" "AB12CD" c st
              StorageService.defaultSettings)
    as (_ & _ & Hstored & _); [discriminate|reflexivity|reflexivity|].
  destruct (Hstored eq_refl)
    as (Hthrew & Hnotices & history & stored & Hget & Hlast & _ & _ & Hsame).
  split_and!; [exact Hthrew|exact Hnotices|].
  exists history. split; [exact Hget|].
  rewrite Hlast. f_equal. by apply Hsame.
Defined.

(** X29. The list of online users is a set of names.  Whatever the server
    reports, [handleWebSocketUserChange] leaves it without repetition; a
    [user_list] replaces it by the names listed, each kept once (so a
    name two members share is shown once, and a list without repetition is
    taken as it is), another user's [user_joined] adds the name, another
    user's [user_left] removes it, and a report about the user's own name
    changes nothing.
    The user listeners are told last and once, with the new list, unless
    the system message of a join or leave threw on the way: then they are
    not told at all, and that is what happens whenever the store has no
    settings. *)
Theorem online_users_follow_server_reports
    (now : Z) (gen : string) (ok : bool) (data : outmsg)
    (c : chat) (st : StorageService.storage) :
  NoDup (onlineUsers c) →
  let r := handleWebSocketUserChange now gen ok data c st in
  NoDup (onlineUsers (view r)) ∧
  (∀ x, x ∈ onlineUsers (view r) ↔
     match data with
     | user_list us => x ∈ us
     | user_joined u _ => x ∈ onlineUsers c ∨ (x = u ∧ u ≠ currentUser c)
     | user_left u _ => x ∈ onlineUsers c ∧ ¬ (x = u ∧ u ≠ currentUser c)
     | _ => x ∈ onlineUsers c
     end) ∧
  (∀ us, data = user_list us →
     store r = st ∧ messages (view r) = messages c ∧
     (NoDup us → onlineUsers (view r) = us)) ∧
  (threw r = false →
     ∃ before, notices r = before ++ [user_listeners (onlineUsers (view r))]
               ∧ ∀ l, user_listeners l ∉ before) ∧
  (threw r = true →
     (∀ l, user_listeners l ∉ notices r) ∧
     ∃ u t, (data = user_joined u t ∨ data = user_left u t) ∧ u ≠ currentUser c) ∧
  (StorageService.getSettings st = None →
     ∀ u t, data = user_joined u t ∨ data = user_left u t →
            u ≠ currentUser c → threw r = true ∧ store r = st).
Proof.
  intros Hnd r. unfold r, handleWebSocketUserChange. clear r.
  destruct data as [msg|rc un|u t|u t|us|i u ct t|u b t|t|msg t];
    try (simpl; split_and!;
         [done|done|done|intros _; exists []; split; [done|intros ?; apply not_elem_of_nil]
         |done|by intros ? ? ? [|]]).
  - (* user_joined *)
    destruct (decide (u ≠ currentUser c)) as [Hother|Hsame]; cycle 1.
    { simpl. split_and!; [done|intros x; tauto|done
                  |intros _; exists []; split; [done|intros ?; apply not_elem_of_nil]
                  |done|by intros ? ? ? [[= -> _]|]]. }
    destruct (ToString u) as [name|] eqn:Hname; cycle 1.
    { simpl. split_and!; [by apply Set_add_NoDup
                  |intros x; rewrite Set_add_elem; tauto|done|done| |done].
      intros _. split; [intros ?; apply not_elem_of_nil|by eauto]. }
    unfold addSystemMessage.
    set (m := {| entry := _; isOwn := false |}).
    set (c1 := with_onlineUsers c _).
    pose proof (add_and_save_view now gen ok m c1 st) as Hview.
    pose proof (add_and_save_notices now gen ok m c1 st) as Hnotices.
    pose proof (add_and_save_no_settings now gen ok m c1 st eq_refl) as Hthrew.
    destruct (add_and_save now gen ok m c1 st) as [v s ns [|]];
      cbn [threw view store notices] in *; subst v; cbn [onlineUsers with_messages c1
        with_onlineUsers].
    + split_and!; [by apply Set_add_NoDup
                  |intros x; rewrite Set_add_elem; tauto|done|done| |].
      * intros _. split; [|by eauto].
        intros l Hl. by destruct (Hnotices _ Hl).
      * intros Hnone _ _ _ _. by destruct (Hthrew Hnone).
    + split_and!; [by apply Set_add_NoDup
                  |intros x; rewrite Set_add_elem; tauto|done| |done|].
      * intros _. exists ns. split; [done|].
        intros l Hl. by destruct (Hnotices _ Hl).
      * intros Hnone. by destruct (Hthrew Hnone).
  - (* user_left *)
    destruct (decide (u ≠ currentUser c)) as [Hother|Hsame]; cycle 1.
    { simpl. split_and!; [done|intros x; tauto|done
                  |intros _; exists []; split; [done|intros ?; apply not_elem_of_nil]
                  |done|by intros ? ? ? [|[= -> _]]]. }
    destruct (ToString u) as [name|] eqn:Hname; cycle 1.
    { simpl. split_and!; [by apply Set_delete_NoDup
                  |intros x; rewrite Set_delete_elem; tauto|done|done| |done].
      intros _. split; [intros ?; apply not_elem_of_nil|by eauto]. }
    unfold addSystemMessage.
    set (m := {| entry := _; isOwn := false |}).
    set (c1 := with_onlineUsers c _).
    pose proof (add_and_save_view now gen ok m c1 st) as Hview.
    pose proof (add_and_save_notices now gen ok m c1 st) as Hnotices.
    pose proof (add_and_save_no_settings now gen ok m c1 st eq_refl) as Hthrew.
    destruct (add_and_save now gen ok m c1 st) as [v s ns [|]];
      cbn [threw view store notices] in *; subst v; cbn [onlineUsers with_messages c1
        with_onlineUsers].
    + split_and!; [by apply Set_delete_NoDup
                  |intros x; rewrite Set_delete_elem; tauto|done|done| |].
      * intros _. split; [|by eauto].
        intros l Hl. by destruct (Hnotices _ Hl).
      * intros Hnone _ _ _ _. by destruct (Hthrew Hnone).
    + split_and!; [by apply Set_delete_NoDup
                  |intros x; rewrite Set_delete_elem; tauto|done| |done|].
      * intros _. exists ns. split; [done|].
        intros l Hl. by destruct (Hnotices _ Hl).
      * intros Hnone. by destruct (Hthrew Hnone).
  - (* user_list *)
    simpl.
    destruct (foldl_Set_add us [] (NoDup_nil_2 : NoDup ([] : list jsval)))
      as (Hnd' & Hin & _).
    split_and!; [done| |intros us' [= <-]|intros _; exists []; split; [done|intros ?; apply not_elem_of_nil]
                |done|by intros ? ? ? [|]].
    + intros x. rewrite Hin, elem_of_nil. tauto.
    + split_and!; [done|done|]. intros Hus. by apply (foldl_Set_add_distinct us []).
Qed.

(** X30. The typing indicator.  [handleWebSocketTyping] ignores a report
    about the user's own name; for another name a truthy flag puts the
    name among the typing users, once, a falsy flag takes it out, no other
    name is touched, and the typing listeners are told the new list.  So
    a list that repeats no name and does not hold the user's own stays
    so, and for a user who was not listed a report that they stopped
    typing undoes the report that they started. *)
Theorem typing_users_follow_flags (u flag : jsval) (c : chat) :
  NoDup (typingUsers c) →
  currentUser c ∉ typingUsers c →
  let r := handleWebSocketTyping u flag c in
  NoDup (typingUsers r.1) ∧
  currentUser r.1 = currentUser c ∧
  (currentUser c ∉ typingUsers r.1) ∧
  messages r.1 = messages c ∧ onlineUsers r.1 = onlineUsers c ∧
  (u = currentUser c → r = (c, [])) ∧
  (u ≠ currentUser c →
     r.2 = [typing_listeners (typingUsers r.1)] ∧
     (u ∈ typingUsers r.1 ↔ truthy flag = true) ∧
     (∀ x, x ≠ u → x ∈ typingUsers r.1 ↔ x ∈ typingUsers c) ∧
     (u ∉ typingUsers c → truthy flag = true →
      ∀ stop, truthy stop = false →
              typingUsers (handleWebSocketTyping u stop r.1).1 = typingUsers c)).
Proof.
  intros Hnd Hme r. unfold r, handleWebSocketTyping. clear r.
  case_decide as Hown.
  { cbn [fst snd]. split_and!; try done. }
  cbn [fst snd typingUsers currentUser messages onlineUsers with_typingUsers].
  destruct (truthy flag) eqn:Hflag.
  - split_and!; [by apply Set_add_NoDup|done| |done|done|done|].
    { rewrite Set_add_elem. by intros [?|?]. }
    intros _. split_and!; [done| | |].
    + rewrite Set_add_elem. by split; [|right].
    + intros x Hx. rewrite Set_add_elem. by split; [intros [?|?]|left].
    + intros Hnew _ stop Hstop. rewrite decide_False by done.
      cbn [fst typingUsers with_typingUsers]. rewrite Hstop.
      unfold Set_add, Set_delete. rewrite decide_False by done.
      rewrite filter_app, filter_cons_False, filter_nil, app_nil_r by (by intros ?).
      clear Hnd Hme. induction (typingUsers c) as [|y l IH]; [done|].
      apply not_elem_of_cons in Hnew as [Hy Hl].
      rewrite filter_cons_True by done. by rewrite IH.
  - split_and!; [by apply Set_delete_NoDup|done| |done|done|done|].
    { rewrite Set_delete_elem. by intros [? _]. }
    intros _. split_and!; [done| | |done].
    + rewrite Set_delete_elem. split; [by intros [_ ?]|done].
    + intros x Hx. rewrite Set_delete_elem. by split; [intros [? _]|].
Qed.

Lemma online_users_follow_server_reports_witness :
  let c := {| currentRoom := Some "AB12CD"; currentUser := VStr "Alice";
              messages := []; onlineUsers := [VStr "Carol"]; typingUsers := [] |} in
  let st := StorageService.constructor true StorageService.empty_storage in
  let r := handleWebSocketUserChange 1699999999000 "lq3k8f2a" true
             (user_list [VStr "Bob"; VStr "Alice"; VStr "Bob"]) c st in
  NoDup (onlineUsers (view r)) ∧
  VStr "Bob" ∈ onlineUsers (view r) ∧
  VStr "Carol" ∉ onlineUsers (view r).
Proof.
  intros c st r.
  destruct (online_users_follow_server_reports 1699999999000 "lq3k8f2a" true
              (user_list [VStr "Bob"; VStr "Alice"; VStr "Bob"]) c st)
    as (Hdistinct & Hnames & _).
  - apply NoDup_singleton.
  - split_and!; [exact Hdistinct| |].
    + apply Hnames. by left.
    + intros Hin. apply Hnames in Hin.
      by repeat (apply elem_of_cons in Hin as [Hin|Hin]; [discriminate|]);
        apply elem_of_nil in Hin.
Defined.

Lemma typing_users_follow_flags_witness :
  let c := {| currentRoom := Some "AB12CD"; currentUser := VStr "Alice";
              messages := []; onlineUsers := []; typingUsers := [] |} in
  let r := handleWebSocketTyping (VStr "Bob") (VBool true) c in
  r.2 = [typing_listeners (typingUsers r.1)] ∧
  VStr "Bob" ∈ typingUsers r.1 ∧
  typingUsers (handleWebSocketTyping (VStr "Bob") (VBool false) r.1).1 = [].
Proof.
  intros c r.
  destruct (typing_users_follow_flags (VStr "Bob") (VBool true) c)
    as (_ & _ & _ & _ & _ & _ & Hother).
  - apply NoDup_nil_2.
  - apply not_elem_of_nil.
  - destruct Hother as (Htold & Hin & _ & Hundo); [discriminate|].
    split_and!; [exact Htold|by apply Hin|].
    apply Hundo; [apply not_elem_of_nil|reflexivity|reflexivity].
Defined.

End ChatView.
